(** * JapaneseStudy: quiz sessions, mistake store and progress store

    A shallow embedding of the quiz engine of the JapaneseStudy flashcard
    application ([quiz_manager.py], [mistake_tracker.py],
    [progress_manager.py], [data_loader.py], [ui_handler.py]) and the
    properties of it that the design document states.

    Python dictionaries read from the content files are finite maps from
    column names to strings; the mistake table is a list of typed rows; the
    progress table is the list of its raw rows.  Every effect of the program
    (files, the random generator, the wall clock, the terminal) lives in one
    [World] value that is threaded through a state-and-exception monad. *)

From Stdlib Require Import Ascii.
From stdpp Require Import gmap strings list fin_maps.

(** ** Exceptions and results

    The Python exceptions the modelled code can raise.  [OutOfFuel] is not
    one of them: it is what a session loop of the model answers when its
    fuel is spent, and the sessions are shown never to answer it. *)

Inductive exn : Type :=
  | ValueError
  | TypeError
  | KeyError
  | IndexError
  | EOFError
  | StopIteration
  | UnboundLocalError
  | OutOfFuel.

Inductive result (A : Type) : Type :=
  | Ok (a : A)
  | Raise (e : exn).
Arguments Ok {A} a.
Arguments Raise {A} e.

(** ** Data model *)

(** A row of a content file as [csv.DictReader] yields it. *)
Abbreviation row := (gmap string string).

(** A row of [data/mistakes.csv] once [load_mistakes] has converted the
    count to an integer. *)
Record Mistake : Type := mkMistake {
  word : string;
  kana : string;
  correct_answer : string;
  user_answer : string;
  mistake_count : Z;
  last_mistake_date : string
}.

(** The four-field dictionary a quiz collects for each wrong answer
    ([class MistakeReview]). *)
Record MistakeReview : Type := mkMistakeReview {
  mr_word : string;
  mr_kana : string;
  mr_correct_answer : string;
  mr_user_answer : string
}.

(** [run_mistake_review] reads the same four keys from either kind of
    dictionary. *)
Class MistakeShape (T : Type) : Type := {
  get_word : T -> string;
  get_kana : T -> string;
  get_correct_answer : T -> string;
  get_user_answer : T -> string
}.

#[export] Instance Mistake_shape : MistakeShape Mistake :=
  {| get_word := word; get_kana := kana;
     get_correct_answer := correct_answer; get_user_answer := user_answer |}.

#[export] Instance MistakeReview_shape : MistakeShape MistakeReview :=
  {| get_word := mr_word; get_kana := mr_kana;
     get_correct_answer := mr_correct_answer;
     get_user_answer := mr_user_answer |}.

Definition mistake_key {T} `{MistakeShape T} (m : T) : string * string :=
  (get_word m, get_kana m).

(** What the program prints, as far as the properties below look at it. *)
Inductive Output : Type :=
  | OutNotFound (file : string)
  | OutInvalidChoice
  | OutTips
  | OutQuizQuestion (q_no : nat) (prompt : string) (options : list string)
  | OutReviewQuestion (q_no : nat) (prompt : string) (options : list string)
  | OutContinuing
  | OutTerminated
  | OutQuizSummary (score total : nat)
  | OutReviewSummary (cleared total : nat)
  | OutNoMistakes
  | OutPracticeQuit
  | OutPracticeSummary (cleared total remaining : nat)
  | OutReviewQuit
  | OutAllCleared
  | OutProgressSaved.

(** One call of [generate_question]: the correct item, the pool it was given
    and the quiz type. *)
Record GenCall : Type := mkGenCall {
  call_correct : row;
  call_pool : list row;
  call_type : string
}.

(** ** The world

    [jlpt_files] is keyed by path; a missing key is a missing file, and
    [None] in the other file fields likewise.  [rng] is the tape of raw
    draws the generator will produce and [clock] the successive readings of
    [datetime.now().strftime(...)]; an exhausted tape reads as zeros (resp.
    empty strings), so a finite tape stands for every infinite one that
    extends it.  [calls] is a ghost field: it records the arguments of each
    call of [generate_question] and is read by no operation. *)
Record World : Type := mkWorld {
  jlpt_files : gmap string (list row);
  character_file : option (list row);
  mistake_file : option (list Mistake);
  progress_file : option (list (list string));
  rng : list nat;
  clock : list string;
  stdin : list string;
  stdout : list Output;
  calls : list GenCall
}.

Definition set_mistake_file (f : option (list Mistake)) (w : World) : World :=
  mkWorld (jlpt_files w) (character_file w) f (progress_file w)
          (rng w) (clock w) (stdin w) (stdout w) (calls w).
Definition set_progress_file (f : option (list (list string))) (w : World) : World :=
  mkWorld (jlpt_files w) (character_file w) (mistake_file w) f
          (rng w) (clock w) (stdin w) (stdout w) (calls w).
Definition set_rng (r : list nat) (w : World) : World :=
  mkWorld (jlpt_files w) (character_file w) (mistake_file w) (progress_file w)
          r (clock w) (stdin w) (stdout w) (calls w).
Definition set_clock (c : list string) (w : World) : World :=
  mkWorld (jlpt_files w) (character_file w) (mistake_file w) (progress_file w)
          (rng w) c (stdin w) (stdout w) (calls w).
Definition set_stdin (i : list string) (w : World) : World :=
  mkWorld (jlpt_files w) (character_file w) (mistake_file w) (progress_file w)
          (rng w) (clock w) i (stdout w) (calls w).
Definition set_stdout (o : list Output) (w : World) : World :=
  mkWorld (jlpt_files w) (character_file w) (mistake_file w) (progress_file w)
          (rng w) (clock w) (stdin w) o (calls w).
Definition set_calls (c : list GenCall) (w : World) : World :=
  mkWorld (jlpt_files w) (character_file w) (mistake_file w) (progress_file w)
          (rng w) (clock w) (stdin w) (stdout w) c.

(** ** The monad *)

Definition M (A : Type) : Type := World -> result A * World.

Definition ret {A} (a : A) : M A := fun w => (Ok a, w).
Definition raise {A} (e : exn) : M A := fun w => (Raise e, w).
Definition bind {A B} (m : M A) (k : A -> M B) : M B :=
  fun w => match m w with
           | (Ok a, w') => k a w'
           | (Raise e, w') => (Raise e, w')
           end.

Declare Scope py_scope.
Delimit Scope py_scope with py.
Notation "x <- m ;; k" := (bind m (fun x => k))
  (at level 100, m at next level, right associativity) : py_scope.
Notation "m ;;; k" := (bind m (fun _ => k))
  (at level 100, right associativity) : py_scope.
Local Open Scope py_scope.

Definition gets {A} (f : World -> A) : M A := fun w => (Ok (f w), w).
Definition modify (f : World -> World) : M unit := fun w => (Ok tt, f w).

(** [try: body except Exception as e: handler]. *)
Definition try_except {A} (body : M A) (handler : exn -> M A) : M A :=
  fun w => match body w with
           | (Ok a, w') => (Ok a, w')
           | (Raise e, w') => handler e w'
           end.

(** A pure computation that may raise. *)
Definition lift {A} (r : result A) : M A := fun w => (r, w).

(** ** Library primitives *)

(** [print(...)]. *)
Definition print (o : Output) : M unit :=
  modify (fun w => set_stdout (stdout w ++ [o]) w).

(** [input(prompt)]: the next line of standard input, [EOFError] at its
    end. *)
Definition input : M string :=
  fun w => match stdin w with
           | [] => (Raise EOFError, w)
           | l :: rest => (Ok l, set_stdin rest w)
           end.

(** [datetime.now().strftime('%y-%m-%d %H:%M:%S')]. *)
Definition strftime_now : M string :=
  fun w => match clock w with
           | [] => (Ok "", w)
           | t :: rest => (Ok t, set_clock rest w)
           end.

(** [random]'s [_randbelow(n)], for [n > 0]: the next raw draw of the tape,
    reduced below [n], so that every outcome below [n] has a tape. *)
Definition randbelow (n : nat) : M nat :=
  fun w => match rng w with
           | [] => (Ok 0, w)
           | d :: rest => (Ok (d mod n), set_rng rest w)
           end.

(** [x[i], x[j] = x[j], x[i]]. *)
Definition swap {A} (x : list A) (i j : nat) : list A :=
  match x !! i, x !! j with
  | Some a, Some b => <[j:=a]> (<[i:=b]> x)
  | _, _ => x
  end.

(** [random.shuffle(x)]:
    [for i in reversed(range(1, len(x))): j = randbelow(i + 1); swap]. *)
Fixpoint shuffle_from {A} (i : nat) (x : list A) : M (list A) :=
  match i with
  | 0 => ret x
  | S i' => j <- randbelow (S i) ;; shuffle_from i' (swap x i j)
  end.

Definition shuffle {A} (x : list A) : M (list A) :=
  shuffle_from (length x - 1) x.

(** [random.sample(population, k)] by selection from a shrinking pool:
    [j = randbelow(n - i); result[i] = pool[j]; pool[j] = pool[n - i - 1]].
    CPython switches to rejection sampling for populations of more than 85
    items when [k = 10]; both pick [k] distinct positions. *)
Fixpoint sample_pool {A} (k n : nat) (pool : list A) : M (list A) :=
  match k with
  | 0 => ret []
  | S k' =>
      j <- randbelow n ;;
      match pool !! j, pool !! (n - 1) with
      | Some a, Some b =>
          rest <- sample_pool k' (n - 1) (<[j:=b]> pool) ;;
          ret (a :: rest)
      | _, _ => raise IndexError
      end
  end.

(** A sample larger than the population raises [ValueError]. *)
Definition random_sample {A} (population : list A) (k : nat) : M (list A) :=
  if decide (k <= length population)
  then sample_pool k (length population) population
  else raise ValueError.

(** [wrong_options[-3:]]. *)
Definition last3 {A} (l : list A) : list A := drop (length l - 3) l.

(** [content[key]]. *)
Definition getitem (content : row) (key : string) : M string :=
  match content !! key with
  | Some v => ret v
  | None => raise KeyError
  end.

(** [options.index(x)]. *)
Fixpoint list_index (x : string) (l : list string) : option nat :=
  match l with
  | [] => None
  | y :: l' => if decide (y = x) then Some 0 else S <$> list_index x l'
  end.

(** ** quiz_manager.generate_question *)

(** The loop that collects the distractors:
    [for content in all_content: if content[option_type] != correct_answer:
       wrong_options.append(content[option_type])]. *)
Fixpoint collect_wrong (all_content : list row) (option_type correct_answer : string)
    (wrong_options : list string) : M (list string) :=
  match all_content with
  | [] => ret wrong_options
  | content :: rest =>
      v <- getitem content option_type ;;
      if decide (v ≠ correct_answer)
      then collect_wrong rest option_type correct_answer (wrong_options ++ [v])
      else collect_wrong rest option_type correct_answer wrong_options
  end.

(** The lines shared by [generate_question] and [run_mistake_review]: build
    the option list around [correct_answer]. *)
Definition build_options (all_content : list row) (option_type correct_answer : string)
    : M (list string) :=
  let options := [correct_answer] in
  wrong_options <- collect_wrong all_content option_type correct_answer [] ;;
  wrong_options <- shuffle wrong_options ;;
  let options := options ++ last3 wrong_options in
  shuffle options.

Definition generate_question (correct_content : row) (all_content : list row)
    (quiz_type : string) : M (string * list string) :=
  modify (fun w => set_calls
            (calls w ++ [mkGenCall correct_content all_content quiz_type]) w) ;;;
  q <-
    (if decide (quiz_type = "jlpt") then
       kana <- getitem correct_content "Kana" ;;
       kanji <- getitem correct_content "Kanji" ;;
       correct_answer <- getitem correct_content "Meaning" ;;
       ret (kana +:+ " (" +:+ kanji +:+ ")", correct_answer, "Meaning")
     else if decide (quiz_type = "character") then
       question_prompt <- getitem correct_content "Character" ;;
       correct_answer <- getitem correct_content "Correct Answer" ;;
       ret (question_prompt, correct_answer, "Correct Answer")
     else ret ("", "", "")) ;;
  let '(question_prompt, correct_answer, option_type) := q in
  options <- build_options all_content option_type correct_answer ;;
  ret (question_prompt, options).

(** [get_correct_answer_index]: [list.index] raises [ValueError] when the
    answer is absent. *)
Definition get_correct_answer_index (options : list string) (correct_answer : string)
    : M nat :=
  match list_index correct_answer options with
  | Some i => ret i
  | None => raise ValueError
  end.


(** ** Strings

    A Python [str] is a sequence of code points.  The model keeps a string
    as the bytes of its UTF-8 encoding (the encoding of the program's files
    and literals) and goes through the code points where the code does:
    [str.strip], [str.upper] and [ord].  A byte that is not part of a
    well-formed sequence stands for itself, as the code point U+DC00 + byte
    (the convention of the [surrogateescape] error handler). *)

Definition byte (c : ascii) : N := N_of_ascii c.

Definition continuation (c : ascii) : bool :=
  (0x80 <=? byte c)%N && (byte c <=? 0xbf)%N.

Definition tail6 (c : ascii) : N := (byte c - 0x80)%N.

Fixpoint utf8_decode (s : string) : list N :=
  match s with
  | EmptyString => []
  | String b0 s1 =>
      let n0 := byte b0 in
      let stray := (0xdc00 + n0)%N :: utf8_decode s1 in
      if (n0 <? 0x80)%N then n0 :: utf8_decode s1
      else if (0xc2 <=? n0)%N && (n0 <=? 0xdf)%N then
        match s1 with
        | String b1 s2 =>
            if continuation b1
            then ((n0 - 0xc0) * 0x40 + tail6 b1)%N :: utf8_decode s2
            else stray
        | _ => stray
        end
      else if (0xe0 <=? n0)%N && (n0 <=? 0xef)%N then
        match s1 with
        | String b1 (String b2 s3) =>
            if continuation b1 && continuation b2
               && (negb (n0 =? 0xe0)%N || (0xa0 <=? byte b1)%N)
               && (negb (n0 =? 0xed)%N || (byte b1 <=? 0x9f)%N)
            then ((n0 - 0xe0) * 0x1000 + tail6 b1 * 0x40 + tail6 b2)%N
                 :: utf8_decode s3
            else stray
        | _ => stray
        end
      else if (0xf0 <=? n0)%N && (n0 <=? 0xf4)%N then
        match s1 with
        | String b1 (String b2 (String b3 s4)) =>
            if continuation b1 && continuation b2 && continuation b3
               && (negb (n0 =? 0xf0)%N || (0x90 <=? byte b1)%N)
               && (negb (n0 =? 0xf4)%N || (byte b1 <=? 0x8f)%N)
            then ((n0 - 0xf0) * 0x40000 + tail6 b1 * 0x1000
                  + tail6 b2 * 0x40 + tail6 b3)%N :: utf8_decode s4
            else stray
        | _ => stray
        end
      else stray
  end.

Definition utf8_encode_cp (cp : N) : string :=
  let b (n : N) := ascii_of_N n in
  if (cp <? 0x80)%N then String (b cp) EmptyString
  else if (cp <? 0x800)%N then
    String (b (0xc0 + cp / 0x40)%N)
      (String (b (0x80 + cp mod 0x40)%N) EmptyString)
  else if (0xdc80 <=? cp)%N && (cp <=? 0xdcff)%N then
    String (b (cp - 0xdc00)%N) EmptyString
  else if (cp <? 0x10000)%N then
    String (b (0xe0 + cp / 0x1000)%N)
      (String (b (0x80 + (cp / 0x40) mod 0x40)%N)
         (String (b (0x80 + cp mod 0x40)%N) EmptyString))
  else
    String (b (0xf0 + cp / 0x40000)%N)
      (String (b (0x80 + (cp / 0x1000) mod 0x40)%N)
         (String (b (0x80 + (cp / 0x40) mod 0x40)%N)
            (String (b (0x80 + cp mod 0x40)%N) EmptyString))).

Fixpoint utf8_encode (cps : list N) : string :=
  match cps with
  | [] => EmptyString
  | cp :: rest => utf8_encode_cp cp +:+ utf8_encode rest
  end.

(** The code points [str.strip] removes: those for which [str.isspace]
    holds. *)
Definition WHITESPACE : list N :=
  [0x9; 0xa; 0xb; 0xc; 0xd; 0x1c; 0x1d; 0x1e; 0x1f; 0x20; 0x85; 0xa0; 0x1680;
   0x2000; 0x2001; 0x2002; 0x2003; 0x2004; 0x2005; 0x2006; 0x2007; 0x2008;
   0x2009; 0x200a; 0x2028; 0x2029; 0x202f; 0x205f; 0x3000]%N.

Definition isspace (cp : N) : bool := bool_decide (cp ∈ WHITESPACE).

Fixpoint lstrip (cps : list N) : list N :=
  match cps with
  | [] => []
  | cp :: rest => if isspace cp then lstrip rest else cps
  end.

Definition strip (s : string) : string :=
  utf8_encode (reverse (lstrip (reverse (lstrip (utf8_decode s))))).

(** The full upper-case mapping of the Unicode Character Database (version
    14.0), as [str.upper] applies it code point by code point.  A run
    [(lo, hi, stride, to)] sends [lo], [lo + stride], ..., [hi] to [to],
    [to + stride], ...; [UPPER_SPECIAL] lists the code points whose upper
    case is two or three code points long.  Every other code point is its
    own upper case. *)
Definition run (lo hi stride to : N) : N * N * N * N := (lo, hi, stride, to).
Definition special2 (cp u v : N) : N * list N := (cp, [u; v]).
Definition special3 (cp u v x : N) : N * list N := (cp, [u; v; x]).

Definition UPPER_RUNS : list (N * N * N * N) :=
  [run 0xb5 0xb5 1 0x39c; run 0xe0 0xf6 1 0xc0; run 0xf8 0xfe 1 0xd8;
   run 0xff 0xff 1 0x178; run 0x101 0x12f 2 0x100; run 0x131 0x131 1 0x49;
   run 0x133 0x137 2 0x132; run 0x13a 0x148 2 0x139; run 0x14b 0x177 2 0x14a;
   run 0x17a 0x17e 2 0x179; run 0x17f 0x17f 1 0x53; run 0x180 0x180 1 0x243;
   run 0x183 0x185 2 0x182; run 0x188 0x188 1 0x187; run 0x18c 0x18c 1 0x18b;
   run 0x192 0x192 1 0x191; run 0x195 0x195 1 0x1f6; run 0x199 0x199 1 0x198;
   run 0x19a 0x19a 1 0x23d; run 0x19e 0x19e 1 0x220; run 0x1a1 0x1a5 2 0x1a0;
   run 0x1a8 0x1a8 1 0x1a7; run 0x1ad 0x1ad 1 0x1ac; run 0x1b0 0x1b0 1 0x1af;
   run 0x1b4 0x1b6 2 0x1b3; run 0x1b9 0x1b9 1 0x1b8; run 0x1bd 0x1bd 1 0x1bc;
   run 0x1bf 0x1bf 1 0x1f7; run 0x1c5 0x1c5 1 0x1c4; run 0x1c6 0x1c6 1 0x1c4;
   run 0x1c8 0x1c8 1 0x1c7; run 0x1c9 0x1c9 1 0x1c7; run 0x1cb 0x1cb 1 0x1ca;
   run 0x1cc 0x1cc 1 0x1ca; run 0x1ce 0x1dc 2 0x1cd; run 0x1dd 0x1dd 1 0x18e;
   run 0x1df 0x1ef 2 0x1de; run 0x1f2 0x1f2 1 0x1f1; run 0x1f3 0x1f3 1 0x1f1;
   run 0x1f5 0x1f5 1 0x1f4; run 0x1f9 0x21f 2 0x1f8; run 0x223 0x233 2 0x222;
   run 0x23c 0x23c 1 0x23b; run 0x23f 0x240 1 0x2c7e; run 0x242 0x242 1 0x241;
   run 0x247 0x24f 2 0x246; run 0x250 0x250 1 0x2c6f; run 0x251 0x251 1 0x2c6d;
   run 0x252 0x252 1 0x2c70; run 0x253 0x253 1 0x181; run 0x254 0x254 1 0x186;
   run 0x256 0x257 1 0x189; run 0x259 0x259 1 0x18f; run 0x25b 0x25b 1 0x190;
   run 0x25c 0x25c 1 0xa7ab; run 0x260 0x260 1 0x193; run 0x261 0x261 1 0xa7ac;
   run 0x263 0x263 1 0x194; run 0x265 0x265 1 0xa78d; run 0x266 0x266 1 0xa7aa;
   run 0x268 0x268 1 0x197; run 0x269 0x269 1 0x196; run 0x26a 0x26a 1 0xa7ae;
   run 0x26b 0x26b 1 0x2c62; run 0x26c 0x26c 1 0xa7ad; run 0x26f 0x26f 1 0x19c;
   run 0x271 0x271 1 0x2c6e; run 0x272 0x272 1 0x19d; run 0x275 0x275 1 0x19f;
   run 0x27d 0x27d 1 0x2c64; run 0x280 0x280 1 0x1a6; run 0x282 0x282 1 0xa7c5;
   run 0x283 0x283 1 0x1a9; run 0x287 0x287 1 0xa7b1; run 0x288 0x288 1 0x1ae;
   run 0x289 0x289 1 0x244; run 0x28a 0x28b 1 0x1b1; run 0x28c 0x28c 1 0x245;
   run 0x292 0x292 1 0x1b7; run 0x29d 0x29d 1 0xa7b2; run 0x29e 0x29e 1 0xa7b0;
   run 0x345 0x345 1 0x399; run 0x371 0x373 2 0x370; run 0x377 0x377 1 0x376;
   run 0x37b 0x37d 1 0x3fd; run 0x3ac 0x3ac 1 0x386; run 0x3ad 0x3af 1 0x388;
   run 0x3b1 0x3c1 1 0x391; run 0x3c2 0x3c2 1 0x3a3; run 0x3c3 0x3cb 1 0x3a3;
   run 0x3cc 0x3cc 1 0x38c; run 0x3cd 0x3ce 1 0x38e; run 0x3d0 0x3d0 1 0x392;
   run 0x3d1 0x3d1 1 0x398; run 0x3d5 0x3d5 1 0x3a6; run 0x3d6 0x3d6 1 0x3a0;
   run 0x3d7 0x3d7 1 0x3cf; run 0x3d9 0x3ef 2 0x3d8; run 0x3f0 0x3f0 1 0x39a;
   run 0x3f1 0x3f1 1 0x3a1; run 0x3f2 0x3f2 1 0x3f9; run 0x3f3 0x3f3 1 0x37f;
   run 0x3f5 0x3f5 1 0x395; run 0x3f8 0x3f8 1 0x3f7; run 0x3fb 0x3fb 1 0x3fa;
   run 0x430 0x44f 1 0x410; run 0x450 0x45f 1 0x400; run 0x461 0x481 2 0x460;
   run 0x48b 0x4bf 2 0x48a; run 0x4c2 0x4ce 2 0x4c1; run 0x4cf 0x4cf 1 0x4c0;
   run 0x4d1 0x52f 2 0x4d0; run 0x561 0x586 1 0x531; run 0x10d0 0x10fa 1 0x1c90;
   run 0x10fd 0x10ff 1 0x1cbd; run 0x13f8 0x13fd 1 0x13f0; run 0x1c80 0x1c80 1 0x412;
   run 0x1c81 0x1c81 1 0x414; run 0x1c82 0x1c82 1 0x41e; run 0x1c83 0x1c84 1 0x421;
   run 0x1c85 0x1c85 1 0x422; run 0x1c86 0x1c86 1 0x42a; run 0x1c87 0x1c87 1 0x462;
   run 0x1c88 0x1c88 1 0xa64a; run 0x1d79 0x1d79 1 0xa77d; run 0x1d7d 0x1d7d 1 0x2c63;
   run 0x1d8e 0x1d8e 1 0xa7c6; run 0x1e01 0x1e95 2 0x1e00; run 0x1e9b 0x1e9b 1 0x1e60;
   run 0x1ea1 0x1eff 2 0x1ea0; run 0x1f00 0x1f07 1 0x1f08; run 0x1f10 0x1f15 1 0x1f18;
   run 0x1f20 0x1f27 1 0x1f28; run 0x1f30 0x1f37 1 0x1f38; run 0x1f40 0x1f45 1 0x1f48;
   run 0x1f51 0x1f57 2 0x1f59; run 0x1f60 0x1f67 1 0x1f68; run 0x1f70 0x1f71 1 0x1fba;
   run 0x1f72 0x1f75 1 0x1fc8; run 0x1f76 0x1f77 1 0x1fda; run 0x1f78 0x1f79 1 0x1ff8;
   run 0x1f7a 0x1f7b 1 0x1fea; run 0x1f7c 0x1f7d 1 0x1ffa; run 0x1fb0 0x1fb1 1 0x1fb8;
   run 0x1fbe 0x1fbe 1 0x399; run 0x1fd0 0x1fd1 1 0x1fd8; run 0x1fe0 0x1fe1 1 0x1fe8;
   run 0x1fe5 0x1fe5 1 0x1fec; run 0x214e 0x214e 1 0x2132; run 0x2170 0x217f 1 0x2160;
   run 0x2184 0x2184 1 0x2183; run 0x24d0 0x24e9 1 0x24b6; run 0x2c30 0x2c5f 1 0x2c00;
   run 0x2c61 0x2c61 1 0x2c60; run 0x2c65 0x2c65 1 0x23a; run 0x2c66 0x2c66 1 0x23e;
   run 0x2c68 0x2c6c 2 0x2c67; run 0x2c73 0x2c73 1 0x2c72; run 0x2c76 0x2c76 1 0x2c75;
   run 0x2c81 0x2ce3 2 0x2c80; run 0x2cec 0x2cee 2 0x2ceb; run 0x2cf3 0x2cf3 1 0x2cf2;
   run 0x2d00 0x2d25 1 0x10a0; run 0x2d27 0x2d27 1 0x10c7; run 0x2d2d 0x2d2d 1 0x10cd;
   run 0xa641 0xa66d 2 0xa640; run 0xa681 0xa69b 2 0xa680; run 0xa723 0xa72f 2 0xa722;
   run 0xa733 0xa76f 2 0xa732; run 0xa77a 0xa77c 2 0xa779; run 0xa77f 0xa787 2 0xa77e;
   run 0xa78c 0xa78c 1 0xa78b; run 0xa791 0xa793 2 0xa790; run 0xa794 0xa794 1 0xa7c4;
   run 0xa797 0xa7a9 2 0xa796; run 0xa7b5 0xa7c3 2 0xa7b4; run 0xa7c8 0xa7ca 2 0xa7c7;
   run 0xa7d1 0xa7d1 1 0xa7d0; run 0xa7d7 0xa7d9 2 0xa7d6; run 0xa7f6 0xa7f6 1 0xa7f5;
   run 0xab53 0xab53 1 0xa7b3; run 0xab70 0xabbf 1 0x13a0; run 0xff41 0xff5a 1 0xff21;
   run 0x10428 0x1044f 1 0x10400; run 0x104d8 0x104fb 1 0x104b0; run 0x10597 0x105a1 1 0x10570;
   run 0x105a3 0x105b1 1 0x1057c; run 0x105b3 0x105b9 1 0x1058c; run 0x105bb 0x105bc 1 0x10594;
   run 0x10cc0 0x10cf2 1 0x10c80; run 0x118c0 0x118df 1 0x118a0; run 0x16e60 0x16e7f 1 0x16e40;
   run 0x1e922 0x1e943 1 0x1e900].

Definition UPPER_SPECIAL : list (N * list N) :=
  [special2 0xdf 0x53 0x53; special2 0x149 0x2bc 0x4e;
   special2 0x1f0 0x4a 0x30c; special3 0x390 0x399 0x308 0x301;
   special3 0x3b0 0x3a5 0x308 0x301; special2 0x587 0x535 0x552;
   special2 0x1e96 0x48 0x331; special2 0x1e97 0x54 0x308;
   special2 0x1e98 0x57 0x30a; special2 0x1e99 0x59 0x30a;
   special2 0x1e9a 0x41 0x2be; special2 0x1f50 0x3a5 0x313;
   special3 0x1f52 0x3a5 0x313 0x300; special3 0x1f54 0x3a5 0x313 0x301;
   special3 0x1f56 0x3a5 0x313 0x342; special2 0x1f80 0x1f08 0x399;
   special2 0x1f81 0x1f09 0x399; special2 0x1f82 0x1f0a 0x399;
   special2 0x1f83 0x1f0b 0x399; special2 0x1f84 0x1f0c 0x399;
   special2 0x1f85 0x1f0d 0x399; special2 0x1f86 0x1f0e 0x399;
   special2 0x1f87 0x1f0f 0x399; special2 0x1f88 0x1f08 0x399;
   special2 0x1f89 0x1f09 0x399; special2 0x1f8a 0x1f0a 0x399;
   special2 0x1f8b 0x1f0b 0x399; special2 0x1f8c 0x1f0c 0x399;
   special2 0x1f8d 0x1f0d 0x399; special2 0x1f8e 0x1f0e 0x399;
   special2 0x1f8f 0x1f0f 0x399; special2 0x1f90 0x1f28 0x399;
   special2 0x1f91 0x1f29 0x399; special2 0x1f92 0x1f2a 0x399;
   special2 0x1f93 0x1f2b 0x399; special2 0x1f94 0x1f2c 0x399;
   special2 0x1f95 0x1f2d 0x399; special2 0x1f96 0x1f2e 0x399;
   special2 0x1f97 0x1f2f 0x399; special2 0x1f98 0x1f28 0x399;
   special2 0x1f99 0x1f29 0x399; special2 0x1f9a 0x1f2a 0x399;
   special2 0x1f9b 0x1f2b 0x399; special2 0x1f9c 0x1f2c 0x399;
   special2 0x1f9d 0x1f2d 0x399; special2 0x1f9e 0x1f2e 0x399;
   special2 0x1f9f 0x1f2f 0x399; special2 0x1fa0 0x1f68 0x399;
   special2 0x1fa1 0x1f69 0x399; special2 0x1fa2 0x1f6a 0x399;
   special2 0x1fa3 0x1f6b 0x399; special2 0x1fa4 0x1f6c 0x399;
   special2 0x1fa5 0x1f6d 0x399; special2 0x1fa6 0x1f6e 0x399;
   special2 0x1fa7 0x1f6f 0x399; special2 0x1fa8 0x1f68 0x399;
   special2 0x1fa9 0x1f69 0x399; special2 0x1faa 0x1f6a 0x399;
   special2 0x1fab 0x1f6b 0x399; special2 0x1fac 0x1f6c 0x399;
   special2 0x1fad 0x1f6d 0x399; special2 0x1fae 0x1f6e 0x399;
   special2 0x1faf 0x1f6f 0x399; special2 0x1fb2 0x1fba 0x399;
   special2 0x1fb3 0x391 0x399; special2 0x1fb4 0x386 0x399;
   special2 0x1fb6 0x391 0x342; special3 0x1fb7 0x391 0x342 0x399;
   special2 0x1fbc 0x391 0x399; special2 0x1fc2 0x1fca 0x399;
   special2 0x1fc3 0x397 0x399; special2 0x1fc4 0x389 0x399;
   special2 0x1fc6 0x397 0x342; special3 0x1fc7 0x397 0x342 0x399;
   special2 0x1fcc 0x397 0x399; special3 0x1fd2 0x399 0x308 0x300;
   special3 0x1fd3 0x399 0x308 0x301; special2 0x1fd6 0x399 0x342;
   special3 0x1fd7 0x399 0x308 0x342; special3 0x1fe2 0x3a5 0x308 0x300;
   special3 0x1fe3 0x3a5 0x308 0x301; special2 0x1fe4 0x3a1 0x313;
   special2 0x1fe6 0x3a5 0x342; special3 0x1fe7 0x3a5 0x308 0x342;
   special2 0x1ff2 0x1ffa 0x399; special2 0x1ff3 0x3a9 0x399;
   special2 0x1ff4 0x38f 0x399; special2 0x1ff6 0x3a9 0x342;
   special3 0x1ff7 0x3a9 0x342 0x399; special2 0x1ffc 0x3a9 0x399;
   special2 0xfb00 0x46 0x46; special2 0xfb01 0x46 0x49;
   special2 0xfb02 0x46 0x4c; special3 0xfb03 0x46 0x46 0x49;
   special3 0xfb04 0x46 0x46 0x4c; special2 0xfb05 0x53 0x54;
   special2 0xfb06 0x53 0x54; special2 0xfb13 0x544 0x546;
   special2 0xfb14 0x544 0x535; special2 0xfb15 0x544 0x53b;
   special2 0xfb16 0x54e 0x546; special2 0xfb17 0x544 0x53d].

Definition in_run (cp : N) (r : N * N * N * N) : bool :=
  let '(lo, hi, stride, _) := r in
  (lo <=? cp)%N && (cp <=? hi)%N && ((cp - lo) mod stride =? 0)%N.

Definition upper_cp (cp : N) : list N :=
  if (cp <? 0x80)%N then
    if (0x61 <=? cp)%N && (cp <=? 0x7a)%N then [(cp - 0x20)%N] else [cp]
  else
    match find (in_run cp) UPPER_RUNS with
    | Some (lo, _, _, to) => [(to + (cp - lo))%N]
    | None =>
        match find (fun e : N * list N => (e.1 =? cp)%N) UPPER_SPECIAL with
        | Some e => e.2
        | None => [cp]
        end
    end.

Definition upper (s : string) : string :=
  utf8_encode (utf8_decode s ≫= upper_cp).

(** [str.lower]: the program applies it to a key of [JLPT_FILES] only, where
    it is the ASCII mapping. *)
Definition ascii_lower (c : ascii) : ascii :=
  let n := nat_of_ascii c in
  if (65 <=? n) && (n <=? 90) then ascii_of_nat (n + 32) else c.

Fixpoint lower (s : string) : string :=
  match s with
  | EmptyString => EmptyString
  | String c s' => String (ascii_lower c) (lower s')
  end.

(** Truth value of a string: non-empty. *)
Definition truthy (s : string) : bool :=
  match s with EmptyString => false | _ => true end.

(** [ord(c)] of a string of one code point. *)
Definition ord (s : string) : M Z :=
  match utf8_decode s with
  | [cp] => ret (Z.of_N cp)
  | _ => raise TypeError
  end.

(** [l[i]] for an integer index, negative indices counting from the end. *)
Definition list_getitem {A} (l : list A) (i : Z) : M A :=
  let n := Z.of_nat (length l) in
  let j := if decide (i < 0)%Z then (n + i)%Z else i in
  if decide (0 <= j < n)%Z then
    match l !! Z.to_nat j with
    | Some a => ret a
    | None => raise IndexError
    end
  else raise IndexError.

(** ** ui_handler.get_user_choice *)

(** The [while True] loop over the lines still to be read: the choice (or
    [EOFError]), the lines left, and how often ['Invalid choice'] was
    printed. *)
Fixpoint read_choice (valid_options : list string) (lines : list string)
    : result string * list string * nat :=
  match lines with
  | [] => (Raise EOFError, [], 0)
  | line :: rest =>
      let choice := upper (strip line) in
      if decide (choice ∈ valid_options) then (Ok choice, rest, 0)
      else let '(r, rest', n) := read_choice valid_options rest in (r, rest', S n)
  end.

Definition get_user_choice (valid_options : list string) : M string :=
  fun w =>
    let '(r, rest, n) := read_choice (upper <$> valid_options) (stdin w) in
    (r, set_stdout (stdout w ++ replicate n OutInvalidChoice) (set_stdin rest w)).

(** ** data_loader *)

Definition JLPT_FILES : gmap string string :=
  list_to_map [("N5", "data/jlpt_n5.csv"); ("N4", "data/jlpt_n4.csv");
               ("N3", "data/jlpt_n3.csv"); ("N2", "data/jlpt_n2.csv");
               ("N1", "data/jlpt_n1.csv")].

Definition CHARACTER_FILE : string := "data/characters.csv".
Definition MISTAKE_FILE : string := "data/mistakes.csv".

(** A function that falls off its end after the [except] clause returns
    Python's [None]: the result type is an option. *)
Definition load_jlpt_vocab (level : string) : M (option (list row)) :=
  match JLPT_FILES !! level with
  | None => ret (Some [])
  | Some path =>
      files <- gets jlpt_files ;;
      match files !! path with
      | Some vocab_list => ret (Some vocab_list)
      | None =>
          print (OutNotFound ("jlpt_" +:+ lower level +:+ ".csv")) ;;;
          ret None
      end
  end.

Definition load_characters : M (option (list row)) :=
  f <- gets character_file ;;
  match f with
  | Some character_list => ret (Some character_list)
  | None => print (OutNotFound CHARACTER_FILE) ;;; ret None
  end.

(** ** mistake_tracker *)

Definition load_mistakes : M (option (list Mistake)) :=
  f <- gets mistake_file ;;
  match f with
  | Some user_mistakes => ret (Some user_mistakes)
  | None => print (OutNotFound MISTAKE_FILE) ;;; ret None
  end.

(** [len(None)] is a [TypeError]. *)
Definition get_mistake_count : M nat :=
  l <- load_mistakes ;;
  match l with
  | Some l => ret (length l)
  | None => raise TypeError
  end.

(** The [for ... break] loop of [add_mistake]: the first row with the key is
    rewritten; [None] when no row has it. *)
Fixpoint update_existing (user_mistakes : list Mistake)
    (w k ca ua now : string) : option (list Mistake) :=
  match user_mistakes with
  | [] => None
  | mistake :: rest =>
      if decide (word mistake = w /\ kana mistake = k)
      then Some (mkMistake (word mistake) (kana mistake) ca ua
                           (mistake_count mistake + 1) now :: rest)
      else (mistake ::.) <$> update_existing rest w k ca ua now
  end.

(** The table [add_mistake] writes back: the first row with the key
    rewritten, or a new row appended. *)
Definition upsert (user_mistakes : list Mistake) (w k ca ua now : string)
    : list Mistake :=
  match update_existing user_mistakes w k ca ua now with
  | Some updated => updated
  | None => user_mistakes ++ [mkMistake w k ca ua 1 now]
  end.

(** Iterating over [None] is a [TypeError]. *)
Definition add_mistake (w k ca ua : string) : M unit :=
  l <- load_mistakes ;;
  match l with
  | None => raise TypeError
  | Some user_mistakes =>
      now <- strftime_now ;;
      modify (set_mistake_file (Some (upsert user_mistakes w k ca ua now)))
  end.

Definition remove_mistake (w : string) : M bool :=
  l <- load_mistakes ;;
  match l with
  | None => raise TypeError
  | Some user_mistakes =>
      let old_mistake_count := length user_mistakes in
      let filtered_mistakes := filter (fun mistake => word mistake ≠ w) user_mistakes in
      modify (set_mistake_file (Some filtered_mistakes)) ;;;
      ret (bool_decide (length user_mistakes < old_mistake_count))
  end.

Definition reset_mistakes : M bool :=
  try_except
    (modify (set_mistake_file (Some [])) ;;;
     _ <- get_mistake_count ;;
     ret true)
    (fun _ => ret false).

(** ** progress_manager *)

Definition LEVELS : list string := ["N5"; "N4"; "N3"; "N2"; "N1"].

Definition PROGRESS_HEADER : list string := ["level"; "mastered_vocab"].

Definition create_progress_file : M unit :=
  modify (set_progress_file (Some (PROGRESS_HEADER :: ((fun level => [level]) <$> LEVELS)))).

Definition default_mastery : gmap string (gset string) :=
  list_to_map ((fun level => (level, ∅)) <$> LEVELS).

(** [for vocab in vocabs: if vocab.strip(): mastery[level].add(vocab)]. *)
Fixpoint add_vocabs (level : string) (vocabs : list string)
    (mastery : gmap string (gset string)) : result (gmap string (gset string)) :=
  match vocabs with
  | [] => Ok mastery
  | vocab :: rest =>
      if truthy (strip vocab) then
        match mastery !! level with
        | Some s => add_vocabs level rest (<[level := s ∪ {[vocab]}]> mastery)
        | None => Raise KeyError
        end
      else add_vocabs level rest mastery
  end.

(** [for line in reader: if len(line) >= 2: ...]. *)
Fixpoint read_progress_lines (lines : list (list string))
    (mastery : gmap string (gset string)) : result (gmap string (gset string)) :=
  match lines with
  | [] => Ok mastery
  | line :: rest =>
      match line with
      | level :: ((_ :: _) as vocabs) =>
          match add_vocabs level vocabs mastery with
          | Ok mastery' => read_progress_lines rest mastery'
          | Raise e => Raise e
          end
      | _ => read_progress_lines rest mastery
      end
  end.

(** [next(reader)] on a file without a header row raises
    [StopIteration]. *)
Definition load_mastered_vocabs : M (gmap string (gset string)) :=
  f <- gets progress_file ;;
  match f with
  | Some [] => raise StopIteration
  | Some (_ :: lines) => lift (read_progress_lines lines default_mastery)
  | None => create_progress_file ;;; ret default_mastery
  end.

(** [mastery.items()]: the dictionary is built with the five levels in
    order and no key is ever added, so iteration visits them in that
    order.  [list(vocab_set)] is [elements]: some enumeration of the set. *)
Definition mastery_items (mastery : gmap string (gset string))
    : list (string * gset string) :=
  omap (fun level => (fun s => (level, s)) <$> mastery !! level) LEVELS.

Definition progress_rows (mastery : gmap string (gset string)) : list (list string) :=
  PROGRESS_HEADER ::
  ((fun item : string * gset string => item.1 :: elements item.2) <$> mastery_items mastery).

Definition add_mastered_vocab (level kanji : string) : M bool :=
  mastery <- load_mastered_vocabs ;;
  match mastery !! level with
  | None => raise KeyError
  | Some s =>
      if decide (kanji ∈ s) then ret false
      else
        let mastery := <[level := s ∪ {[kanji]}]> mastery in
        modify (set_progress_file (Some (progress_rows mastery))) ;;;
        ret true
  end.

(** ** quiz_manager: sessions *)

Definition ANSWER_CHOICES : list string := ["A"; "B"; "C"; "D"; "Q"].
Definition YES_NO : list string := ["Y"; "N"].

(** [ord(user_choice) - ord('A')]. *)
Definition choice_index_of (user_choice : string) : M Z :=
  c <- ord user_choice ;;
  a <- ord "A" ;;
  ret (c - a)%Z.

(** The body of [while q_no < len(mistakes_list)] in [run_mistake_review].
    One unit of fuel is spent per iteration; [run_mistake_review] supplies
    more than the number of input lines, and every iteration that does not
    return reads at least one line.  The result is
    [(cleared_mistakes, remaining_mistakes, user_quit_early)]. *)
Fixpoint review_loop {T} `{MistakeShape T} (fuel : nat) (all_content : list row)
    (quiz_type : string) (mistakes_list : list T) (q_no cleared_mistakes : nat)
    (remaining_mistakes : list T) : M (nat * list T * bool) :=
  match fuel with
  | 0 => raise OutOfFuel
  | S fuel' =>
      if decide (q_no < length mistakes_list) then
        match mistakes_list !! q_no with
        | None => raise IndexError
        | Some mistake =>
            q <- (if decide (quiz_type = "jlpt") then
                    ret (get_word mistake, get_correct_answer mistake, "Meaning")
                  else if decide (quiz_type = "character") then
                    (* mistake['Correct Answer']: no such key *)
                    raise KeyError
                  else raise UnboundLocalError) ;;
            let '(question_prompt, correct_answer, option_type) := q in
            options <- build_options all_content option_type correct_answer ;;
            print (OutReviewQuestion q_no question_prompt options) ;;;
            user_choice <- get_user_choice ANSWER_CHOICES ;;
            let check_answer :=
              choice_index <- choice_index_of user_choice ;;
              correct_index <- get_correct_answer_index options correct_answer ;;
              if decide (choice_index = Z.of_nat correct_index) then
                review_loop fuel' all_content quiz_type mistakes_list
                            (q_no + 1) (cleared_mistakes + 1) remaining_mistakes
              else
                review_loop fuel' all_content quiz_type mistakes_list
                            (q_no + 1) cleared_mistakes (remaining_mistakes ++ [mistake]) in
            if decide (user_choice = "Q") then
              user_confirmation <- get_user_choice YES_NO ;;
              if decide (user_confirmation = "Y") then
                ret (cleared_mistakes, remaining_mistakes ++ drop q_no mistakes_list, true)
              else if decide (user_confirmation = "N") then
                print OutContinuing ;;;
                review_loop fuel' all_content quiz_type mistakes_list
                            q_no cleared_mistakes remaining_mistakes
              else check_answer
            else check_answer
        end
      else
        print (OutReviewSummary cleared_mistakes (length mistakes_list)) ;;;
        ret (cleared_mistakes, remaining_mistakes, false)
  end.

(** [random.shuffle(mistakes_list)] reorders the caller's list in place; the
    fourth component of the result is that list as the caller sees it
    afterwards. *)
Definition run_mistake_review {T} `{MistakeShape T} (all_content : list row)
    (quiz_type : string) (mistakes_list : list T) : M (nat * list T * bool * list T) :=
  mistakes_list <- shuffle mistakes_list ;;
  lines <- gets stdin ;;
  r <- review_loop (S (length lines)) all_content quiz_type mistakes_list 0 0 [] ;;
  ret (r, mistakes_list).

(** [for mistake in ...: MISTAKE.add_mistake(mistake['word'], ...)]. *)
Fixpoint persist_mistakes {T} `{MistakeShape T} (mistakes : list T) : M unit :=
  match mistakes with
  | [] => ret tt
  | mistake :: rest =>
      add_mistake (get_word mistake) (get_kana mistake)
                  (get_correct_answer mistake) (get_user_answer mistake) ;;;
      persist_mistakes rest
  end.

(** [for level in [...]: all_jlpt_vocab.extend(DATA.load_jlpt_vocab(level))];
    extending by [None] is a [TypeError]. *)
Fixpoint load_all_jlpt_vocab (levels : list string) (all_jlpt_vocab : list row)
    : M (list row) :=
  match levels with
  | [] => ret all_jlpt_vocab
  | level :: rest =>
      v <- load_jlpt_vocab level ;;
      match v with
      | Some vocab => load_all_jlpt_vocab rest (all_jlpt_vocab ++ vocab)
      | None => raise TypeError
      end
  end.

Definition run_mistake_practice : M unit :=
  l <- load_mistakes ;;
  match l with
  | None | Some [] =>
      print OutNoMistakes ;;;
      _ <- input ;;
      ret tt
  | Some all_mistakes =>
      all_jlpt_vocab <- load_all_jlpt_vocab LEVELS [] ;;
      r <- run_mistake_review all_jlpt_vocab "jlpt" all_mistakes ;;
      let '(corrected_mistake_num, remaining_mistakes, user_quit_early, all_mistakes) := r in
      (if user_quit_early then print OutPracticeQuit
       else
         _ <- reset_mistakes ;;
         persist_mistakes remaining_mistakes ;;;
         print (OutPracticeSummary corrected_mistake_num (length all_mistakes)
                                   (length remaining_mistakes))) ;;;
      _ <- input ;;
      ret tt
  end.

(** The body of [while q_no < len(quiz_content)] in [run_jlpt_quiz];
    [None] is the [return] of a confirmed quit, [Some (score, mistakes)] the
    normal end of the loop. *)
Fixpoint jlpt_quiz_loop (fuel : nat) (level : string) (quiz_content : list row)
    (q_no score : nat) (mistakes : list MistakeReview)
    : M (option (nat * list MistakeReview)) :=
  match fuel with
  | 0 => raise OutOfFuel
  | S fuel' =>
      if decide (q_no < length quiz_content) then
        match quiz_content !! q_no with
        | None => raise IndexError
        | Some content =>
            q <- generate_question content quiz_content "jlpt" ;;
            let '(question_prompt, options) := q in
            print (OutQuizQuestion q_no question_prompt options) ;;;
            user_choice <- get_user_choice ANSWER_CHOICES ;;
            let check_answer :=
              choice_index <- choice_index_of user_choice ;;
              meaning <- getitem content "Meaning" ;;
              correct_index <- get_correct_answer_index options meaning ;;
              if decide (choice_index = Z.of_nat correct_index) then
                kanji <- getitem content "Kanji" ;;
                _ <- add_mastered_vocab level kanji ;;
                jlpt_quiz_loop fuel' level quiz_content (q_no + 1) (score + 1) mistakes
              else
                kanji <- getitem content "Kanji" ;;
                kana <- getitem content "Kana" ;;
                meaning <- getitem content "Meaning" ;;
                chosen <- list_getitem options choice_index ;;
                jlpt_quiz_loop fuel' level quiz_content (q_no + 1) score
                  (mistakes ++ [mkMistakeReview kanji kana meaning chosen]) in
            if decide (user_choice = "Q") then
              user_confirmation <- get_user_choice YES_NO ;;
              if decide (user_confirmation = "Y") then
                print OutTerminated ;;; ret None
              else if decide (user_confirmation = "N") then
                print OutContinuing ;;;
                jlpt_quiz_loop fuel' level quiz_content q_no score mistakes
              else check_answer
            else check_answer
        end
      else ret (Some (score, mistakes))
  end.

(** The part of [run_jlpt_quiz] after the loop: the summary, the offer to
    review, and what is written to the mistake table. *)
Definition jlpt_quiz_summary (all_vocabs quiz_content : list row) (score : nat)
    (mistakes : list MistakeReview) : M unit :=
  print (OutQuizSummary score (length quiz_content)) ;;;
  (match mistakes with
   | [] => ret tt
   | _ :: _ =>
       review_choice <- get_user_choice YES_NO ;;
       if decide (review_choice = "Y") then
         r <- run_mistake_review all_vocabs "jlpt" mistakes ;;
         let '(corrected_mistake_no, updated_mistakes, user_quit_early, mistakes) := r in
         if user_quit_early then
           print OutReviewQuit ;;;
           persist_mistakes mistakes
         else
           match updated_mistakes with
           | _ :: _ => persist_mistakes updated_mistakes
           | [] => print OutAllCleared
           end
       else if decide (review_choice = "N") then
         print OutProgressSaved ;;;
         persist_mistakes mistakes
       else ret tt
   end) ;;;
  _ <- input ;;
  ret tt.

(** [random.sample(None, 10)] is a [TypeError]. *)
Definition run_jlpt_quiz (level : string) : M unit :=
  v <- load_jlpt_vocab level ;;
  match v with
  | None => raise TypeError
  | Some all_vocabs =>
      quiz_content <- random_sample all_vocabs 10 ;;
      print OutTips ;;;
      lines <- gets stdin ;;
      r <- jlpt_quiz_loop (S (length lines)) level quiz_content 0 0 [] ;;
      match r with
      | None => ret tt
      | Some (score, mistakes) => jlpt_quiz_summary all_vocabs quiz_content score mistakes
      end
  end.

(** The body of [while q_no < len(quiz_content)] in [run_character_quiz];
    [None] is the [return] of a confirmed quit. *)
Fixpoint character_quiz_loop (fuel : nat) (quiz_content : list row)
    (q_no score : nat) : M (option nat) :=
  match fuel with
  | 0 => raise OutOfFuel
  | S fuel' =>
      if decide (q_no < length quiz_content) then
        match quiz_content !! q_no with
        | None => raise IndexError
        | Some content =>
            q <- generate_question content quiz_content "character" ;;
            let '(question_prompt, options) := q in
            print (OutQuizQuestion q_no question_prompt options) ;;;
            user_choice <- get_user_choice ANSWER_CHOICES ;;
            let check_answer :=
              choice_index <- choice_index_of user_choice ;;
              answer <- getitem content "Correct Answer" ;;
              correct_index <- get_correct_answer_index options answer ;;
              if decide (choice_index = Z.of_nat correct_index) then
                character_quiz_loop fuel' quiz_content (q_no + 1) (score + 1)
              else
                character_quiz_loop fuel' quiz_content (q_no + 1) score in
            if decide (user_choice = "Q") then
              user_confirmation <- get_user_choice YES_NO ;;
              if decide (user_confirmation = "Y") then
                print OutTerminated ;;; ret None
              else if decide (user_confirmation = "N") then
                print OutContinuing ;;;
                character_quiz_loop fuel' quiz_content q_no score
              else check_answer
            else check_answer
        end
      else ret (Some score)
  end.

Definition run_character_quiz : M unit :=
  v <- load_characters ;;
  match v with
  | None => raise TypeError
  | Some all_characters =>
      quiz_content <- random_sample all_characters 10 ;;
      print OutTips ;;;
      lines <- gets stdin ;;
      r <- character_quiz_loop (S (length lines)) quiz_content 0 0 ;;
      match r with
      | None => ret tt
      | Some score =>
          print (OutQuizSummary score (length quiz_content)) ;;;
          _ <- input ;;
          ret tt
      end
  end.

(** * Vocabulary of the statements *)

(** The answer values of a pool, when every entry has the column. *)
Definition answers (all_content : list row) (option_type : string)
    : option (list string) :=
  mapM (fun content : row => content !! option_type) all_content.

(** The column that holds the answer for a quiz type, and the answer of an
    item. *)
Definition answer_field (quiz_type : string) : string :=
  if decide (quiz_type = "jlpt") then "Meaning"
  else if decide (quiz_type = "character") then "Correct Answer"
  else "".

Definition correct_answer_of (quiz_type : string) (item : row) : option string :=
  if decide (quiz_type = "jlpt") then item !! "Meaning"
  else if decide (quiz_type = "character") then item !! "Correct Answer"
  else Some "".

(** The columns [generate_question] reads from the correct item. *)
Definition item_fields (quiz_type : string) : list string :=
  if decide (quiz_type = "jlpt") then ["Kana"; "Kanji"; "Meaning"]
  else if decide (quiz_type = "character") then ["Character"; "Correct Answer"]
  else [].

Definition well_formed_question (quiz_type : string) (item : row) (pool : list row) : Prop :=
  Forall (fun k => is_Some (item !! k)) (item_fields quiz_type) /\
  Forall (fun r : row => is_Some (r !! answer_field quiz_type)) pool.

(** The pool entries whose answer value differs from [ans]. *)
Definition differing (pool : list row) (option_type ans : string) : list row :=
  filter (fun r : row => r !! option_type ≠ Some ans) pool.

(** The number of items recorded as mastered for a level, as a load of the
    progress file reports it. *)
Definition mastered_size (level : string) (w : World) : option nat :=
  match (load_mastered_vocabs w).1 with
  | Ok mastery => size <$> mastery !! level
  | Raise _ => None
  end.

(** The members of a list that [if vocab.strip()] lets through. *)
Definition nonblank (vocabs : list string) : gset string :=
  list_to_set (filter (fun vocab => truthy (strip vocab) = true) vocabs).

(** What every mastery dictionary in the program satisfies: its keys are the
    five levels and no member of its sets is blank. *)
Definition mastery_ok (mastery : gmap string (gset string)) : Prop :=
  (forall level, is_Some (mastery !! level) <-> level ∈ LEVELS) /\
  (forall level s vocab,
      mastery !! level = Some s -> vocab ∈ s -> truthy (strip vocab) = true).

(** The number of the last review question that was printed. *)
Fixpoint last_asked (out : list Output) : option nat :=
  match out with
  | [] => None
  | o :: rest =>
      match last_asked rest with
      | Some i => Some i
      | None => match o with OutReviewQuestion i _ _ => Some i | _ => None end
      end
  end.

(** A computation keeps a relation between the world before and after,
    whatever it returns or raises. *)
Definition preserves {A} (R : relation World) (m : M A) : Prop :=
  forall w, R w (m w).2.

(** Only the terminal and the random generator differ. *)
Definition terminal_only (w w' : World) : Prop :=
  jlpt_files w' = jlpt_files w /\ character_file w' = character_file w /\
  mistake_file w' = mistake_file w /\ progress_file w' = progress_file w /\
  clock w' = clock w /\ calls w' = calls w.

(** The calls of [generate_question] made in between all had the pool
    [pool] and the quiz type [quiz_type]. *)
Definition calls_with (pool : list row) (quiz_type : string) (w w' : World) : Prop :=
  exists new,
    calls w' = calls w ++ new /\
    Forall (fun c => call_pool c = pool /\ call_type c = quiz_type) new.

(** What a run of the review loop from question [q_no] with [cleared]
    cleared and [remaining] kept so far can return: it stopped at question
    [i], having kept [kept] out of the questions [q_no .. i-1] and cleared
    the others; after a quit the questions from [i] on are kept as well and
    [i] is the last question printed. *)
Definition review_post {T} (mistakes_list : list T) (q_no cleared : nat)
    (remaining : list T) (res : nat * list T * bool) (w' : World) : Prop :=
  let '(cleared', remaining', quit) := res in
  exists i kept,
    q_no <= i /\
    kept `sublist_of` take (i - q_no) (drop q_no mistakes_list) /\
    remaining' = remaining ++ kept ++ (if quit then drop i mistakes_list else []) /\
    cleared' + length kept = cleared + (i - q_no) /\
    (if quit then i < length mistakes_list /\ last_asked (stdout w') = Some i
     else length mistakes_list <= i).

(** No call of [generate_question] was made in between. *)
Definition same_calls (w w' : World) : Prop := calls w' = calls w.

(** The table after the loop [for mistake in ms: add_mistake(...)], the
    i-th call reading the i-th time of [times]. *)
Fixpoint persist_rows {T} `{MistakeShape T} (rows : list Mistake) (ms : list T)
    (times : list string) : list Mistake :=
  match ms with
  | [] => rows
  | m :: rest =>
      persist_rows
        (upsert rows (get_word m) (get_kana m) (get_correct_answer m)
                (get_user_answer m) (hd "" times))
        rest (tail times)
  end.

(** New rows, each with count 1, for a list of mistakes. *)
Fixpoint fresh_rows {T} `{MistakeShape T} (ms : list T) (times : list string)
    : list Mistake :=
  match ms with
  | [] => []
  | m :: rest =>
      mkMistake (get_word m) (get_kana m) (get_correct_answer m)
                (get_user_answer m) 1 (hd "" times)
      :: fresh_rows rest (tail times)
  end.

(** Standard input was only read, never extended. *)
Definition stdin_le (w w' : World) : Prop := length (stdin w') <= length (stdin w).

(** A computation never reports exhausted fuel; and it does not do so when
    at most [n] lines of input are left. *)
Definition never_out_of_fuel {A} (m : M A) : Prop :=
  forall w, (m w).1 ≠ Raise OutOfFuel.

Definition fuel_safe {A} (n : nat) (m : M A) : Prop :=
  forall w, length (stdin w) <= n -> (m w).1 ≠ Raise OutOfFuel.

(** ** Worlds used in the examples *)

Definition mistake_neko : Mistake :=
  mkMistake "neko" "ねこ" "cat" "dog" 1 "25-05-01 10:00:00".

Definition mistake_inu : Mistake :=
  mkMistake "inu" "いぬ" "dog" "cat" 3 "25-05-02 09:30:00".

Definition mistake_neko_alt : Mistake :=
  mkMistake "neko" "ネコ" "cat" "bird" 2 "25-05-03 08:00:00".

(** A world with nothing but a mistake table and a clock. *)
Definition store_world (rows : option (list Mistake)) (times : list string) : World :=
  mkWorld ∅ None rows None [] times [] [] [].

Definition vocab (kanji kana meaning : string) : row :=
  <["Kanji" := kanji]> (<["Kana" := kana]> (<["Meaning" := meaning]> ∅)).

Definition character (c reading : string) : row :=
  <["Character" := c]> (<["Correct Answer" := reading]> ∅).

(** Nine vocabulary rows: one short of a quiz. *)
Definition nine_vocabs : list row :=
  [vocab "一" "いち" "one"; vocab "二" "に" "two"; vocab "三" "さん" "three";
   vocab "四" "よん" "four"; vocab "五" "ご" "five"; vocab "六" "ろく" "six";
   vocab "七" "なな" "seven"; vocab "八" "はち" "eight"; vocab "九" "きゅう" "nine"].

Definition nine_characters : list row :=
  [character "あ" "a"; character "い" "i"; character "う" "u";
   character "え" "e"; character "お" "o"; character "か" "ka";
   character "き" "ki"; character "く" "ku"; character "け" "ke"].

(** A world whose N5 file and character file are one row short. *)
Definition short_world : World :=
  mkWorld {["data/jlpt_n5.csv" := nine_vocabs]} (Some nine_characters)
          (Some []) None [] [] ["A"; "B"] [] [].

(** A world in which no file exists. *)
Definition empty_world : World :=
  mkWorld ∅ None None None [] [] [] [] [].

(** Five mistakes of one quiz and a pool to draw distractors from. *)
Definition review_mistake (n : string) : MistakeReview :=
  mkMistakeReview ("w" +:+ n) ("k" +:+ n) ("meaning " +:+ n) "wrong".

Definition five_mistakes : list MistakeReview :=
  [review_mistake "1"; review_mistake "2"; review_mistake "3";
   review_mistake "4"; review_mistake "5"].

Definition review_pool : list row :=
  (fun n => vocab ("w" +:+ n) ("k" +:+ n) ("meaning " +:+ n))
    <$> ["1"; "2"; "3"; "4"; "5"; "6"; "7"; "8"].



(** Eleven characters, and a session that is abandoned at its first
    question. *)
Definition eleven_characters : list row :=
  nine_characters ++ [character "こ" "ko"; character "さ" "sa"].

Definition eleven_world : World :=
  mkWorld ∅ (Some eleven_characters) (Some []) None [] [] ["q"; "y"] [] [].

(** What [random.sample] draws from them when every draw is 0: the first
    character, then the others from the last down to the third. *)
Definition eleven_sample : list row :=
  take 1 eleven_characters ++ reverse (drop 2 eleven_characters).

(** A practice session over one stored mistake that has been made three
    times; it is answered wrongly again (the correct option is D). *)
Definition practice_world : World :=
  mkWorld {["data/jlpt_n5.csv" := nine_vocabs; "data/jlpt_n4.csv" := [];
            "data/jlpt_n3.csv" := []; "data/jlpt_n2.csv" := [];
            "data/jlpt_n1.csv" := []]}
          None (Some [mistake_inu]) None [] ["25-06-01 12:00:00"] ["a"; ""] [] [].

(** The end of a quiz with five mistakes: the review is accepted, its first
    question is answered correctly, and it is abandoned at the second. *)
Definition inline_world : World :=
  mkWorld ∅ None (Some [mistake_inu]) None [2; 0; 1; 3; 1; 0; 2] []
          ["y"; "d"; "x"; "q"; "y"; ""] [] [].

(** * Vocabulary of the further properties *)

(** A line that [get_user_choice] rejects. *)
Definition rejected (valid_options : list string) (line : string) : Prop :=
  upper (strip line) ∉ upper <$> valid_options.

(** What the JLPT quiz records about a wrong answer: the word, kana and
    meaning of one vocabulary of the quiz, and as the user's answer the
    meaning of some vocabulary of the quiz other than the correct one. *)
Definition recorded_mistake (quiz_content : list row) (m : MistakeReview) : Prop :=
  (exists content,
      content ∈ quiz_content /\
      content !! "Kanji" = Some (mr_word m) /\
      content !! "Kana" = Some (mr_kana m) /\
      content !! "Meaning" = Some (mr_correct_answer m)) /\
  mr_user_answer m ≠ mr_correct_answer m /\
  (exists other,
      other ∈ quiz_content /\ other !! "Meaning" = Some (mr_user_answer m)).

(** A review that is answered to its end: D, then D, A, A, A. *)
Definition review_world_full : World :=
  mkWorld ∅ None (Some []) None [2; 0; 1; 3; 1; 0; 2] [] ["d"; "d"; "a"; "a"; "a"] [] [].

(** Eleven vocabulary rows, and the ten that [random.sample] draws from
    them when every draw is 0. *)
Definition eleven_vocabs : list row :=
  nine_vocabs ++ [vocab "十" "じゅう" "ten"; vocab "百" "ひゃく" "hundred"].

Definition vocab_sample : list row :=
  take 1 eleven_vocabs ++ reverse (drop 2 eleven_vocabs).

(** A quiz on them; with every draw 0 the correct option is always D.  The
    third and the seventh question are answered wrongly. *)
Definition quiz_world (lines : list string) : World :=
  mkWorld {["data/jlpt_n5.csv" := eleven_vocabs]} None (Some []) None [] [] lines [] [].

Definition ten_answers : list string :=
  ["d"; "d"; "a"; "d"; "d"; "d"; "b"; "d"; "d"; "d"].

(** The files and the clock are as they were. *)
Definition same_files (w w' : World) : Prop :=
  jlpt_files w' = jlpt_files w /\ character_file w' = character_file w /\
  mistake_file w' = mistake_file w /\ progress_file w' = progress_file w /\
  clock w' = clock w.

(** The mistake table, the content files and the clock are as they were. *)
Definition same_mistakes (w w' : World) : Prop :=
  jlpt_files w' = jlpt_files w /\ character_file w' = character_file w /\
  mistake_file w' = mistake_file w /\ clock w' = clock w.

(** ** progress_manager: the remaining operations *)

Definition reset_progress : M bool :=
  try_except (create_progress_file ;;; ret true) (fun _ => ret false).

(** [for level in mastery: ... user_progress[level] = (mastered, total)];
    [len(None)] is a [TypeError]. *)
Fixpoint collect_progress (items : list (string * gset string))
    (user_progress : gmap string (nat * nat)) : M (gmap string (nat * nat)) :=
  match items with
  | [] => ret user_progress
  | (level, s) :: rest =>
      let mastered := size s in
      all_vocab <- load_jlpt_vocab level ;;
      match all_vocab with
      | None => raise TypeError
      | Some all_vocab =>
          let total := length all_vocab in
          collect_progress rest (<[level := (mastered, total)]> user_progress)
      end
  end.

Definition load_user_progress : M (gmap string (nat * nat)) :=
  mastery <- load_mastered_vocabs ;;
  collect_progress (mastery_items mastery) ∅.

(** The non-blank fields of the rows of a progress file that begin with
    [level]. *)
Fixpoint row_vocabs (level : string) (lines : list (list string)) : gset string :=
  match lines with
  | [] => ∅
  | [] :: rest => row_vocabs level rest
  | (l :: vocabs) :: rest =>
      (if decide (l = level) then nonblank vocabs else ∅) ∪ row_vocabs level rest
  end.

(** A row that [load_mastered_vocabs] cannot file: a non-blank field under
    a level that is none of the five. *)
Definition unknown_level_row (line : list string) : Prop :=
  match line with
  | [] => False
  | level :: vocabs => (level ∉ LEVELS) /\ nonblank vocabs ≠ ∅
  end.

(** The rows of a level's vocabulary file; a level without a file entry has
    none.  [missing_vocab] says that the level has a file entry but the file
    is absent. *)
Definition level_rows (w : World) (level : string) : list row :=
  match JLPT_FILES !! level with
  | Some path => default [] (jlpt_files w !! path)
  | None => []
  end.

Definition missing_vocab (w : World) (level : string) : Prop :=
  exists path, JLPT_FILES !! level = Some path /\ jlpt_files w !! path = None.


(** A practice session over one stored mistake that is abandoned at its
    first question. *)
Definition practice_quit_world : World :=
  set_stdin ["q"; "y"; ""] practice_world.

(** A quiz content with two distinct answers only, so that a question shows
    two options, and a user who answers C. *)
Definition twin_vocabs : list row :=
  [vocab "上" "うえ" "up"; vocab "上る" "のぼる" "up"; vocab "下" "した" "down"].

Definition twin_characters : list row :=
  [character "あ" "a"; character "ア" "a"; character "い" "i"].

Definition twin_world : World :=
  mkWorld ∅ None (Some []) None [] [] ["c"] [] [].

(** ** ui_handler: the column layout of the two learning pages

    [display_vocabulary] and [display_characters] print their items in
    columns that are read downwards:
    [for line in range(per_column): for col in range(num_columns):
       index = line + col * per_column
       if index < len(items): item = items[index]; item_num = index + 1; ...].
    [line_indices] is the indices that pass the test on one line, and
    [line_entries] the (item number, item) pairs put on it. *)
Definition line_indices (n num_columns per_column line : nat) : list nat :=
  filter (fun index => index < n)
         ((fun col => line + col * per_column) <$> seq 0 num_columns).

Definition line_entries {A} (items : list A) (num_columns per_column line : nat)
    : list (nat * A) :=
  omap (fun index => (fun item => (index + 1, item)) <$> items !! index)
       (line_indices (length items) num_columns per_column line).

Definition column_lines {A} (items : list A) (num_columns : nat)
    : list (list (nat * A)) :=
  let per_column := (length items + num_columns - 1) / num_columns in
  line_entries items num_columns per_column <$> seq 0 per_column.

Definition display_vocabulary_lines (vocabulary : list row) : list (list (nat * row)) :=
  column_lines vocabulary 2.

Definition display_characters_lines (all_characters : list row)
    : list (list (nat * row)) :=
  column_lines all_characters 4.
(** * Properties *)

(** ** The monad and the world *)

Lemma world_eta (w : World) :
  mkWorld (jlpt_files w) (character_file w) (mistake_file w) (progress_file w)
          (rng w) (clock w) (stdin w) (stdout w) (calls w) = w.
Proof. by destruct w. Qed.

Lemma set_rng_same (w : World) : set_rng (rng w) w = w.
Proof. apply world_eta. Qed.

Lemma set_rng_twice (r r' : list nat) (w : World) :
  set_rng r (set_rng r' w) = set_rng r w.
Proof. done. Qed.

Lemma bind_ok {A B} (m : M A) (k : A -> M B) (w w1 : World) (a : A) :
  m w = (Ok a, w1) -> bind m k w = k a w1.
Proof. unfold bind. by intros ->. Qed.

Lemma bind_raise {A B} (m : M A) (k : A -> M B) (w w1 : World) (e : exn) :
  m w = (Raise e, w1) -> bind m k w = (Raise e, w1).
Proof. unfold bind. by intros ->. Qed.

Lemma bind_inv_ok {A B} (m : M A) (k : A -> M B) (w w' : World) (b : B) :
  bind m k w = (Ok b, w') ->
  exists a w1, m w = (Ok a, w1) /\ k a w1 = (Ok b, w').
Proof.
  unfold bind. destruct (m w) as [[a|e] w1]; [eauto | done].
Qed.

(** ** Shuffling permutes *)

Lemma randbelow_spec (n : nat) (w : World) :
  exists j r, randbelow n w = (Ok j, set_rng r w).
Proof.
  unfold randbelow. destruct (rng w) as [|d rest] eqn:E.
  - exists 0, (rng w). by rewrite set_rng_same.
  - by exists (d mod n), rest.
Qed.

Lemma swap_Permutation {A} (x : list A) (i j : nat) : swap x i j ≡ₚ x.
Proof.
  unfold swap.
  destruct (x !! i) as [a|] eqn:Hi; [|done].
  destruct (x !! j) as [b|] eqn:Hj; [|done].
  pose proof (lookup_lt_Some _ _ _ Hi) as Hli.
  pose proof (lookup_lt_Some _ _ _ Hj) as Hlj.
  apply Permutation_inj. split; [by rewrite !length_insert|].
  exists (fun k => if decide (k = i) then j else if decide (k = j) then i else k).
  split.
  - intros k1 k2. repeat case_decide; congruence.
  - intros k. destruct (decide (k = j)) as [->|Hkj].
    + rewrite list_lookup_insert_eq by (by rewrite length_insert).
      repeat case_decide; congruence.
    + rewrite list_lookup_insert_ne by done.
      destruct (decide (k = i)) as [->|Hki].
      * rewrite list_lookup_insert_eq by done. congruence.
      * by rewrite list_lookup_insert_ne.
Qed.

Lemma shuffle_from_spec {A} (i : nat) (x : list A) (w : World) :
  exists y r, shuffle_from i x w = (Ok y, set_rng r w) /\ y ≡ₚ x.
Proof.
  revert x w. induction i as [|i IH]; intros x w; simpl.
  - exists x, (rng w). by rewrite set_rng_same.
  - destruct (randbelow_spec (S (S i)) w) as (j & r & Hj).
    rewrite (bind_ok _ _ _ _ _ Hj).
    destruct (IH (swap x (S i) j) (set_rng r w)) as (y & r' & Hy & Hp).
    exists y, r'. split; [done|].
    by rewrite Hp, swap_Permutation.
Qed.

Lemma shuffle_spec {A} (x : list A) (w : World) :
  exists y r, shuffle x w = (Ok y, set_rng r w) /\ y ≡ₚ x.
Proof. apply shuffle_from_spec. Qed.

(** ** Distractors *)

Lemma collect_wrong_spec (all_content : list row) (option_type ca : string)
    (acc : list string) (w : World) :
  collect_wrong all_content option_type ca acc w =
  (match answers all_content option_type with
   | Some vs => Ok (acc ++ filter (fun v => v ≠ ca) vs)
   | None => Raise KeyError
   end, w).
Proof.
  revert acc. induction all_content as [|content rest IH]; intros acc; simpl.
  - by rewrite app_nil_r.
  - unfold answers in *. simpl. unfold bind at 1. unfold getitem.
    destruct (content !! option_type) as [v|] eqn:Hv; simpl; [|done].
    case_decide as Hd; rewrite IH.
    + destruct (mapM _ rest) as [vs|]; simpl; [|done].
      rewrite filter_cons_True by done. by rewrite <- app_assoc.
    + destruct (mapM _ rest) as [vs|]; simpl; [|done].
      by rewrite filter_cons_False by naive_solver.
Qed.

Lemma length_last3 {A} (l : list A) : length (last3 l) = min 3 (length l).
Proof. unfold last3. rewrite length_drop. lia. Qed.

Lemma last3_subseteq {A} (l : list A) : last3 l ⊆ l.
Proof. unfold last3. apply subseteq_drop. Qed.

(** What [build_options] returns: a permutation of the correct answer and
    the last three of a permutation of the distractors. *)
Lemma build_options_spec (all_content : list row) (option_type ca : string) (w : World) :
  match answers all_content option_type with
  | Some vs =>
      exists options sh r,
        build_options all_content option_type ca w = (Ok options, set_rng r w) /\
        sh ≡ₚ filter (fun v => v ≠ ca) vs /\
        options ≡ₚ ca :: last3 sh
  | None => build_options all_content option_type ca w = (Raise KeyError, w)
  end.
Proof.
  unfold build_options.
  pose proof (collect_wrong_spec all_content option_type ca [] w) as Hc.
  destruct (answers all_content option_type) as [vs|].
  - rewrite (bind_ok _ _ _ _ _ Hc). simpl.
    destruct (shuffle_spec (filter (fun v => v ≠ ca) vs) w) as (sh & r & Hs & Hp).
    rewrite (bind_ok _ _ _ _ _ Hs).
    destruct (shuffle_spec (ca :: last3 sh) (set_rng r w)) as (o & r' & Ho & Hpo).
    exists o, sh, r'. by rewrite Ho.
  - by rewrite (bind_raise _ _ _ _ _ Hc).
Qed.

Lemma filter_eq_wrong (ca : string) (l : list string) :
  Forall (fun v => v ≠ ca) l -> filter (fun o => o = ca) l = [].
Proof.
  induction 1 as [|v l Hv _ IH]; [done|].
  by rewrite filter_cons_False.
Qed.

Lemma options_correct_once (ca : string) (vs sh options : list string) :
  sh ≡ₚ filter (fun v => v ≠ ca) vs ->
  options ≡ₚ ca :: last3 sh ->
  length (filter (fun o => o = ca) options) = 1 /\
  length options = min 4 (1 + length (filter (fun v => v ≠ ca) vs)).
Proof.
  intros Hsh Ho. split.
  - rewrite Ho, filter_cons_True by done. simpl.
    rewrite filter_eq_wrong; [done|].
    apply Forall_forall. intros v Hv%last3_subseteq.
    rewrite Hsh in Hv. by apply list_elem_of_filter in Hv as [? _].
  - rewrite Ho. cbn [length]. rewrite length_last3, Hsh. lia.
Qed.

Lemma answers_Some (pool : list row) (option_type : string) (vs : list string) :
  answers pool option_type = Some vs ->
  Forall (fun r : row => is_Some (r !! option_type)) pool.
Proof.
  unfold answers. intros Hm. apply mapM_Some in Hm.
  induction Hm as [|r v pool vs Hr _ IH]; constructor; eauto.
Qed.

Lemma answers_None (pool : list row) (option_type : string) :
  answers pool option_type = None ->
  ~ Forall (fun r : row => is_Some (r !! option_type)) pool.
Proof.
  unfold answers. intros Hm Hall.
  assert (is_Some (mapM (fun content : row => content !! option_type) pool)) as [vs Hvs];
    [|congruence].
  apply mapM_is_Some. done.
Qed.

Lemma answers_differing (pool : list row) (option_type ans : string) (vs : list string) :
  answers pool option_type = Some vs ->
  length (filter (fun v => v ≠ ans) vs) = length (differing pool option_type ans).
Proof.
  unfold answers, differing. intros Hm. apply mapM_Some in Hm.
  induction Hm as [|r v pool vs Hr _ IH]; [done|].
  destruct (decide (v = ans)) as [->|Hne].
  - rewrite filter_cons_False by naive_solver.
    rewrite (filter_cons_False _ r) by naive_solver. done.
  - rewrite filter_cons_True by done.
    rewrite (filter_cons_True _ r) by congruence. simpl. by rewrite IH.
Qed.

(** Once the correct answer and the answer column are known, the rest of
    [generate_question] is [build_options]. *)
Lemma build_options_outcome (pool : list row) (option_type ans : string) (w : World) :
  match build_options pool option_type ans w with
  | (Ok options, _) =>
      Forall (fun r : row => is_Some (r !! option_type)) pool /\
      length (filter (fun o => o = ans) options) = 1 /\
      length options = min 4 (1 + length (differing pool option_type ans))
  | (Raise e, _) =>
      e = KeyError /\ ~ Forall (fun r : row => is_Some (r !! option_type)) pool
  end.
Proof.
  pose proof (build_options_spec pool option_type ans w) as Hb.
  destruct (answers pool option_type) as [vs|] eqn:Ha.
  - destruct Hb as (options & sh & r & -> & Hsh & Ho).
    split; [by eapply answers_Some|].
    rewrite <- (answers_differing _ _ _ _ Ha).
    by eapply options_correct_once.
  - rewrite Hb. split; [done|]. by apply answers_None.
Qed.

(** A column the item lacks refutes well-formedness. *)
Local Ltac missing_field k :=
  split; [done|];
  let Hf := fresh in
  intros [Hf _];
  apply (proj1 (Forall_forall _ _)) with (x := k) in Hf;
  [destruct Hf; congruence | set_solver].

(** C1.  [generate_question] returns unless a column it reads is missing
    (then it raises [KeyError]); the option list it returns holds the
    correct item's answer exactly once and has length
    [min 4 (1 + number of pool entries with a different answer)]. *)
Theorem generate_question_options (item : row) (pool : list row)
    (quiz_type : string) (w : World) :
  match generate_question item pool quiz_type w with
  | (Ok (_, options), _) =>
      well_formed_question quiz_type item pool /\
      exists ans,
        correct_answer_of quiz_type item = Some ans /\
        length (filter (fun o => o = ans) options) = 1 /\
        length options =
          min 4 (1 + length (differing pool (answer_field quiz_type) ans)) /\
        length options <= 4
  | (Raise e, _) =>
      e = KeyError /\ ~ well_formed_question quiz_type item pool
  end.
Proof.
  unfold generate_question, well_formed_question, correct_answer_of,
    answer_field, item_fields.
  unfold bind, modify, getitem, ret, raise.
  set (w1 := set_calls _ w).
  destruct (decide (quiz_type = "jlpt")) as [Hj|Hj];
    [|destruct (decide (quiz_type = "character")) as [Hc|Hc]].
  - destruct (item !! "Kana") as [kana|] eqn:Hkana; [|missing_field "Kana"].
    destruct (item !! "Kanji") as [kanji|] eqn:Hkanji; [|missing_field "Kanji"].
    destruct (item !! "Meaning") as [ans|] eqn:Hans; [|missing_field "Meaning"].
    pose proof (build_options_outcome pool "Meaning" ans w1) as Hb.
    destruct (build_options pool "Meaning" ans w1) as [[options|e] w2].
    + destruct Hb as (Hp & H1 & Hl). split.
      * split; [|done]. repeat constructor; eauto.
      * exists ans. repeat split; [done..|lia].
    + destruct Hb as [-> Hp]. split; [done|]. by intros [_ ?].
  - destruct (item !! "Character") as [ch|] eqn:Hch; [|missing_field "Character"].
    destruct (item !! "Correct Answer") as [ans|] eqn:Hans;
      [|missing_field "Correct Answer"].
    pose proof (build_options_outcome pool "Correct Answer" ans w1) as Hb.
    destruct (build_options pool "Correct Answer" ans w1) as [[options|e] w2].
    + destruct Hb as (Hp & H1 & Hl). split.
      * split; [|done]. repeat constructor; eauto.
      * exists ans. repeat split; [done..|lia].
    + destruct Hb as [-> Hp]. split; [done|]. by intros [_ ?].
  - pose proof (build_options_outcome pool "" "" w1) as Hb.
    destruct (build_options pool "" "" w1) as [[options|e] w2].
    + destruct Hb as (Hp & H1 & Hl). split; [by split|].
      exists "". repeat split; [done..|lia].
    + destruct Hb as [-> Hp]. split; [done|]. by intros [_ ?].
Qed.

(** ** The mistake table *)

Lemma set_clock_tail (w : World) :
  clock w = [] -> set_clock (tail (clock w)) w = w.
Proof. intros Hc. rewrite Hc. simpl. rewrite <- Hc. apply world_eta. Qed.

Lemma strftime_now_spec (w : World) :
  strftime_now w = (Ok (hd "" (clock w)), set_clock (tail (clock w)) w).
Proof.
  unfold strftime_now. destruct (clock w) as [|t rest] eqn:Hc; [|done].
  simpl. f_equal. rewrite <- Hc. symmetry. apply world_eta.
Qed.

Lemma load_mistakes_present (w : World) (rows : list Mistake) :
  mistake_file w = Some rows -> load_mistakes w = (Ok (Some rows), w).
Proof. unfold load_mistakes, bind, gets, ret. by intros ->. Qed.

Lemma load_mistakes_absent (w : World) :
  mistake_file w = None ->
  load_mistakes w = (Ok None, set_stdout (stdout w ++ [OutNotFound MISTAKE_FILE]) w).
Proof. unfold load_mistakes, bind, gets, ret, print, modify. by intros ->. Qed.

(** The world [add_mistake] leaves behind when the table exists. *)
Lemma add_mistake_spec (w : World) (rows : list Mistake) (wd kn ca ua : string) :
  mistake_file w = Some rows ->
  add_mistake wd kn ca ua w =
  (Ok tt, set_mistake_file (Some (upsert rows wd kn ca ua (hd "" (clock w))))
            (set_clock (tail (clock w)) w)).
Proof.
  intros Hf. unfold add_mistake.
  rewrite (bind_ok _ _ _ _ _ (load_mistakes_present _ _ Hf)).
  rewrite (bind_ok _ _ _ _ _ (strftime_now_spec w)). done.
Qed.

Lemma add_mistake_absent (w : World) (wd kn ca ua : string) :
  mistake_file w = None ->
  add_mistake wd kn ca ua w =
  (Raise TypeError, set_stdout (stdout w ++ [OutNotFound MISTAKE_FILE]) w).
Proof.
  intros Hf. unfold add_mistake.
  by rewrite (bind_ok _ _ _ _ _ (load_mistakes_absent _ Hf)).
Qed.


Lemma update_existing_none (rows : list Mistake) (wd kn ca ua now : string) :
  (forall m, m ∈ rows -> mistake_key m ≠ (wd, kn)) ->
  update_existing rows wd kn ca ua now = None.
Proof.
  induction rows as [|m0 rows IH]; intros Hall; [done|].
  simpl. rewrite decide_False.
  - rewrite IH; [done|]. intros m Hm. apply Hall. by right.
  - intros [H1 H2]. apply (Hall m0); [by left|].
    unfold mistake_key. simpl. by rewrite H1, H2.
Qed.



(** C10.  [remove_mistake] drops every row whose word is the argument,
    whatever its kana, yet its result is always [false]: it compares the
    length of the unfiltered list with itself. *)
Theorem remove_mistake_returns_false (w : World) (rows : list Mistake) (wd : string) :
  mistake_file w = Some rows ->
  remove_mistake wd w =
  (Ok false, set_mistake_file (Some (filter (fun m => word m ≠ wd) rows)) w).
Proof.
  intros Hf. unfold remove_mistake.
  rewrite (bind_ok _ _ _ _ _ (load_mistakes_present _ _ Hf)).
  unfold bind, modify, ret. f_equal. f_equal.
  apply bool_decide_eq_false. lia.
Qed.

(** Two rows that share a word and differ in kana are both removed by one
    call, and the call still answers [false]. *)
Lemma remove_mistake_returns_false_witness :
  remove_mistake "neko"
    (store_world (Some [mistake_neko; mistake_inu; mistake_neko_alt]) []) =
  (Ok false, store_world (Some [mistake_inu]) []).
Proof.
  rewrite (remove_mistake_returns_false _ [mistake_neko; mistake_inu; mistake_neko_alt]);
    [|reflexivity].
  vm_compute. reflexivity.
Defined.

(** ** Loading from absent files *)

Lemma load_jlpt_vocab_present (w : World) (level path : string) (rows : list row) :
  JLPT_FILES !! level = Some path ->
  jlpt_files w !! path = Some rows ->
  load_jlpt_vocab level w = (Ok (Some rows), w).
Proof. unfold load_jlpt_vocab, bind, gets, ret. by intros -> ->. Qed.

Lemma load_jlpt_vocab_absent (w : World) (level path : string) :
  JLPT_FILES !! level = Some path ->
  jlpt_files w !! path = None ->
  load_jlpt_vocab level w =
  (Ok None, set_stdout (stdout w ++ [OutNotFound ("jlpt_" +:+ lower level +:+ ".csv")]) w).
Proof. unfold load_jlpt_vocab, bind, gets, ret, print, modify. by intros -> ->. Qed.

Lemma load_characters_present (w : World) (rows : list row) :
  character_file w = Some rows -> load_characters w = (Ok (Some rows), w).
Proof. unfold load_characters, bind, gets, ret. by intros ->. Qed.

Lemma load_characters_absent (w : World) :
  character_file w = None ->
  load_characters w =
  (Ok None, set_stdout (stdout w ++ [OutNotFound CHARACTER_FILE]) w).
Proof. unfold load_characters, bind, gets, ret, print, modify. by intros ->. Qed.

Lemma load_mastered_vocabs_absent (w : World) :
  progress_file w = None ->
  load_mastered_vocabs w =
  (Ok default_mastery,
   set_progress_file (Some (PROGRESS_HEADER :: ((fun level => [level]) <$> LEVELS))) w).
Proof.
  unfold load_mastered_vocabs, bind, gets, ret, create_progress_file, modify.
  by intros ->.
Qed.

(** C9, as the code has it.  No load raises on an absent file.  The
    vocabulary, character and mistake loads print the not-found notice; the
    progress load prints nothing, creates the default file and returns the
    five empty sets. *)
Theorem load_absent_file (w : World) :
  (forall level path,
      JLPT_FILES !! level = Some path ->
      jlpt_files w !! path = None ->
      exists r w',
        load_jlpt_vocab level w = (Ok r, w') /\
        stdout w' = stdout w ++ [OutNotFound ("jlpt_" +:+ lower level +:+ ".csv")]) /\
  (character_file w = None ->
   exists r w',
     load_characters w = (Ok r, w') /\
     stdout w' = stdout w ++ [OutNotFound CHARACTER_FILE]) /\
  (mistake_file w = None ->
   exists r w',
     load_mistakes w = (Ok r, w') /\
     stdout w' = stdout w ++ [OutNotFound MISTAKE_FILE]) /\
  (progress_file w = None ->
   exists mastery w',
     load_mastered_vocabs w = (Ok mastery, w') /\
     (forall level, level ∈ LEVELS -> mastery !! level = Some ∅) /\
     progress_file w' = Some (PROGRESS_HEADER :: ((fun level => [level]) <$> LEVELS)) /\
     stdout w' = stdout w).
Proof.
  repeat split.
  - intros level path Hl Hp. eexists _, _.
    split; [by eapply load_jlpt_vocab_absent|done].
  - intros Hf. eexists _, _. split; [by apply load_characters_absent|done].
  - intros Hf. eexists _, _. split; [by apply load_mistakes_absent|done].
  - intros Hf. eexists _, _. split; [by apply load_mastered_vocabs_absent|].
    split; [|done].
    intros level Hl. unfold LEVELS in Hl.
    repeat (apply elem_of_cons in Hl as [->|Hl]; [by vm_compute|]).
    by apply elem_of_nil in Hl.
Qed.

Lemma load_absent_file_witness :
  (exists r w', load_jlpt_vocab "N5" empty_world = (Ok r, w') /\
                stdout w' = [OutNotFound "jlpt_n5.csv"]) /\
  (exists r w', load_characters empty_world = (Ok r, w') /\
                stdout w' = [OutNotFound "data/characters.csv"]) /\
  (exists r w', load_mistakes empty_world = (Ok r, w') /\
                stdout w' = [OutNotFound "data/mistakes.csv"]) /\
  (exists mastery w',
      load_mastered_vocabs empty_world = (Ok mastery, w') /\
      (forall level, level ∈ LEVELS -> mastery !! level = Some ∅) /\
      progress_file w' = Some [["level"; "mastered_vocab"]; ["N5"]; ["N4"]; ["N3"]; ["N2"]; ["N1"]] /\
      stdout w' = []).
Proof.
  destruct (load_absent_file empty_world) as (Hj & Hc & Hm & Hp).
  split; [|split; [|split]].
  - apply (Hj "N5" "data/jlpt_n5.csv"); reflexivity.
  - apply Hc. reflexivity.
  - apply Hm. reflexivity.
  - apply Hp. reflexivity.
Defined.

(** C9 as stated fails: on an absent file the mistake load returns Python's
    [None] rather than an empty list and creates no file, and the progress
    load prints no notice. *)
Lemma load_absent_file_counterexample :
  load_mistakes empty_world =
    (Ok None, set_stdout [OutNotFound "data/mistakes.csv"] empty_world) /\
  mistake_file (load_mistakes empty_world).2 = None /\
  (load_jlpt_vocab "N5" empty_world).1 = Ok None /\
  stdout (load_mastered_vocabs empty_world).2 = [].
Proof. repeat split. Qed.

(** ** Sampling from a short pool *)

Lemma random_sample_short {A} (population : list A) (k : nat) (w : World) :
  length population < k ->
  random_sample population k w = (Raise ValueError, w).
Proof.
  intros Hlt. unfold random_sample. rewrite decide_False by lia. done.
Qed.

(** C2.  Neither quiz guards the sample of ten: with an existing file of
    fewer than ten rows the session ends in an uncaught [ValueError], before
    anything is printed. *)
Theorem quiz_sampling_unguarded (w : World) :
  (forall level path rows,
      JLPT_FILES !! level = Some path ->
      jlpt_files w !! path = Some rows ->
      length rows < 10 ->
      run_jlpt_quiz level w = (Raise ValueError, w)) /\
  (forall rows,
      character_file w = Some rows ->
      length rows < 10 ->
      run_character_quiz w = (Raise ValueError, w)).
Proof.
  split.
  - intros level path rows Hl Hp Hlen. unfold run_jlpt_quiz.
    rewrite (bind_ok _ _ _ _ _ (load_jlpt_vocab_present _ _ _ _ Hl Hp)).
    by rewrite (bind_raise _ _ _ _ _ (random_sample_short rows 10 w Hlen)).
  - intros rows Hc Hlen. unfold run_character_quiz.
    rewrite (bind_ok _ _ _ _ _ (load_characters_present _ _ Hc)).
    by rewrite (bind_raise _ _ _ _ _ (random_sample_short rows 10 w Hlen)).
Qed.

Lemma quiz_sampling_unguarded_witness :
  run_jlpt_quiz "N5" short_world = (Raise ValueError, short_world) /\
  run_character_quiz short_world = (Raise ValueError, short_world).
Proof.
  destruct (quiz_sampling_unguarded short_world) as [Hj Hc]. split.
  - apply (Hj "N5" "data/jlpt_n5.csv" nine_vocabs); [reflexivity..|vm_compute; lia].
  - apply (Hc nine_characters); [reflexivity|vm_compute; lia].
Defined.

(** ** The progress table *)

Lemma set_progress_file_twice (f f' : option (list (list string))) (w : World) :
  set_progress_file f (set_progress_file f' w) = set_progress_file f w.
Proof. done. Qed.

Lemma set_progress_file_same (w : World) (f : option (list (list string))) :
  progress_file w = f -> set_progress_file f w = w.
Proof. intros <-. apply world_eta. Qed.

Lemma add_vocabs_spec (level : string) (vocabs : list string)
    (mastery : gmap string (gset string)) (s : gset string) :
  mastery !! level = Some s ->
  add_vocabs level vocabs mastery = Ok (<[level := s ∪ nonblank vocabs]> mastery).
Proof.
  revert mastery s. induction vocabs as [|vocab rest IH]; intros mastery s Hs; simpl.
  - unfold nonblank. simpl. rewrite (right_id_L ∅ (∪)). by rewrite insert_id.
  - unfold nonblank. destruct (truthy (strip vocab)) eqn:Ht.
    + rewrite Hs. rewrite (IH _ (s ∪ {[vocab]})) by apply lookup_insert_eq.
      rewrite insert_insert_eq. rewrite filter_cons_True by done.
      simpl. f_equal. f_equal. by rewrite (assoc_L (∪)).
    + rewrite (IH _ s Hs). rewrite filter_cons_False; [done|]. by rewrite Ht.
Qed.

Lemma add_vocabs_ok (level : string) (vocabs : list string)
    (mastery mastery' : gmap string (gset string)) :
  mastery_ok mastery ->
  add_vocabs level vocabs mastery = Ok mastery' ->
  mastery_ok mastery'.
Proof.
  revert mastery. induction vocabs as [|vocab rest IH]; intros mastery Hok; simpl.
  - by intros [= <-].
  - destruct (truthy (strip vocab)) eqn:Ht; [|by apply IH].
    destruct (mastery !! level) as [s|] eqn:Hs; [|done].
    apply IH. destruct Hok as [Hdom Hnb]. split.
    + intros l. rewrite <- Hdom. destruct (decide (level = l)) as [<-|Hne].
      * rewrite lookup_insert_eq, Hs. split; eauto.
      * by rewrite lookup_insert_ne.
    + intros l s' v. destruct (decide (level = l)) as [<-|Hne].
      * rewrite lookup_insert_eq. intros [= <-] [Hv| ->%elem_of_singleton]%elem_of_union;
          [by eapply Hnb|done].
      * rewrite lookup_insert_ne by done. apply Hnb.
Qed.

Lemma read_progress_lines_ok (lines : list (list string))
    (mastery mastery' : gmap string (gset string)) :
  mastery_ok mastery ->
  read_progress_lines lines mastery = Ok mastery' ->
  mastery_ok mastery'.
Proof.
  revert mastery. induction lines as [|line rest IH]; intros mastery Hok; simpl.
  - by intros [= <-].
  - destruct line as [|level [|v vs]]; [by apply IH..|].
    destruct (add_vocabs level (v :: vs) mastery) as [m1|e] eqn:Ha; [|done].
    apply IH. by eapply add_vocabs_ok.
Qed.

Lemma default_mastery_ok : mastery_ok default_mastery.
Proof.
  split.
  - intros level. unfold default_mastery, LEVELS. simpl.
    rewrite !lookup_insert, lookup_empty.
    repeat case_decide; subst; split; intros Hx;
      try (by eauto); try (by destruct Hx); try (by repeat constructor).
    repeat (apply elem_of_cons in Hx as [Hx|Hx]; [congruence|]).
    by apply elem_of_nil in Hx.
  - intros level s v. unfold default_mastery, LEVELS. simpl.
    rewrite !lookup_insert, lookup_empty.
    repeat case_decide; intros [= <-]; set_solver.
Qed.

(** One row of the progress file whose level the dictionary knows. *)
Lemma read_progress_line (level : string) (vocabs : list string)
    (rest : list (list string)) (mastery : gmap string (gset string)) (s : gset string) :
  mastery !! level = Some s ->
  read_progress_lines ((level :: vocabs) :: rest) mastery =
  read_progress_lines rest (<[level := s ∪ nonblank vocabs]> mastery).
Proof.
  intros Hs. simpl. destruct vocabs as [|v vs].
  - unfold nonblank. simpl. rewrite (right_id_L ∅ (∪)). by rewrite insert_id.
  - by rewrite (add_vocabs_spec _ _ _ _ Hs).
Qed.

Lemma nonblank_elements (s : gset string) :
  nonblank (elements s) = filter (fun vocab => truthy (strip vocab) = true) s.
Proof.
  unfold nonblank. apply set_eq. intros v.
  rewrite elem_of_list_to_set, list_elem_of_filter, elem_of_filter, elem_of_elements.
  done.
Qed.

Lemma mastery_items_ext (m1 m2 : gmap string (gset string)) :
  (forall level, level ∈ LEVELS -> m1 !! level = m2 !! level) ->
  mastery_items m1 = mastery_items m2.
Proof.
  intros Heq. unfold mastery_items, LEVELS in *. simpl.
  rewrite !Heq by set_solver. done.
Qed.

(** Reading back the rows written from a dictionary drops the blank members
    of its sets and nothing else. *)
Lemma read_progress_rows (mastery : gmap string (gset string)) :
  (forall level, level ∈ LEVELS -> is_Some (mastery !! level)) ->
  exists loaded,
    read_progress_lines (tail (progress_rows mastery)) default_mastery = Ok loaded /\
    forall level, level ∈ LEVELS ->
      loaded !! level =
      filter (fun vocab => truthy (strip vocab) = true) <$> mastery !! level.
Proof.
  intros Hdom.
  destruct (Hdom "N5") as [s5 H5]; [set_solver|].
  destruct (Hdom "N4") as [s4 H4]; [set_solver|].
  destruct (Hdom "N3") as [s3 H3]; [set_solver|].
  destruct (Hdom "N2") as [s2 H2]; [set_solver|].
  destruct (Hdom "N1") as [s1 H1]; [set_solver|].
  assert (tail (progress_rows mastery) =
          [ "N5" :: elements s5; "N4" :: elements s4; "N3" :: elements s3;
            "N2" :: elements s2; "N1" :: elements s1 ]) as ->.
  { unfold progress_rows, mastery_items, LEVELS. simpl.
    by rewrite H5, H4, H3, H2, H1. }
  erewrite read_progress_line by reflexivity.
  erewrite read_progress_line by (by rewrite lookup_insert_ne).
  erewrite read_progress_line by (by rewrite !lookup_insert_ne).
  erewrite read_progress_line by (by rewrite !lookup_insert_ne).
  erewrite read_progress_line by (by rewrite !lookup_insert_ne).
  simpl. eexists. split; [done|].
  intros level Hl. rewrite !nonblank_elements, !(left_id_L ∅ (∪)).
  repeat (apply elem_of_cons in Hl as [->|Hl];
          [rewrite ?lookup_insert_eq, ?lookup_insert_ne by done;
           rewrite ?lookup_insert_eq; by rewrite ?H5, ?H4, ?H3, ?H2, ?H1|]).
  by apply elem_of_nil in Hl.
Qed.

(** A load either fails and leaves the world alone, or yields a well-formed
    dictionary and a world in which loading again gives the same. *)
Lemma load_mastered_vocabs_repeat (w : World) :
  match load_mastered_vocabs w with
  | (Ok mastery, w') =>
      mastery_ok mastery /\ load_mastered_vocabs w' = (Ok mastery, w')
  | (Raise _, w') => w' = w
  end.
Proof.
  unfold load_mastered_vocabs at 1. unfold bind, gets.
  destruct (progress_file w) as [[|header lines]|] eqn:Hf.
  - done.
  - unfold lift.
    destruct (read_progress_lines lines default_mastery) as [mastery|e] eqn:Hr; [|done].
    split; [by eapply read_progress_lines_ok, Hr; apply default_mastery_ok|].
    unfold load_mastered_vocabs, bind, gets, lift. by rewrite Hf, Hr.
  - unfold create_progress_file, modify, ret. split; [apply default_mastery_ok|].
    done.
Qed.

Lemma filter_nonblank_id (s : gset string) :
  (forall vocab, vocab ∈ s -> truthy (strip vocab) = true) ->
  filter (fun vocab => truthy (strip vocab) = true) s = s.
Proof.
  intros Hall. apply set_eq. intros v. rewrite elem_of_filter.
  split; [tauto|]. intros Hv. split; [by apply Hall|done].
Qed.

(** [add_mastered_vocab] in terms of what its load returns. *)
Lemma add_mastered_vocab_unfold (level kanji : string) (w : World) :
  add_mastered_vocab level kanji w =
  match load_mastered_vocabs w with
  | (Ok m, wa) =>
      match m !! level with
      | None => (Raise KeyError, wa)
      | Some s =>
          if decide (kanji ∈ s) then (Ok false, wa)
          else (Ok true,
                set_progress_file
                  (Some (progress_rows (<[level := s ∪ {[kanji]}]> m))) wa)
      end
  | (Raise e, wa) => (Raise e, wa)
  end.
Proof.
  unfold add_mastered_vocab, bind.
  destruct (load_mastered_vocabs w) as [[m|e] wa]; [|done].
  destruct (m !! level) as [s|]; [|done].
  by destruct (decide (kanji ∈ s)).
Qed.

Lemma load_written_progress (m' : gmap string (gset string)) (wa : World) :
  load_mastered_vocabs (set_progress_file (Some (progress_rows m')) wa) =
  (match read_progress_lines (tail (progress_rows m')) default_mastery with
   | Ok m => Ok m
   | Raise e => Raise e
   end, set_progress_file (Some (progress_rows m')) wa).
Proof.
  unfold load_mastered_vocabs, bind, gets, lift. simpl.
  by destruct (read_progress_lines _ _).
Qed.

(** The second of two identical calls of [add_mastered_vocab] changes
    nothing at all. *)
Lemma add_mastered_vocab_stable (level kanji : string) (w : World) :
  (add_mastered_vocab level kanji (add_mastered_vocab level kanji w).2).2 =
  (add_mastered_vocab level kanji w).2.
Proof.
  rewrite (add_mastered_vocab_unfold level kanji w).
  pose proof (load_mastered_vocabs_repeat w) as Hload.
  destruct (load_mastered_vocabs w) as [[m|e] wa] eqn:Hl.
  2:{ subst wa. simpl. by rewrite add_mastered_vocab_unfold, Hl. }
  destruct Hload as [[Hdom Hnb] Hagain].
  destruct (m !! level) as [s|] eqn:Hs.
  2:{ simpl. by rewrite add_mastered_vocab_unfold, Hagain, Hs. }
  destruct (decide (kanji ∈ s)) as [Hin|Hnin].
  { simpl. rewrite add_mastered_vocab_unfold, Hagain, Hs. by rewrite decide_True. }
  simpl.
  set (m' := <[level := s ∪ {[kanji]}]> m).
  assert (forall l, l ∈ LEVELS -> is_Some (m' !! l)) as Hdom'.
  { intros l Hl'. unfold m'. destruct (decide (level = l)) as [<-|Hne].
    - rewrite lookup_insert_eq. eauto.
    - rewrite lookup_insert_ne by done. by apply Hdom. }
  destruct (read_progress_rows m' Hdom') as (m2 & Hread & Hlook).
  assert (level ∈ LEVELS) as Hlevel by (apply Hdom; eauto).
  rewrite add_mastered_vocab_unfold, load_written_progress, Hread.
  rewrite (Hlook level Hlevel). unfold m' at 1.
  rewrite lookup_insert_eq. simpl.
  destruct (decide (kanji ∈ _)) as [Hin2|Hnin2]; [done|].
  simpl. rewrite set_progress_file_twice.
  f_equal. f_equal. unfold progress_rows. f_equal. f_equal.
  apply mastery_items_ext. intros l Hl'.
  destruct (decide (level = l)) as [<-|Hne].
  - unfold m'. rewrite !lookup_insert_eq. f_equal.
    apply set_eq. intros v. rewrite elem_of_union, elem_of_filter, elem_of_union.
    split; [tauto|].
    intros [Hv|Hv]; [|tauto]. left. split; [by eapply Hnb|by left].
  - rewrite lookup_insert_ne by done. rewrite (Hlook l Hl').
    unfold m'. rewrite lookup_insert_ne by done.
    destruct (m !! l) as [sl|] eqn:Hsl; [|done]. simpl. f_equal.
    apply filter_nonblank_id. intros v Hv. by eapply Hnb.
Qed.

(** C5.  Mastering the same (level, kanji) a second time leaves the world
    as the first call left it, so the mastered set of every level keeps its
    size. *)
Theorem add_mastered_vocab_idempotent (level kanji : string) (w : World) :
  let w1 := (add_mastered_vocab level kanji w).2 in
  let w2 := (add_mastered_vocab level kanji w1).2 in
  w2 = w1 /\ forall l, mastered_size l w2 = mastered_size l w1.
Proof.
  intros w1 w2. assert (w2 = w1) as -> by apply add_mastered_vocab_stable.
  done.
Qed.

(** Mastering a word on a machine without a progress file, twice: the
    second call answers [false] and the set still has one member.  A blank
    "kanji" is written but never read back, so both calls answer [true] and
    the set stays empty. *)
Example add_mastered_vocab_twice :
  let w1 := (add_mastered_vocab "N5" "猫" empty_world).2 in
  (add_mastered_vocab "N5" "猫" empty_world).1 = Ok true /\
  (add_mastered_vocab "N5" "猫" w1).1 = Ok false /\
  mastered_size "N5" w1 = Some 1 /\
  progress_file w1 =
    Some [["level"; "mastered_vocab"]; ["N5"; "猫"]; ["N4"]; ["N3"]; ["N2"]; ["N1"]].
Proof. repeat split; vm_compute; reflexivity. Qed.

Example add_mastered_vocab_blank :
  let w1 := (add_mastered_vocab "N5" " " empty_world).2 in
  (add_mastered_vocab "N5" " " empty_world).1 = Ok true /\
  (add_mastered_vocab "N5" " " w1).1 = Ok true /\
  mastered_size "N5" w1 = Some 0 /\
  mastered_size "N5" (add_mastered_vocab "N5" " " w1).2 = Some 0.
Proof. repeat split; vm_compute; reflexivity. Qed.

(** ** Relations kept by computations *)

Section Preserves.
Context (R : relation World) `{!PreOrder R}.

Lemma preserves_ret {A} (a : A) : preserves R (ret a).
Proof. intros w. simpl. reflexivity. Qed.

Lemma preserves_raise {A} (e : exn) : preserves R (raise (A:=A) e).
Proof. intros w. simpl. reflexivity. Qed.

Lemma preserves_lift {A} (r : result A) : preserves R (lift r).
Proof. intros w. simpl. reflexivity. Qed.

Lemma preserves_gets {A} (f : World -> A) : preserves R (gets f).
Proof. intros w. simpl. reflexivity. Qed.

Lemma preserves_bind {A B} (m : M A) (k : A -> M B) :
  preserves R m -> (forall a, preserves R (k a)) -> preserves R (bind m k).
Proof.
  intros Hm Hk w. unfold bind. specialize (Hm w).
  destruct (m w) as [[a|e] w1]; simpl in *; [|done].
  etrans; [exact Hm|apply Hk].
Qed.

Lemma preserves_try_except {A} (m : M A) (h : exn -> M A) :
  preserves R m -> (forall e, preserves R (h e)) -> preserves R (try_except m h).
Proof.
  intros Hm Hh w. unfold try_except. specialize (Hm w).
  destruct (m w) as [[a|e] w1]; simpl in *; [done|].
  etrans; [exact Hm|apply Hh].
Qed.
End Preserves.

#[local] Instance terminal_only_preorder : PreOrder terminal_only.
Proof.
  split.
  - by intros w.
  - intros w1 w2 w3 (?&?&?&?&?&?) (?&?&?&?&?&?). unfold terminal_only.
    repeat split; congruence.
Qed.

#[local] Instance calls_with_preorder (pool : list row) (quiz_type : string) :
  PreOrder (calls_with pool quiz_type).
Proof.
  split.
  - intros w. exists []. by rewrite app_nil_r.
  - intros w1 w2 w3 (n1 & H1 & F1) (n2 & H2 & F2). exists (n1 ++ n2). split.
    + by rewrite H2, H1, app_assoc.
    + by apply Forall_app.
Qed.

(** ** Reading a choice *)

Lemma read_choice_spec (valid : list string) (lines : list string) :
  match read_choice valid lines with
  | (Ok c, rest, _) => c ∈ valid /\ length rest < length lines
  | (Raise e, rest, _) => e = EOFError /\ rest = []
  end.
Proof.
  induction lines as [|line lines IH]; simpl; [done|].
  case_decide as Hv; [split; [done|lia]|].
  destruct (read_choice valid lines) as [[[c|e] rest] n]; simpl.
  - destruct IH. split; [done|lia].
  - done.
Qed.

Lemma get_user_choice_spec (valid : list string) (w : World) :
  exists n rest,
    (get_user_choice valid w).2 =
      set_stdout (stdout w ++ replicate n OutInvalidChoice) (set_stdin rest w) /\
    match (get_user_choice valid w).1 with
    | Ok c => c ∈ upper <$> valid /\ length rest < length (stdin w)
    | Raise e => e = EOFError /\ rest = []
    end.
Proof.
  unfold get_user_choice.
  pose proof (read_choice_spec (upper <$> valid) (stdin w)) as Hr.
  destruct (read_choice (upper <$> valid) (stdin w)) as [[r rest] n].
  exists n, rest. split; [done|]. simpl. by destruct r.
Qed.

Lemma get_user_choice_terminal (valid : list string) :
  preserves terminal_only (get_user_choice valid).
Proof.
  intros w. destruct (get_user_choice_spec valid w) as (n & rest & -> & _).
  done.
Qed.

Lemma get_user_choice_calls (pool : list row) (qt : string) (valid : list string) :
  preserves (calls_with pool qt) (get_user_choice valid).
Proof.
  intros w. destruct (get_user_choice_spec valid w) as (n & rest & -> & _).
  exists []. by rewrite app_nil_r.
Qed.

Lemma print_terminal (o : Output) : preserves terminal_only (print o).
Proof. by intros w. Qed.

Lemma print_calls (pool : list row) (qt : string) (o : Output) :
  preserves (calls_with pool qt) (print o).
Proof. intros w. exists []. by rewrite app_nil_r. Qed.

Lemma build_options_world (pool : list row) (option_type ans : string) (w : World) :
  exists r, (build_options pool option_type ans w).2 = set_rng r w.
Proof.
  pose proof (build_options_spec pool option_type ans w) as Hb.
  destruct (answers pool option_type).
  - destruct Hb as (o & sh & r & -> & _). by exists r.
  - rewrite Hb. exists (rng w). by rewrite set_rng_same.
Qed.

Lemma build_options_terminal (pool : list row) (option_type ans : string) :
  preserves terminal_only (build_options pool option_type ans).
Proof.
  intros w. destruct (build_options_world pool option_type ans w) as [r ->]. done.
Qed.

Lemma shuffle_terminal {A} (x : list A) : preserves terminal_only (shuffle x).
Proof.
  intros w. destruct (shuffle_spec x w) as (y & r & -> & _). done.
Qed.

Lemma last_asked_app (a b : list Output) :
  last_asked (a ++ b) =
  match last_asked b with Some i => Some i | None => last_asked a end.
Proof.
  induction a as [|o a IH]; simpl.
  - by destruct (last_asked b).
  - rewrite IH. by destruct (last_asked b).
Qed.

Lemma last_asked_invalid (n : nat) : last_asked (replicate n OutInvalidChoice) = None.
Proof. induction n as [|n IH]; simpl; [done|]. by rewrite IH. Qed.

(** ** The review loop *)

Create HintDb preserves.

#[local] Hint Resolve print_terminal get_user_choice_terminal
  build_options_terminal : preserves.
#[local] Hint Resolve print_calls get_user_choice_calls : preserves.

Local Ltac preserves_step :=
  match goal with
  | |- preserves _ (bind _ _) => apply preserves_bind; [apply _| |intros ?]
  | |- preserves _ (ret _) => apply preserves_ret; apply _
  | |- preserves _ (raise _) => apply preserves_raise; apply _
  | |- preserves _ (lift _) => apply preserves_lift; apply _
  | |- preserves _ (gets _) => apply preserves_gets; apply _
  | |- preserves _ (if decide ?P then _ else _) => destruct (decide P)
  | |- preserves _ (match ?x with _ => _ end) => destruct x
  end.

Local Ltac preserves_auto :=
  repeat (preserves_step || (by eauto with preserves)).

Lemma choice_index_of_preserves (R : relation World) `{!PreOrder R} (c : string) :
  preserves R (choice_index_of c).
Proof. unfold choice_index_of, ord. preserves_auto. Qed.

Lemma get_correct_answer_index_preserves (R : relation World) `{!PreOrder R}
    (options : list string) (ans : string) :
  preserves R (get_correct_answer_index options ans).
Proof. unfold get_correct_answer_index. preserves_auto. Qed.

Lemma getitem_preserves (R : relation World) `{!PreOrder R} (content : row) (k : string) :
  preserves R (getitem content k).
Proof. unfold getitem. preserves_auto. Qed.

Lemma list_getitem_preserves (R : relation World) `{!PreOrder R} {A} (l : list A) (i : Z) :
  preserves R (list_getitem l i).
Proof. unfold list_getitem. preserves_auto. Qed.

Local Ltac preserves_pure :=
  first [ apply choice_index_of_preserves
        | apply get_correct_answer_index_preserves
        | apply getitem_preserves
        | apply list_getitem_preserves ];
  apply _.

Local Ltac preserves_all :=
  repeat (preserves_step || preserves_pure || (by eauto with preserves)).

Lemma review_loop_terminal {T} `{MistakeShape T} (fuel : nat) (all_content : list row)
    (quiz_type : string) (mistakes_list : list T) (q_no cleared : nat) (remaining : list T) :
  preserves terminal_only
    (review_loop fuel all_content quiz_type mistakes_list q_no cleared remaining).
Proof.
  revert q_no cleared remaining.
  induction fuel as [|fuel IH]; intros q_no cleared remaining; simpl.
  - apply preserves_raise; apply _.
  - preserves_all.
Qed.

Lemma run_mistake_review_terminal {T} `{MistakeShape T} (all_content : list row)
    (quiz_type : string) (mistakes_list : list T) :
  preserves terminal_only (run_mistake_review all_content quiz_type mistakes_list).
Proof.
  unfold run_mistake_review. preserves_auto.
  - apply shuffle_terminal.
  - apply review_loop_terminal.
Qed.

Lemma take_drop_step {T} (l : list T) (q_no i : nat) (m : T) :
  l !! q_no = Some m -> q_no + 1 <= i ->
  take (i - q_no) (drop q_no l) = m :: take (i - (q_no + 1)) (drop (q_no + 1) l).
Proof.
  intros Hm Hi. rewrite (drop_S _ _ _ Hm).
  replace (i - q_no) with (S (i - (q_no + 1))) by lia.
  simpl. by rewrite Nat.add_1_r.
Qed.

Lemma review_post_cleared {T} (l : list T) (q_no c : nat) (rem : list T) (m : T)
    (res : nat * list T * bool) (w' : World) :
  l !! q_no = Some m ->
  review_post l (q_no + 1) (c + 1) rem res w' ->
  review_post l q_no c rem res w'.
Proof.
  intros Hm. destruct res as [[c' rem'] q].
  intros (i & kept & Hi & Hsub & Hrem & Hc & Hq).
  exists i, kept. split; [lia|]. split; [|split; [done|split; [lia|done]]].
  rewrite (take_drop_step _ _ _ _ Hm Hi). by apply sublist_cons.
Qed.

Lemma review_post_kept {T} (l : list T) (q_no c : nat) (rem : list T) (m : T)
    (res : nat * list T * bool) (w' : World) :
  l !! q_no = Some m ->
  review_post l (q_no + 1) c (rem ++ [m]) res w' ->
  review_post l q_no c rem res w'.
Proof.
  intros Hm. destruct res as [[c' rem'] q].
  intros (i & kept & Hi & Hsub & Hrem & Hc & Hq).
  exists i, (m :: kept). split; [lia|]. split; [|split; [|split; [simpl; lia|done]]].
  - rewrite (take_drop_step _ _ _ _ Hm Hi). by apply sublist_skip.
  - rewrite Hrem. by rewrite <- app_assoc.
Qed.

Local Ltac inv_bind H :=
  let a := fresh "a" in
  let w1 := fresh "w" in
  let E := fresh "E" in
  apply bind_inv_ok in H as (a & w1 & E & H); cbv beta in H.

Lemma print_inv (o : Output) (w w' : World) (u : unit) :
  print o w = (Ok u, w') -> w' = set_stdout (stdout w ++ [o]) w.
Proof. unfold print, modify. by intros [= _ <-]. Qed.

Lemma get_user_choice_inv (valid : list string) (w w' : World) (c : string) :
  get_user_choice valid w = (Ok c, w') ->
  c ∈ upper <$> valid /\
  exists n rest,
    w' = set_stdout (stdout w ++ replicate n OutInvalidChoice) (set_stdin rest w) /\
    length rest < length (stdin w).
Proof.
  intros Hg. destruct (get_user_choice_spec valid w) as (n & rest & Hw & Hr).
  rewrite Hg in Hw, Hr. simpl in *. destruct Hr as [Hc Hlen].
  split; [done|]. by exists n, rest.
Qed.

Lemma review_loop_result {T} `{MistakeShape T} (fuel : nat) (all_content : list row)
    (quiz_type : string) (mistakes_list : list T) (q_no cleared : nat)
    (remaining : list T) (w w' : World) (res : nat * list T * bool) :
  review_loop fuel all_content quiz_type mistakes_list q_no cleared remaining w
    = (Ok res, w') ->
  review_post mistakes_list q_no cleared remaining res w'.
Proof.
  revert q_no cleared remaining w.
  induction fuel as [|fuel IH]; intros q_no cleared remaining w Hrun; [done|].
  simpl in Hrun.
  destruct (decide (q_no < length mistakes_list)) as [Hlt|Hge].
  2:{ inv_bind Hrun. unfold ret in Hrun. injection Hrun as <- <-.
      exists q_no, []. rewrite Nat.sub_diag. simpl.
      split; [lia|]. split; [done|]. split; [by rewrite app_nil_r|].
      split; lia. }
  destruct (mistakes_list !! q_no) as [mistake|] eqn:Hm; [|done].
  inv_bind Hrun.
  assert (forall user_choice options correct_answer w3,
             (choice_index <- choice_index_of user_choice ;;
              correct_index <- get_correct_answer_index options correct_answer ;;
              if decide (choice_index = Z.of_nat correct_index) then
                review_loop fuel all_content quiz_type mistakes_list
                            (q_no + 1) (cleared + 1) remaining
              else
                review_loop fuel all_content quiz_type mistakes_list
                            (q_no + 1) cleared (remaining ++ [mistake]))%py w3
             = (Ok res, w') ->
             review_post mistakes_list q_no cleared remaining res w') as Hcheck.
  { intros user_choice options correct_answer w3 Hc.
    inv_bind Hc. inv_bind Hc. case_decide.
    - eapply review_post_cleared; [done|]. by eapply IH.
    - eapply review_post_kept; [done|]. by eapply IH. }
  destruct (decide (quiz_type = "jlpt")) as [Hj|Hj];
    [|by destruct (decide (quiz_type = "character"))].
  unfold ret in E. injection E as <- <-.
  inv_bind Hrun. inv_bind Hrun. apply print_inv in E0. subst.
  inv_bind Hrun. apply get_user_choice_inv in E0 as (_ & n1 & rest1 & -> & _).
  destruct (decide (a1 = "Q")) as [HQ|HQ]; [|by eapply Hcheck].
  inv_bind Hrun. apply get_user_choice_inv in E0 as (_ & n2 & rest2 & -> & _).
  destruct (decide (a2 = "Y")) as [HY|HY].
  - unfold ret in Hrun. injection Hrun as <- <-.
    exists q_no, []. rewrite Nat.sub_diag. simpl.
    split; [lia|]. split; [done|]. split; [done|]. split; [lia|].
    split; [done|].
    rewrite !last_asked_app, !last_asked_invalid. done.
  - destruct (decide (a2 = "N")) as [HN|HN]; [|by eapply Hcheck].
    inv_bind Hrun. by eapply IH.
Qed.

(** What [run_mistake_review] returns, in one statement: the list was
    permuted, the loop ran over the permuted list from question 0, and only
    the terminal and the generator were touched. *)
Lemma run_mistake_review_result {T} `{MistakeShape T} (all_content : list row)
    (quiz_type : string) (mistakes : list T) (w w' : World)
    (cleared : nat) (remaining : list T) (quit : bool) (shuffled : list T) :
  run_mistake_review all_content quiz_type mistakes w
    = (Ok (cleared, remaining, quit, shuffled), w') ->
  shuffled ≡ₚ mistakes /\
  review_post shuffled 0 0 [] (cleared, remaining, quit) w' /\
  terminal_only w w'.
Proof.
  intros Hrun.
  pose proof (run_mistake_review_terminal all_content quiz_type mistakes w) as Hterm.
  rewrite Hrun in Hterm. simpl in Hterm.
  unfold run_mistake_review in Hrun.
  destruct (shuffle_spec mistakes w) as (sh & r & Hsh & Hperm).
  rewrite (bind_ok _ _ _ _ _ Hsh) in Hrun.
  inv_bind Hrun. unfold gets in E. injection E as <- <-.
  inv_bind Hrun. unfold ret in Hrun. injection Hrun as <- <- <-.
  split; [done|]. split; [|done].
  by eapply review_loop_result.
Qed.





(** ** The pool handed to the question generator *)

Lemma preserves_weaken {A} (R R' : relation World) (m : M A) :
  (forall w w', R w w' -> R' w w') -> preserves R m -> preserves R' m.
Proof. intros Hsub Hm w. apply Hsub, Hm. Qed.

#[local] Instance same_calls_preorder : PreOrder same_calls.
Proof.
  split; [by intros w|].
  intros w1 w2 w3 H1 H2. unfold same_calls in *. congruence.
Qed.

Lemma terminal_only_same_calls (w w' : World) : terminal_only w w' -> same_calls w w'.
Proof. by intros (_&_&_&_&_&?). Qed.

Lemma same_calls_with (pool : list row) (qt : string) (w w' : World) :
  same_calls w w' -> calls_with pool qt w w'.
Proof. intros Hc. exists []. by rewrite app_nil_r. Qed.

Lemma generate_question_world (item : row) (pool : list row) (qt : string) (w : World) :
  exists r,
    (generate_question item pool qt w).2 =
    set_rng r (set_calls (calls w ++ [mkGenCall item pool qt]) w).
Proof.
  unfold generate_question. unfold bind, modify, getitem, ret, raise.
  set (w1 := set_calls _ w).
  assert (exists r, w1 = set_rng r w1) as Hid
    by (exists (rng w1); by rewrite set_rng_same).
  assert (forall ot ans pr,
             exists r,
               (let (r0, w') := build_options pool ot ans w1 in
                match r0 with
                | Ok a => (Ok (pr : string, a), w')
                | Raise e => (Raise e, w')
                end).2 = set_rng r w1) as Hb.
  { intros ot ans pr. destruct (build_options_world pool ot ans w1) as [r Hr].
    exists r. by destruct (build_options pool ot ans w1) as [[o|e] w2]. }
  destruct (decide (qt = "jlpt"));
    [|destruct (decide (qt = "character"))].
  - destruct (item !! "Kana"); [|done].
    destruct (item !! "Kanji"); [|done].
    destruct (item !! "Meaning"); [|done]. apply Hb.
  - destruct (item !! "Character"); [|done].
    destruct (item !! "Correct Answer"); [|done]. apply Hb.
  - apply Hb.
Qed.

Lemma generate_question_calls (item : row) (pool : list row) (qt : string) :
  preserves (calls_with pool qt) (generate_question item pool qt).
Proof.
  intros w. destruct (generate_question_world item pool qt w) as [r ->].
  exists [mkGenCall item pool qt]. split; [done|]. by repeat constructor.
Qed.

Lemma add_mastered_vocab_same_calls (level kanji : string) :
  preserves same_calls (add_mastered_vocab level kanji).
Proof.
  intros w. rewrite add_mastered_vocab_unfold.
  assert (same_calls w (load_mastered_vocabs w).2) as Hl.
  { unfold load_mastered_vocabs, bind, gets, lift, create_progress_file, modify, ret.
    by destruct (progress_file w) as [[|? ?]|]. }
  destruct (load_mastered_vocabs w) as [[m|e] wa]; [|done].
  destruct (m !! level) as [s|]; [|done].
  by destruct (decide (kanji ∈ s)).
Qed.

Lemma add_mistake_same_calls (wd kn ca ua : string) :
  preserves same_calls (add_mistake wd kn ca ua).
Proof.
  intros w. destruct (mistake_file w) as [rows|] eqn:Hf.
  - by rewrite (add_mistake_spec _ _ _ _ _ _ Hf).
  - by rewrite (add_mistake_absent _ _ _ _ _ Hf).
Qed.

Lemma persist_mistakes_same_calls {T} `{MistakeShape T} (ms : list T) :
  preserves same_calls (persist_mistakes ms).
Proof.
  induction ms as [|m ms IH]; simpl.
  - apply preserves_ret; apply _.
  - apply preserves_bind; [apply _|apply add_mistake_same_calls|done].
Qed.

Lemma input_same_calls : preserves same_calls input.
Proof. intros w. unfold input. by destruct (stdin w). Qed.

Lemma character_quiz_loop_calls (fuel : nat) (quiz_content : list row) (q_no score : nat) :
  preserves (calls_with quiz_content "character")
    (character_quiz_loop fuel quiz_content q_no score).
Proof.
  revert q_no score. induction fuel as [|fuel IH]; intros q_no score; simpl.
  - apply preserves_raise; apply _.
  - repeat (preserves_step || preserves_pure || (by eauto with preserves)
            || apply generate_question_calls).
Qed.

Lemma jlpt_quiz_loop_calls (fuel : nat) (level : string) (quiz_content : list row)
    (q_no score : nat) (mistakes : list MistakeReview) :
  preserves (calls_with quiz_content "jlpt")
    (jlpt_quiz_loop fuel level quiz_content q_no score mistakes).
Proof.
  revert q_no score mistakes.
  induction fuel as [|fuel IH]; intros q_no score mistakes; simpl.
  - apply preserves_raise; apply _.
  - repeat (preserves_step || preserves_pure || (by eauto with preserves)
            || apply generate_question_calls
            || (eapply preserves_weaken;
                [apply same_calls_with|apply add_mastered_vocab_same_calls])).
Qed.

Lemma jlpt_quiz_summary_same_calls (all_vocabs quiz_content : list row) (score : nat)
    (mistakes : list MistakeReview) :
  preserves same_calls (jlpt_quiz_summary all_vocabs quiz_content score mistakes).
Proof.
  assert (forall o, preserves same_calls (print o)) as Hprint by (by intros o w).
  assert (forall v, preserves same_calls (get_user_choice v)) as Hchoice.
  { intros v. eapply preserves_weaken;
      [apply terminal_only_same_calls|apply get_user_choice_terminal]. }
  unfold jlpt_quiz_summary.
  repeat (preserves_step || apply Hprint || apply Hchoice
          || apply input_same_calls || apply persist_mistakes_same_calls
          || (eapply preserves_weaken;
              [apply terminal_only_same_calls|apply run_mistake_review_terminal])).
Qed.

Lemma sample_pool_spec {A} (k n : nat) (pool : list A) (w w' : World) (s : list A) :
  sample_pool k n pool w = (Ok s, w') ->
  length s = k /\ (forall x, x ∈ s -> x ∈ pool) /\ same_calls w w'.
Proof.
  revert n pool w s. induction k as [|k IH]; intros n pool w s; simpl.
  - unfold ret. intros [= <- <-]. split; [done|]. split; [|done].
    intros x Hx. by apply elem_of_nil in Hx.
  - intros Hrun. inv_bind Hrun.
    assert (same_calls w w0) as Hc0.
    { destruct (randbelow_spec n w) as (j & r & Hj). rewrite Hj in E.
      by injection E as _ <-. }
    destruct (pool !! a) as [x0|] eqn:Hx0; [|done].
    destruct (pool !! (n - 1)) as [b|] eqn:Hb; [|done].
    inv_bind Hrun. unfold ret in Hrun. injection Hrun as <- <-.
    destruct (IH _ _ _ _ E0) as (Hlen & Hin & Hc).
    split; [simpl; by rewrite Hlen|]. split; [|by etrans].
    intros x [->|Hx]%elem_of_cons.
    + by eapply list_elem_of_lookup_2.
    + apply Hin in Hx. apply list_elem_of_lookup in Hx as [i Hi].
      destruct (decide (i = a)) as [->|Hne].
      * rewrite list_lookup_insert_eq in Hi by (by eapply lookup_lt_Some).
        injection Hi as <-. by eapply list_elem_of_lookup_2.
      * rewrite list_lookup_insert_ne in Hi by done.
        by eapply list_elem_of_lookup_2.
Qed.

Lemma random_sample_spec {A} (population : list A) (k : nat) (w w' : World) (s : list A) :
  random_sample population k w = (Ok s, w') ->
  length s = k /\ (forall x, x ∈ s -> x ∈ population) /\ same_calls w w'.
Proof.
  unfold random_sample. case_decide; [|done]. apply sample_pool_spec.
Qed.

Local Ltac as_preserves :=
  match goal with
  | |- ?R ?w (?m ?w).2 =>
      let Hp := fresh in
      cut (preserves R m); [intros Hp; apply Hp|]
  end.

(** C3, as the code has it.  In both quizzes every call of
    [generate_question] made during a session is given the session's own
    sample of ten as its pool: the character quiz passes [quiz_content]
    exactly as the JLPT quiz does, not the full character file. *)
Theorem quiz_pool_is_sample (w : World) :
  (forall all_characters sample w1,
      character_file w = Some all_characters ->
      random_sample all_characters 10 w = (Ok sample, w1) ->
      length sample = 10 /\
      (forall x, x ∈ sample -> x ∈ all_characters) /\
      calls_with sample "character" w (run_character_quiz w).2) /\
  (forall level path all_vocabs sample w1,
      JLPT_FILES !! level = Some path ->
      jlpt_files w !! path = Some all_vocabs ->
      random_sample all_vocabs 10 w = (Ok sample, w1) ->
      length sample = 10 /\
      (forall x, x ∈ sample -> x ∈ all_vocabs) /\
      calls_with sample "jlpt" w (run_jlpt_quiz level w).2).
Proof.
  split.
  - intros all_characters sample w1 Hf Hs.
    destruct (random_sample_spec _ _ _ _ _ Hs) as (Hlen & Hin & Hc).
    split; [done|]. split; [done|].
    unfold run_character_quiz.
    rewrite (bind_ok _ _ _ _ _ (load_characters_present _ _ Hf)).
    rewrite (bind_ok _ _ _ _ _ Hs).
    etrans; [apply same_calls_with, Hc|].
    as_preserves.
    repeat (preserves_step || (by eauto with preserves)
            || apply character_quiz_loop_calls
            || (eapply preserves_weaken;
                [apply same_calls_with|apply input_same_calls])).
  - intros level path all_vocabs sample w1 Hl Hf Hs.
    destruct (random_sample_spec _ _ _ _ _ Hs) as (Hlen & Hin & Hc).
    split; [done|]. split; [done|].
    unfold run_jlpt_quiz.
    rewrite (bind_ok _ _ _ _ _ (load_jlpt_vocab_present _ _ _ _ Hl Hf)).
    rewrite (bind_ok _ _ _ _ _ Hs).
    etrans; [apply same_calls_with, Hc|].
    as_preserves.
    repeat (preserves_step || (by eauto with preserves)
            || apply jlpt_quiz_loop_calls
            || (eapply preserves_weaken;
                [apply same_calls_with|apply jlpt_quiz_summary_same_calls])).
Qed.

(** A character quiz over eleven characters: the one question asked was
    generated against the ten sampled characters. *)
Lemma quiz_pool_is_sample_witness :
  let sample := eleven_sample in
  length sample = 10 /\
  (forall x, x ∈ sample -> x ∈ eleven_characters) /\
  calls_with sample "character" eleven_world (run_character_quiz eleven_world).2.
Proof.
  intros sample.
  apply (proj1 (quiz_pool_is_sample eleven_world) eleven_characters sample
           (random_sample eleven_characters 10 eleven_world).2).
  - reflexivity.
  - vm_compute. reflexivity.
Defined.

(** C3 as stated fails: with eleven characters on file, the pool given to
    the generator in a character quiz is not the full character pool. *)
Lemma character_pool_counterexample :
  character_file eleven_world = Some eleven_characters /\
  exists c,
    c ∈ calls (run_character_quiz eleven_world).2 /\
    call_type c = "character" /\
    length (call_pool c) = 10 /\
    call_pool c ≠ eleven_characters.
Proof.
  split; [reflexivity|].
  eexists. split; [vm_compute; apply list_elem_of_here|].
  split; [reflexivity|]. split; [reflexivity|].
  intros Heq. apply (f_equal length) in Heq. vm_compute in Heq. discriminate.
Qed.

(** ** Writing mistakes back *)

Lemma update_existing_lookup (rows updated : list Mistake)
    (wd kn ca ua now : string) :
  update_existing rows wd kn ca ua now = Some updated ->
  length updated = length rows /\
  mistake_key <$> updated = mistake_key <$> rows /\
  (wd, kn) ∈ mistake_key <$> rows /\
  forall i,
    updated !! i = rows !! i \/
    exists m, rows !! i = Some m /\ mistake_key m = (wd, kn) /\
              updated !! i = Some (mkMistake (word m) (kana m) ca ua
                                             (mistake_count m + 1) now).
Proof.
  revert updated. induction rows as [|m0 rows IH]; intros updated; simpl; [done|].
  case_decide as Hk.
  - intros [= <-]. destruct Hk as [Hw Hkn]. simpl.
    split; [done|]. split; [done|]. split.
    + apply elem_of_cons. left. unfold mistake_key. simpl. by rewrite Hw, Hkn.
    + intros [|i]; [|by left]. right. exists m0. repeat split.
      unfold mistake_key. simpl. by rewrite Hw, Hkn.
  - destruct (update_existing rows wd kn ca ua now) as [u|] eqn:Hu; [|done].
    simpl. intros [= <-].
    destruct (IH u eq_refl) as (Hlen & Hkeys & Hin & Hlook).
    split; [simpl; by rewrite Hlen|].
    split; [rewrite !fmap_cons; by rewrite Hkeys|].
    split; [apply elem_of_cons; by right|].
    intros [|i]; [by left|]. apply Hlook.
Qed.

Lemma update_existing_None_inv (rows : list Mistake) (wd kn ca ua now : string) :
  update_existing rows wd kn ca ua now = None ->
  (wd, kn) ∉ mistake_key <$> rows.
Proof.
  induction rows as [|m0 rows IH]; simpl; [intros _; apply not_elem_of_nil|].
  case_decide as Hk; [done|].
  destruct (update_existing rows wd kn ca ua now) as [u|] eqn:Hu; [done|].
  intros _ [Heq|Hin]%elem_of_cons; [|by apply IH].
  apply Hk. unfold mistake_key in Heq. simpl in Heq. by injection Heq as -> ->.
Qed.

(** One [add_mistake]: rows with another key stay where they are, every row
    afterwards is an old row or carries the key, and the key is present. *)
Lemma upsert_rows (rows : list Mistake) (wd kn ca ua now : string) :
  (forall i m, rows !! i = Some m -> mistake_key m ≠ (wd, kn) ->
               upsert rows wd kn ca ua now !! i = Some m) /\
  (forall i m', upsert rows wd kn ca ua now !! i = Some m' ->
                rows !! i = Some m' \/ mistake_key m' = (wd, kn)) /\
  (forall k, k ∈ mistake_key <$> upsert rows wd kn ca ua now <->
             k ∈ mistake_key <$> rows \/ k = (wd, kn)).
Proof.
  unfold upsert.
  destruct (update_existing rows wd kn ca ua now) as [u|] eqn:Hu.
  - destruct (update_existing_lookup _ _ _ _ _ _ _ Hu) as (Hlen & Hkeys & Hin & Hlook).
    repeat split.
    + intros i m Hi Hne. destruct (Hlook i) as [->|(m1 & Hm1 & Hk1 & _)]; [done|].
      congruence.
    + intros i m' Hi. destruct (Hlook i) as [Heq|(m1 & Hm1 & Hk1 & Hup)].
      * left. congruence.
      * right. rewrite Hup in Hi. injection Hi as <-.
        unfold mistake_key in *. simpl in *. done.
    + rewrite Hkeys. by left.
    + rewrite Hkeys. intros [?| ->]; done.
  - apply update_existing_None_inv in Hu. repeat split.
    + intros i m Hi _. rewrite lookup_app_l; [done|]. by eapply lookup_lt_Some.
    + intros i m' Hi. apply lookup_app_Some in Hi as [Hi|[_ Hi]]; [by left|].
      right. apply list_lookup_singleton_Some in Hi as [_ <-]. done.
    + rewrite fmap_app. intros [?|Hk%list_elem_of_singleton]%elem_of_app; [by left|by right].
    + rewrite fmap_app. intros [?| ->]; apply elem_of_app; [by left|right].
      apply list_elem_of_singleton. done.
Qed.

Lemma drop_S_tail {A} (n : nat) (l : list A) : drop (S n) l = drop n (tail l).
Proof. destruct l; simpl; [by rewrite drop_nil|done]. Qed.

(** The loop of [add_mistake] calls, on an existing table. *)
Lemma persist_mistakes_spec {T} `{MistakeShape T} (ms : list T) (w : World)
    (rows : list Mistake) :
  mistake_file w = Some rows ->
  persist_mistakes ms w =
  (Ok tt, set_mistake_file (Some (persist_rows rows ms (clock w)))
            (set_clock (drop (length ms) (clock w)) w)).
Proof.
  revert w rows. induction ms as [|m ms IH]; intros w rows Hf; simpl.
  - unfold ret. f_equal. destruct w; simpl in *. by subst.
  - rewrite (bind_ok _ _ _ _ _ (add_mistake_spec _ _ _ _ _ _ Hf)).
    erewrite IH by (simpl; reflexivity). simpl. f_equal.
    unfold set_mistake_file, set_clock. simpl. f_equal.
    by rewrite drop_S_tail.
Qed.

Lemma persist_rows_spec {T} `{MistakeShape T} (ms : list T) (rows : list Mistake)
    (times : list string) :
  (forall i m, rows !! i = Some m -> mistake_key m ∉ mistake_key <$> ms ->
               persist_rows rows ms times !! i = Some m) /\
  (forall i m', persist_rows rows ms times !! i = Some m' ->
                rows !! i = Some m' \/ mistake_key m' ∈ mistake_key <$> ms) /\
  (forall k, k ∈ mistake_key <$> persist_rows rows ms times <->
             k ∈ mistake_key <$> rows \/ k ∈ mistake_key <$> ms).
Proof.
  revert rows times. induction ms as [|m ms IH]; intros rows times; simpl.
  - split; [|split].
    + by intros i m Hi _.
    + intros i m' Hi. by left.
    + intros k. split; [by left|].
      intros [?|Hk]; [done|]. by apply elem_of_nil in Hk.
  - destruct (upsert_rows rows (get_word m) (get_kana m) (get_correct_answer m)
                (get_user_answer m) (hd "" times)) as (Ha & Hb & Hc).
    destruct (IH (upsert rows (get_word m) (get_kana m) (get_correct_answer m)
                    (get_user_answer m) (hd "" times)) (tail times))
      as (IHa & IHb & IHc).
    split; [|split].
    + intros i m0 Hi Hnot. apply IHa.
      * apply Ha; [done|]. intros Heq. apply Hnot. apply elem_of_cons. by left.
      * intros Hin. apply Hnot. apply elem_of_cons. by right.
    + intros i m' Hi. destruct (IHb i m' Hi) as [Hold|Hin].
      * destruct (Hb i m' Hold) as [?|Hk]; [by left|].
        right. apply elem_of_cons. by left.
      * right. apply elem_of_cons. by right.
    + intros k. rewrite IHc, Hc. rewrite elem_of_cons.
      unfold mistake_key at 3. tauto.
Qed.

Lemma persist_rows_fresh {T} `{MistakeShape T} (ms : list T) (rows : list Mistake)
    (times : list string) :
  NoDup (mistake_key <$> ms) ->
  (forall k, k ∈ mistake_key <$> ms -> k ∉ mistake_key <$> rows) ->
  persist_rows rows ms times = rows ++ fresh_rows ms times.
Proof.
  revert rows times. induction ms as [|m ms IH]; intros rows times Hnd Hdis; simpl.
  - by rewrite app_nil_r.
  - rewrite fmap_cons in Hnd. apply NoDup_cons in Hnd as [Hm Hnd].
    unfold upsert. rewrite update_existing_none.
    + rewrite IH; [by rewrite <- app_assoc|done|].
      intros k Hk. rewrite fmap_app. intros [Hin|Hin%list_elem_of_singleton]%elem_of_app.
      * eapply Hdis; [|done]. rewrite fmap_cons. apply elem_of_cons. by right.
      * apply Hm. subst k. exact Hk.
    + intros m0 Hm0 Hk. eapply (Hdis (mistake_key m)).
      * rewrite fmap_cons. apply elem_of_cons. by left.
      * change (mistake_key m) with (get_word m, get_kana m).
        rewrite <- Hk. by apply list_elem_of_fmap_2.
Qed.

Lemma reset_mistakes_spec (w : World) :
  reset_mistakes w = (Ok true, set_mistake_file (Some []) w).
Proof. done. Qed.

(** The closing [input('Press Enter ...')] does not touch the table. *)
Lemma mistake_file_before_input {A} (m : M A) (w : World) :
  mistake_file ((m ;;; _ <- input ;; ret tt)%py w).2 = mistake_file (m w).2.
Proof.
  unfold bind. destruct (m w) as [[a|e] w1]; simpl; [|done].
  unfold input. by destruct (stdin w1).
Qed.

Lemma review_post_sublist {T} (l : list T) (res : nat * list T * bool) (w' : World) :
  review_post l 0 0 [] res w' -> res.1.2 `sublist_of` l.
Proof.
  destruct res as [[c rem] q]. intros (i & kept & _ & Hsub & -> & _ & Hq). simpl.
  rewrite Nat.sub_0_r in Hsub. simpl in Hsub.
  rewrite <- (take_drop i l) at 2.
  apply sublist_app; [done|]. destruct q; [done|apply sublist_nil_l].
Qed.

(** C7, as the code has it.  After a standalone practice that did not end
    in an early quit, the table holds exactly one row per remaining mistake,
    in order, with its word, kana and answers, and with its count restarted
    at 1: the table is emptied and every remaining mistake is added anew. *)
Theorem practice_restarts_counts (w w1 : World) (all_mistakes remaining shuffled : list Mistake)
    (all_vocab : list row) (cleared : nat) :
  mistake_file w = Some all_mistakes ->
  all_mistakes ≠ [] ->
  NoDup (mistake_key <$> all_mistakes) ->
  load_all_jlpt_vocab LEVELS [] w = (Ok all_vocab, w) ->
  run_mistake_review all_vocab "jlpt" all_mistakes w
    = (Ok (cleared, remaining, false, shuffled), w1) ->
  shuffled ≡ₚ all_mistakes /\
  remaining `sublist_of` shuffled /\
  mistake_file (run_mistake_practice w).2 = Some (fresh_rows remaining (clock w)) /\
  (forall m, m ∈ fresh_rows remaining (clock w) -> mistake_count m = 1%Z) /\
  mistake_key <$> fresh_rows remaining (clock w) = mistake_key <$> remaining.
Proof.
  intros Hf Hne Hnd Hload Hrev.
  destruct (run_mistake_review_result _ _ _ _ _ _ _ _ _ Hrev) as (Hperm & Hpost & Hterm).
  pose proof (review_post_sublist _ _ _ Hpost) as Hsub. simpl in Hsub.
  split; [done|]. split; [done|]. split; [|split].
  - unfold run_mistake_practice.
    rewrite (bind_ok _ _ _ _ _ (load_mistakes_present _ _ Hf)).
    destruct all_mistakes as [|m0 rest]; [done|].
    rewrite (bind_ok _ _ _ _ _ Hload), (bind_ok _ _ _ _ _ Hrev).
    rewrite mistake_file_before_input.
    rewrite (bind_ok _ _ _ _ _ (reset_mistakes_spec w1)).
    erewrite bind_ok by (by apply persist_mistakes_spec).
    simpl. destruct Hterm as (_ & _ & _ & _ & -> & _).
    rewrite persist_rows_fresh; [done| |].
    + apply (sublist_NoDup _ (mistake_key <$> shuffled));
        [by rewrite Hperm|by apply fmap_sublist].
    + intros k _ Hk. by apply elem_of_nil in Hk.
  - generalize (clock w). clear.
    induction remaining as [|m ms IH]; intros times x Hx; simpl in *.
    + by apply elem_of_nil in Hx.
    + apply elem_of_cons in Hx as [->|Hx]; [done|]. by eapply IH.
  - generalize (clock w). clear. induction remaining as [|m ms IH]; intros times; simpl.
    + done.
    + f_equal. apply IH.
Qed.

(** A practice over one stored mistake, answered wrongly again. *)
Lemma practice_restarts_counts_witness :
  [mistake_inu] ≡ₚ [mistake_inu] /\
  [mistake_inu] `sublist_of` [mistake_inu] /\
  mistake_file (run_mistake_practice practice_world).2 =
    Some (fresh_rows [mistake_inu] ["25-06-01 12:00:00"]) /\
  (forall m, m ∈ fresh_rows [mistake_inu] ["25-06-01 12:00:00"] -> mistake_count m = 1%Z) /\
  mistake_key <$> fresh_rows [mistake_inu] ["25-06-01 12:00:00"] =
    mistake_key <$> [mistake_inu].
Proof.
  apply (practice_restarts_counts practice_world
           (run_mistake_review nine_vocabs "jlpt" [mistake_inu] practice_world).2
           [mistake_inu] [mistake_inu] [mistake_inu] nine_vocabs 0).
  - reflexivity.
  - discriminate.
  - apply NoDup_singleton.
  - vm_compute. reflexivity.
  - vm_compute. reflexivity.
Defined.

(** C7 as stated fails: a mistake stored with count 3 and missed again in a
    practice that runs to its end is written back with count 1. *)
Lemma practice_count_counterexample :
  mistake_file practice_world = Some [mistake_inu] /\
  mistake_count mistake_inu = 3%Z /\
  (run_mistake_practice practice_world).1 = Ok tt /\
  stdout (run_mistake_practice practice_world).2 =
    [OutReviewQuestion 0 "inu" ["eight"; "nine"; "one"; "dog"];
     OutReviewSummary 0 1; OutPracticeSummary 0 1 1] /\
  mistake_file (run_mistake_practice practice_world).2 =
    Some [mkMistake "inu" "いぬ" "dog" "cat" 1 "25-06-01 12:00:00"].
Proof. repeat split; vm_compute; reflexivity. Qed.

(** C8, as the code has it.  When the review offered at the end of a quiz is
    accepted, the mistakes written to the table are the remaining ones if
    the review ran to its end, and all of the session's mistakes (cleared
    ones included) if it was quit early.  Rows with other keys stay where
    they are, every row of the new table is an old row or carries a written
    key, and every written mistake has a row. *)
Theorem inline_review_persists (all_vocabs quiz_content : list row) (score : nat)
    (mistakes updated shuffled : list MistakeReview) (w w1 w2 : World)
    (rows : list Mistake) (cleared : nat) (quit : bool) :
  mistakes ≠ [] ->
  mistake_file w = Some rows ->
  get_user_choice YES_NO (print (OutQuizSummary score (length quiz_content)) w).2
    = (Ok "Y", w1) ->
  run_mistake_review all_vocabs "jlpt" mistakes w1
    = (Ok (cleared, updated, quit, shuffled), w2) ->
  let written := if quit then shuffled else updated in
  shuffled ≡ₚ mistakes /\
  updated `sublist_of` shuffled /\
  exists rows',
    mistake_file (jlpt_quiz_summary all_vocabs quiz_content score mistakes w).2
      = Some rows' /\
    rows' = persist_rows rows written (clock w) /\
    (forall i m, rows !! i = Some m ->
                 mistake_key m ∉ mistake_key <$> written -> rows' !! i = Some m) /\
    (forall i m', rows' !! i = Some m' ->
                  rows !! i = Some m' \/ mistake_key m' ∈ mistake_key <$> written) /\
    (forall k, k ∈ mistake_key <$> rows' <->
               k ∈ mistake_key <$> rows \/ k ∈ mistake_key <$> written).
Proof.
  intros Hne Hf Hchoice Hrev written.
  destruct (run_mistake_review_result _ _ _ _ _ _ _ _ _ Hrev) as (Hperm & Hpost & Hterm).
  pose proof (review_post_sublist _ _ _ Hpost) as Hsub. simpl in Hsub.
  split; [done|]. split; [done|].
  exists (persist_rows rows written (clock w)).
  split; [|split; [done|apply persist_rows_spec]].
  pose proof (get_user_choice_terminal YES_NO
                (print (OutQuizSummary score (length quiz_content)) w).2) as Hterm1.
  rewrite Hchoice in Hterm1. simpl in Hterm1.
  assert (mistake_file w2 = Some rows /\ clock w2 = clock w) as [Hf2 Hc2].
  { destruct Hterm as (_ & _ & -> & _ & -> & _).
    destruct Hterm1 as (_ & _ & -> & _ & -> & _). done. }
  unfold jlpt_quiz_summary.
  erewrite bind_ok by reflexivity.
  rewrite mistake_file_before_input.
  destruct mistakes as [|m0 rest]; [done|].
  rewrite (bind_ok _ _ _ _ _ Hchoice). simpl.
  rewrite (bind_ok _ _ _ _ _ Hrev).
  subst written. destruct quit.
  - erewrite bind_ok by reflexivity.
    erewrite persist_mistakes_spec by exact Hf2. simpl. by rewrite Hc2.
  - destruct updated as [|u0 us].
    + simpl. done.
    + erewrite persist_mistakes_spec by exact Hf2. simpl. by rewrite Hc2.
Qed.

(** The end of a quiz with five mistakes, the review abandoned at its
    second question. *)
Lemma inline_review_persists_witness :
  let shuffled := review_mistake <$> ["4"; "5"; "2"; "1"; "3"] in
  let updated := review_mistake <$> ["5"; "2"; "1"; "3"] in
  shuffled ≡ₚ five_mistakes /\
  updated `sublist_of` shuffled /\
  exists rows',
    mistake_file (jlpt_quiz_summary review_pool review_pool 5 five_mistakes inline_world).2
      = Some rows' /\
    rows' = persist_rows [mistake_inu] shuffled [] /\
    (forall i m, [mistake_inu] !! i = Some m ->
                 mistake_key m ∉ mistake_key <$> shuffled -> rows' !! i = Some m) /\
    (forall i m', rows' !! i = Some m' ->
                  [mistake_inu] !! i = Some m' \/ mistake_key m' ∈ mistake_key <$> shuffled) /\
    (forall k, k ∈ mistake_key <$> rows' <->
               k ∈ mistake_key <$> [mistake_inu] \/ k ∈ mistake_key <$> shuffled).
Proof.
  intros shuffled updated.
  apply (inline_review_persists review_pool review_pool 5 five_mistakes updated shuffled
           inline_world
           (get_user_choice YES_NO (print (OutQuizSummary 5 8) inline_world).2).2
           (run_mistake_review review_pool "jlpt" five_mistakes
              (get_user_choice YES_NO (print (OutQuizSummary 5 8) inline_world).2).2).2
           [mistake_inu] 1 true).
  - discriminate.
  - reflexivity.
  - vm_compute. reflexivity.
  - vm_compute. reflexivity.
Defined.

(** C8 as stated fails: the review cleared the mistake on "w4" and was then
    quit; the table afterwards has a row for "w4" all the same. *)
Lemma inline_quit_counterexample :
  let w1 := (get_user_choice YES_NO (print (OutQuizSummary 5 8) inline_world).2).2 in
  (run_mistake_review review_pool "jlpt" five_mistakes w1).1 =
    Ok (1, review_mistake <$> ["5"; "2"; "1"; "3"], true,
        review_mistake <$> ["4"; "5"; "2"; "1"; "3"]) /\
  (review_mistake "4" ∉ review_mistake <$> ["5"; "2"; "1"; "3"]) /\
  mistake_file inline_world = Some [mistake_inu] /\
  word <$> default []
    (mistake_file (jlpt_quiz_summary review_pool review_pool 5 five_mistakes inline_world).2)
    = ["inu"; "w4"; "w5"; "w2"; "w1"; "w3"].
Proof.
  intros w1. split; [vm_compute; reflexivity|]. split; [|split].
  - intros Hin. apply list_elem_of_fmap in Hin as (n & Heq & Hn).
    injection Heq as Heq _ _.
    repeat (apply elem_of_cons in Hn as [->|Hn]; [discriminate|]).
    by apply elem_of_nil in Hn.
  - reflexivity.
  - vm_compute. reflexivity.
Qed.

(** ** The loops never run out of fuel

    Every iteration of a session loop that does not return reads at least
    one line, and the loops are started with more fuel than there are
    lines. *)

#[local] Instance stdin_le_preorder : PreOrder stdin_le.
Proof.
  split; [intros w; unfold stdin_le; lia|].
  intros w1 w2 w3 H1 H2. unfold stdin_le in *. lia.
Qed.

Lemma never_bind {A B} (m : M A) (k : A -> M B) :
  never_out_of_fuel m -> (forall a, never_out_of_fuel (k a)) ->
  never_out_of_fuel (bind m k).
Proof.
  intros Hm Hk w. unfold bind. specialize (Hm w).
  destruct (m w) as [[a|e] w1]; simpl in *; [apply Hk|].
  intros [= ->]. by apply Hm.
Qed.

Lemma never_ret {A} (a : A) : never_out_of_fuel (ret a).
Proof. by intros w. Qed.

Lemma never_raise {A} (e : exn) : e ≠ OutOfFuel -> never_out_of_fuel (raise (A:=A) e).
Proof. intros He w. simpl. congruence. Qed.

Lemma never_gets {A} (f : World -> A) : never_out_of_fuel (gets f).
Proof. by intros w. Qed.

Lemma never_modify (f : World -> World) : never_out_of_fuel (modify f).
Proof. by intros w. Qed.

Lemma never_print (o : Output) : never_out_of_fuel (print o).
Proof. by intros w. Qed.

Lemma never_input : never_out_of_fuel input.
Proof. intros w. unfold input. by destruct (stdin w). Qed.

Lemma never_get_user_choice (valid : list string) :
  never_out_of_fuel (get_user_choice valid).
Proof.
  intros w. destruct (get_user_choice_spec valid w) as (n & rest & _ & Hr).
  destruct (get_user_choice valid w).1; [done|]. destruct Hr as [-> _]. done.
Qed.

Lemma never_build_options (pool : list row) (ot ans : string) :
  never_out_of_fuel (build_options pool ot ans).
Proof.
  intros w. pose proof (build_options_spec pool ot ans w) as Hb.
  destruct (answers pool ot).
  - by destruct Hb as (o & sh & r & -> & _).
  - by rewrite Hb.
Qed.

Lemma never_shuffle {A} (x : list A) : never_out_of_fuel (shuffle x).
Proof. intros w. by destruct (shuffle_spec x w) as (y & r & -> & _). Qed.

Local Ltac never_step :=
  match goal with
  | |- never_out_of_fuel (bind _ _) => apply never_bind; [|intros ?]
  | |- never_out_of_fuel (ret _) => apply never_ret
  | |- never_out_of_fuel (raise _) => by apply never_raise
  | |- never_out_of_fuel (gets _) => apply never_gets
  | |- never_out_of_fuel (modify _) => apply never_modify
  | |- never_out_of_fuel (print _) => apply never_print
  | |- never_out_of_fuel input => apply never_input
  | |- never_out_of_fuel (get_user_choice _) => apply never_get_user_choice
  | |- never_out_of_fuel (build_options _ _ _) => apply never_build_options
  | |- never_out_of_fuel (shuffle _) => apply never_shuffle
  | |- never_out_of_fuel (if decide ?P then _ else _) => destruct (decide P)
  | |- never_out_of_fuel (match ?x with _ => _ end) => destruct x
  end.

Lemma never_getitem (content : row) (k : string) : never_out_of_fuel (getitem content k).
Proof. unfold getitem. repeat never_step. Qed.

Lemma never_list_getitem {A} (l : list A) (i : Z) : never_out_of_fuel (list_getitem l i).
Proof. unfold list_getitem. repeat never_step. Qed.

Lemma never_choice_index_of (c : string) : never_out_of_fuel (choice_index_of c).
Proof. unfold choice_index_of, ord. repeat never_step. Qed.

Lemma never_get_correct_answer_index (options : list string) (ans : string) :
  never_out_of_fuel (get_correct_answer_index options ans).
Proof. unfold get_correct_answer_index. repeat never_step. Qed.

Lemma never_generate_question (item : row) (pool : list row) (qt : string) :
  never_out_of_fuel (generate_question item pool qt).
Proof.
  unfold generate_question.
  repeat (never_step || apply never_getitem).
Qed.

Lemma never_load_mistakes : never_out_of_fuel load_mistakes.
Proof. unfold load_mistakes. repeat never_step. Qed.

Lemma never_add_mistake (wd kn ca ua : string) :
  never_out_of_fuel (add_mistake wd kn ca ua).
Proof.
  unfold add_mistake. repeat (never_step || apply never_load_mistakes).
  intros w. rewrite strftime_now_spec. done.
Qed.

Lemma never_persist_mistakes {T} `{MistakeShape T} (ms : list T) :
  never_out_of_fuel (persist_mistakes ms).
Proof.
  induction ms as [|m ms IH]; simpl; repeat (never_step || apply never_add_mistake).
  done.
Qed.

Lemma never_add_mastered_vocab (level kanji : string) :
  never_out_of_fuel (add_mastered_vocab level kanji).
Proof.
  intros w. rewrite add_mastered_vocab_unfold.
  unfold load_mastered_vocabs, bind, gets, lift, create_progress_file, modify, ret, raise.
  destruct (progress_file w) as [[|header lines]|]; simpl; [done| |].
  - destruct (read_progress_lines lines default_mastery) as [m|e] eqn:Hr; simpl.
    + destruct (m !! level) as [s|]; [|done]. by destruct (decide (kanji ∈ s)).
    + intros [= ->]. clear -Hr.
      assert (forall lines m, read_progress_lines lines m ≠ Raise OutOfFuel) as Hno.
      { clear. induction lines as [|line lines IH]; intros m; simpl; [done|].
        destruct line as [|level [|v vs]]; [apply IH..|].
        destruct (add_vocabs level (v :: vs) m) as [m1|e] eqn:Ha; [apply IH|].
        intros [= ->]. revert m Ha. generalize (v :: vs). clear.
        induction l as [|x l IH]; intros m; simpl; [done|].
        destruct (truthy (strip x)); [|apply IH].
        destruct (m !! level); [apply IH|done]. }
      by eapply Hno.
  - destruct (default_mastery !! level) as [s|]; [|done].
    by destruct (decide (kanji ∈ s)).
Qed.

Lemma print_stdin (o : Output) : preserves stdin_le (print o).
Proof. intros w. unfold stdin_le. simpl. lia. Qed.

Lemma build_options_stdin (pool : list row) (ot ans : string) :
  preserves stdin_le (build_options pool ot ans).
Proof.
  intros w. destruct (build_options_world pool ot ans w) as [r ->].
  unfold stdin_le. simpl. lia.
Qed.

Lemma generate_question_stdin (item : row) (pool : list row) (qt : string) :
  preserves stdin_le (generate_question item pool qt).
Proof.
  intros w. destruct (generate_question_world item pool qt w) as [r ->].
  unfold stdin_le. simpl. lia.
Qed.

Lemma add_mastered_vocab_stdin (level kanji : string) :
  preserves stdin_le (add_mastered_vocab level kanji).
Proof.
  intros w. rewrite add_mastered_vocab_unfold.
  assert (stdin (load_mastered_vocabs w).2 = stdin w) as Hl.
  { unfold load_mastered_vocabs, bind, gets, lift, create_progress_file, modify, ret.
    by destruct (progress_file w) as [[|? ?]|]. }
  unfold stdin_le.
  destruct (load_mastered_vocabs w) as [[m|e] wa]; simpl in *; [|by rewrite Hl].
  destruct (m !! level) as [s|]; simpl; [|by rewrite Hl].
  destruct (decide (kanji ∈ s)); simpl; by rewrite Hl.
Qed.

Lemma fuel_safe_mono {A} (n n' : nat) (m : M A) :
  n' <= n -> fuel_safe n m -> fuel_safe n' m.
Proof. intros Hle Hm w Hw. apply Hm. lia. Qed.

Lemma fuel_safe_never {A} (n : nat) (m : M A) : never_out_of_fuel m -> fuel_safe n m.
Proof. intros Hm w _. apply Hm. Qed.

Lemma fuel_safe_bind {A B} (n : nat) (m : M A) (k : A -> M B) :
  never_out_of_fuel m -> preserves stdin_le m ->
  (forall a, fuel_safe n (k a)) -> fuel_safe n (bind m k).
Proof.
  intros Hm Hs Hk w Hw. unfold bind. specialize (Hm w). specialize (Hs w).
  destruct (m w) as [[a|e] w1]; simpl in *.
  - apply Hk. unfold stdin_le in Hs. lia.
  - intros [= ->]. by apply Hm.
Qed.

(** After a choice was read, one line fewer is left. *)
Lemma fuel_safe_choice {B} (n : nat) (valid : list string) (k : string -> M B) :
  (forall n' c, n = S n' -> fuel_safe n' (k c)) ->
  fuel_safe n (bind (get_user_choice valid) k).
Proof.
  intros Hk w Hw. unfold bind.
  destruct (get_user_choice_spec valid w) as (i & rest & Hw' & Hr).
  destruct (get_user_choice valid w) as [[c|e] w1]; simpl in *.
  - destruct Hr as [_ Hlen]. destruct n as [|n']; [lia|].
    apply (Hk n' c eq_refl). subst w1. simpl. lia.
  - destruct Hr as [-> _]. done.
Qed.

Local Ltac fuel_step :=
  match goal with
  | |- fuel_safe _ (bind (get_user_choice _) _) =>
      apply fuel_safe_choice; intros ? ? ?
  | |- fuel_safe _ (bind _ _) =>
      apply fuel_safe_bind;
      [ repeat (never_step || apply never_getitem || apply never_list_getitem
                || apply never_choice_index_of || apply never_get_correct_answer_index
                || apply never_generate_question || apply never_add_mastered_vocab)
      | first [ apply print_stdin | apply build_options_stdin
              | apply generate_question_stdin | apply add_mastered_vocab_stdin
              | preserves_pure | (repeat preserves_step) ]
      | intros ? ]
  | |- fuel_safe _ (ret _) => apply fuel_safe_never, never_ret
  | |- fuel_safe _ (raise _) => by apply fuel_safe_never, never_raise
  | |- fuel_safe _ (if decide ?P then _ else _) => destruct (decide P)
  | |- fuel_safe _ (match ?x with _ => _ end) => destruct x
  end.

Local Ltac fuel_rec Hrec :=
  subst; first [ apply Hrec; reflexivity
               | eapply fuel_safe_mono; [|apply Hrec; reflexivity]; lia ].

Lemma review_loop_body_fuel {T} `{MistakeShape T} (n : nat) (all_content : list row)
    (quiz_type : string) (mistakes_list : list T) :
  (forall n' q_no cleared remaining,
      n = S n' ->
      fuel_safe n' (review_loop n all_content quiz_type mistakes_list
                                q_no cleared remaining)) ->
  forall q_no cleared remaining,
    fuel_safe n (review_loop (S n) all_content quiz_type mistakes_list
                             q_no cleared remaining).
Proof.
  intros Hrec q_no cleared remaining. simpl.
  repeat (fuel_step || fuel_rec Hrec).
Qed.

Lemma review_loop_fuel {T} `{MistakeShape T} (n : nat) (all_content : list row)
    (quiz_type : string) (mistakes_list : list T) (q_no cleared : nat)
    (remaining : list T) :
  fuel_safe n (review_loop (S n) all_content quiz_type mistakes_list
                           q_no cleared remaining).
Proof.
  revert q_no cleared remaining. induction n as [|n IH].
  - apply review_loop_body_fuel. by intros n' ???.
  - apply review_loop_body_fuel. intros n' ??? [= <-]. apply IH.
Qed.

(** With the fuel [run_mistake_review] supplies, the review never stops for
    lack of it. *)
Lemma run_mistake_review_fuel {T} `{MistakeShape T} (all_content : list row)
    (quiz_type : string) (mistakes_list : list T) :
  never_out_of_fuel (run_mistake_review all_content quiz_type mistakes_list).
Proof.
  intros w. unfold run_mistake_review.
  destruct (shuffle_spec mistakes_list w) as (sh & r & Hsh & _).
  rewrite (bind_ok _ _ _ _ _ Hsh).
  erewrite bind_ok by reflexivity.
  set (w1 := set_rng r w).
  pose proof (review_loop_fuel (length (stdin w1)) all_content quiz_type sh 0 0 []
                w1 (le_n _)) as Hf.
  unfold bind, ret.
  destruct (review_loop _ _ _ _ _ _ _ w1) as [[res|e] w2]; simpl in *; [done|].
  intros [= ->]. by apply Hf.
Qed.

Lemma jlpt_quiz_loop_body_fuel (n : nat) (level : string) (quiz_content : list row) :
  (forall n' q_no score mistakes,
      n = S n' ->
      fuel_safe n' (jlpt_quiz_loop n level quiz_content q_no score mistakes)) ->
  forall q_no score mistakes,
    fuel_safe n (jlpt_quiz_loop (S n) level quiz_content q_no score mistakes).
Proof.
  intros Hrec q_no score mistakes. simpl.
  repeat (fuel_step || fuel_rec Hrec).
Qed.

Lemma jlpt_quiz_loop_fuel (n : nat) (level : string) (quiz_content : list row)
    (q_no score : nat) (mistakes : list MistakeReview) :
  fuel_safe n (jlpt_quiz_loop (S n) level quiz_content q_no score mistakes).
Proof.
  revert q_no score mistakes. induction n as [|n IH].
  - apply jlpt_quiz_loop_body_fuel. by intros n' ???.
  - apply jlpt_quiz_loop_body_fuel. intros n' ??? [= <-]. apply IH.
Qed.

Lemma character_quiz_loop_body_fuel (n : nat) (quiz_content : list row) :
  (forall n' q_no score,
      n = S n' -> fuel_safe n' (character_quiz_loop n quiz_content q_no score)) ->
  forall q_no score,
    fuel_safe n (character_quiz_loop (S n) quiz_content q_no score).
Proof.
  intros Hrec q_no score. simpl.
  repeat (fuel_step || fuel_rec Hrec).
Qed.

Lemma character_quiz_loop_fuel (n : nat) (quiz_content : list row) (q_no score : nat) :
  fuel_safe n (character_quiz_loop (S n) quiz_content q_no score).
Proof.
  revert q_no score. induction n as [|n IH].
  - apply character_quiz_loop_body_fuel. by intros n' ??.
  - apply character_quiz_loop_body_fuel. intros n' ?? [= <-]. apply IH.
Qed.

(** A loop started with one unit of fuel more than there are lines. *)
Lemma never_with_fuel {A B} (loop : nat -> M A) (k : A -> M B) :
  (forall n, fuel_safe n (loop (S n))) ->
  (forall a, never_out_of_fuel (k a)) ->
  never_out_of_fuel (lines <- gets stdin ;; r <- loop (S (length lines)) ;; k r).
Proof.
  intros Hloop Hk w. unfold bind, gets.
  pose proof (Hloop (length (stdin w)) w (le_n _)) as Hf.
  destruct (loop (S (length (stdin w))) w) as [[a|e] w1]; simpl in *; [apply Hk|].
  intros [= ->]. by apply Hf.
Qed.

Lemma never_sample_pool {A} (k n : nat) (pool : list A) :
  never_out_of_fuel (sample_pool k n pool).
Proof.
  revert n pool. induction k as [|k IH]; intros n pool; simpl; [apply never_ret|].
  apply never_bind.
  - intros w. by destruct (randbelow_spec n w) as (j & r & ->).
  - intros j. destruct (pool !! j); [|by apply never_raise].
    destruct (pool !! (n - 1)); [|by apply never_raise].
    apply never_bind; [apply IH|intros ?; apply never_ret].
Qed.

Lemma never_random_sample {A} (population : list A) (k : nat) :
  never_out_of_fuel (random_sample population k).
Proof.
  unfold random_sample. case_decide; [apply never_sample_pool|by apply never_raise].
Qed.

Lemma never_load_jlpt_vocab (level : string) : never_out_of_fuel (load_jlpt_vocab level).
Proof. unfold load_jlpt_vocab. repeat never_step. Qed.

Lemma never_jlpt_quiz_summary (all_vocabs quiz_content : list row) (score : nat)
    (mistakes : list MistakeReview) :
  never_out_of_fuel (jlpt_quiz_summary all_vocabs quiz_content score mistakes).
Proof.
  unfold jlpt_quiz_summary.
  apply never_bind; [apply never_print|intros _].
  apply never_bind; [|intros _; repeat never_step].
  destruct mistakes as [|m ms]; [apply never_ret|].
  apply never_bind; [apply never_get_user_choice|intros c].
  destruct (decide (c = "Y")).
  - apply never_bind; [apply run_mistake_review_fuel|intros [[[cl up] q] sh]].
    destruct q.
    + apply never_bind; [apply never_print|intros _; apply never_persist_mistakes].
    + destruct up; [apply never_print|apply never_persist_mistakes].
  - destruct (decide (c = "N")); [|apply never_ret].
    apply never_bind; [apply never_print|intros _; apply never_persist_mistakes].
Qed.

Lemma never_reset_mistakes : never_out_of_fuel reset_mistakes.
Proof. intros w. by rewrite reset_mistakes_spec. Qed.

(** None of the sessions ever stops for lack of fuel. *)
Lemma sessions_never_out_of_fuel :
  (forall level, never_out_of_fuel (run_jlpt_quiz level)) /\
  never_out_of_fuel run_character_quiz /\
  never_out_of_fuel run_mistake_practice.
Proof.
  split; [|split].
  - intros level. unfold run_jlpt_quiz.
    apply never_bind; [apply never_load_jlpt_vocab|intros [all_vocabs|]];
      [|by apply never_raise].
    apply never_bind; [apply never_random_sample|intros quiz_content].
    apply never_bind; [apply never_print|intros _].
    apply (never_with_fuel (fun f => jlpt_quiz_loop f level quiz_content 0 0 []));
      [intros n; apply jlpt_quiz_loop_fuel|].
    intros [[score mistakes]|]; [apply never_jlpt_quiz_summary|apply never_ret].
  - unfold run_character_quiz.
    apply never_bind; [unfold load_characters; repeat never_step|intros [all|]];
      [|by apply never_raise].
    apply never_bind; [apply never_random_sample|intros quiz_content].
    apply never_bind; [apply never_print|intros _].
    apply (never_with_fuel (fun f => character_quiz_loop f quiz_content 0 0));
      [intros n; apply character_quiz_loop_fuel|].
    intros [score|]; repeat never_step.
  - unfold run_mistake_practice.
    assert (forall levels acc, never_out_of_fuel (load_all_jlpt_vocab levels acc)) as Hall.
    { induction levels as [|l ls IH]; intros acc; simpl; [apply never_ret|].
      apply never_bind; [apply never_load_jlpt_vocab|].
      intros [v|]; [apply IH|by apply never_raise]. }
    apply never_bind; [apply never_load_mistakes|intros [[|m0 rest]|]];
      [repeat never_step| |repeat never_step].
    apply never_bind; [apply Hall|intros all_jlpt_vocab].
    apply never_bind; [apply run_mistake_review_fuel|intros [[[cl rem] q] sh]].
    apply never_bind; [|intros _; repeat never_step].
    destruct q; [apply never_print|].
    apply never_bind; [apply never_reset_mistakes|intros _].
    apply never_bind; [apply never_persist_mistakes|intros _; apply never_print].
Qed.

(** * Further properties of the code *)

(** ** ui_handler.get_user_choice *)

Lemma read_choice_first_valid (valid lines : list string) :
  match read_choice valid lines with
  | (Ok c, rest, n) =>
      exists skipped line,
        lines = skipped ++ line :: rest /\
        Forall (fun l => upper (strip l) ∉ valid) skipped /\
        c = upper (strip line) /\ c ∈ valid /\ n = length skipped
  | (Raise e, rest, n) =>
      e = EOFError /\ rest = [] /\ n = length lines /\
      Forall (fun l => upper (strip l) ∉ valid) lines
  end.
Proof.
  induction lines as [|l lines IH]; simpl; [done|].
  case_decide as Hv.
  - exists [], l. done.
  - destruct (read_choice valid lines) as [[[c|e] rest] n].
    + destruct IH as (skipped & line & -> & Hsk & -> & Hc & ->).
      exists (l :: skipped), line. repeat split; [by constructor|done].
    + destruct IH as (-> & -> & -> & Hall). repeat split. by constructor.
Qed.

(** X1.  [get_user_choice] answers the first line that, trimmed and
    upper-cased, is one of the upper-cased options, and answers it in that
    form; every line before it was rejected and cost one 'Invalid choice'
    notice; the lines after it are left unread.  When no line qualifies, all
    of them are consumed and the call ends in [EOFError]. *)
Theorem get_user_choice_first_valid (valid : list string) (w : World) :
  match get_user_choice valid w with
  | (Ok c, w') =>
      exists skipped line,
        stdin w = skipped ++ line :: stdin w' /\
        Forall (rejected valid) skipped /\
        c = upper (strip line) /\
        c ∈ upper <$> valid /\
        stdout w' = stdout w ++ replicate (length skipped) OutInvalidChoice
  | (Raise e, w') =>
      e = EOFError /\
      Forall (rejected valid) (stdin w) /\
      stdin w' = [] /\
      stdout w' = stdout w ++ replicate (length (stdin w)) OutInvalidChoice
  end.
Proof.
  unfold get_user_choice.
  pose proof (read_choice_first_valid (upper <$> valid) (stdin w)) as Hr.
  destruct (read_choice (upper <$> valid) (stdin w)) as [[[c|e] rest] n].
  - destruct Hr as (skipped & line & Hl & Hsk & -> & Hc & ->).
    exists skipped, line. by rewrite Hl.
  - destruct Hr as (-> & -> & -> & Hall). done.
Qed.

(** ** quiz_manager.get_correct_answer_index *)

(** A successful [generate_question] ran [build_options] on the item's
    answer and column, right after logging the call. *)
Lemma generate_question_inv (item : row) (pool : list row) (qt : string)
    (w w' : World) (prompt : string) (options : list string) :
  generate_question item pool qt w = (Ok (prompt, options), w') ->
  exists ans,
    correct_answer_of qt item = Some ans /\
    Forall (fun k => is_Some (item !! k)) (item_fields qt) /\
    build_options pool (answer_field qt) ans
      (set_calls (calls w ++ [mkGenCall item pool qt]) w) = (Ok options, w').
Proof.
  unfold generate_question, correct_answer_of, answer_field, item_fields.
  unfold bind, modify, getitem, ret, raise.
  set (w1 := set_calls _ w).
  destruct (decide (qt = "jlpt")) as [Hj|Hj];
    [|destruct (decide (qt = "character")) as [Hc|Hc]].
  - destruct (item !! "Kana") as [kana|] eqn:Hkana; [|done].
    destruct (item !! "Kanji") as [kanji|] eqn:Hkanji; [|done].
    destruct (item !! "Meaning") as [ans|] eqn:Hans; [|done].
    destruct (build_options pool "Meaning" ans w1) as [[opts|err] w2] eqn:Hb;
      [|done].
    intros Hx. injection Hx as _ <- <-. exists ans. split; [done|].
    split; [|done]. repeat constructor; eauto.
  - destruct (item !! "Character") as [ch|] eqn:Hch; [|done].
    destruct (item !! "Correct Answer") as [ans|] eqn:Hans; [|done].
    destruct (build_options pool "Correct Answer" ans w1) as [[opts|err] w2] eqn:Hb;
      [|done].
    intros Hx. injection Hx as _ <- <-. exists ans. split; [done|].
    split; [|done]. repeat constructor; eauto.
  - destruct (build_options pool "" "" w1) as [[opts|err] w2] eqn:Hb; [|done].
    intros Hx. injection Hx as _ <- <-. by exists "".
Qed.

(** What the options of a successful [build_options] are made of. *)
Lemma build_options_inv (pool : list row) (ot ans : string) (w w' : World)
    (options : list string) :
  build_options pool ot ans w = (Ok options, w') ->
  exists vs sh,
    answers pool ot = Some vs /\
    sh ≡ₚ filter (fun v => v ≠ ans) vs /\
    options ≡ₚ ans :: last3 sh /\
    (exists r, w' = set_rng r w).
Proof.
  intros Hb. pose proof (build_options_spec pool ot ans w) as Hs.
  destruct (answers pool ot) as [vs|].
  - destruct Hs as (o & sh & r & Ho & Hsh & Hperm). rewrite Hb in Ho.
    injection Ho as <- ->. exists vs, sh. eauto.
  - rewrite Hb in Hs. done.
Qed.

Lemma list_index_Some (x : string) (l : list string) (i : nat) :
  list_index x l = Some i ->
  l !! i = Some x /\ forall j, j < i -> l !! j ≠ Some x.
Proof.
  revert i. induction l as [|y l IH]; intros i; simpl; [done|].
  case_decide as Hy.
  - intros [= <-]. subst y. split; [done|]. intros j Hj. lia.
  - destruct (list_index x l) as [i'|] eqn:Hi; [|done]. simpl.
    intros [= <-]. destruct (IH i' eq_refl) as [Hl Hfirst]. split; [done|].
    intros [|j] Hj; simpl; [congruence|]. apply Hfirst. lia.
Qed.

Lemma list_index_None (x : string) (l : list string) :
  list_index x l = None -> x ∉ l.
Proof.
  induction l as [|y l IH]; simpl; [intros _; apply not_elem_of_nil|].
  case_decide as Hy; [done|].
  destruct (list_index x l) as [i'|] eqn:Hi; [done|].
  intros _ [->|Hin]%elem_of_cons; [done|]. by apply IH.
Qed.

(** In a list that holds [x] exactly once, every position of [x] is the one
    [list.index] finds. *)
Lemma list_index_unique (x : string) (l : list string) :
  length (filter (fun o => o = x) l) = 1 ->
  exists i, list_index x l = Some i /\ l !! i = Some x /\
            forall j, l !! j = Some x -> j = i.
Proof.
  induction l as [|y l IH]; simpl; [done|].
  destruct (decide (y = x)) as [->|Hne].
  - rewrite filter_cons_True by done. simpl. intros [= Hlen].
    exists 0. repeat split.
    intros [|j] Hj; [done|]. simpl in Hj.
    apply length_zero_iff_nil in Hlen.
    assert (x ∈ filter (fun o => o = x) l) as Hin.
    { apply list_elem_of_filter. split; [done|]. by eapply list_elem_of_lookup_2. }
    rewrite Hlen in Hin. by apply elem_of_nil in Hin.
  - rewrite filter_cons_False by done. intros Hlen.
    destruct (IH Hlen) as (i & Hi & Hl & Huniq).
    exists (S i). rewrite Hi. repeat split; [done|].
    intros [|j] Hj; simpl in Hj; [congruence|]. f_equal. by apply Huniq.
Qed.

Lemma build_options_once (pool : list row) (ot ans : string) (w w' : World)
    (options : list string) :
  build_options pool ot ans w = (Ok options, w') ->
  length (filter (fun o => o = ans) options) = 1 /\ length options <= 4.
Proof.
  intros Hb. pose proof (build_options_outcome pool ot ans w) as Ho.
  rewrite Hb in Ho. destruct Ho as (_ & H1 & Hl). split; [done|lia].
Qed.

(** X2.  On the options of a generated question, [get_correct_answer_index]
    never raises: it returns an index between 0 and 3 at which the correct
    answer stands, and the answer stands nowhere else. *)
Theorem correct_index_in_range (item : row) (pool : list row) (qt : string)
    (w w' : World) (prompt : string) (options : list string) :
  generate_question item pool qt w = (Ok (prompt, options), w') ->
  exists ans i,
    correct_answer_of qt item = Some ans /\
    get_correct_answer_index options ans w' = (Ok i, w') /\
    i < 4 /\
    options !! i = Some ans /\
    forall j, options !! j = Some ans -> j = i.
Proof.
  intros Hg. destruct (generate_question_inv _ _ _ _ _ _ _ Hg) as (ans & Hans & _ & Hb).
  destruct (build_options_once _ _ _ _ _ _ Hb) as [Honce Hlen].
  destruct (list_index_unique ans options Honce) as (i & Hi & Hl & Huniq).
  exists ans, i. split; [done|].
  unfold get_correct_answer_index. rewrite Hi. split; [done|].
  split; [|done]. apply lookup_lt_Some in Hl. lia.
Qed.

Lemma correct_index_in_range_witness :
  let w' := (generate_question (vocab "一" "いち" "one") nine_vocabs "jlpt" short_world).2 in
  exists ans i,
    correct_answer_of "jlpt" (vocab "一" "いち" "one") = Some ans /\
    get_correct_answer_index ["eight"; "nine"; "two"; "one"] ans w' = (Ok i, w') /\
    i < 4 /\
    ["eight"; "nine"; "two"; "one"] !! i = Some ans /\
    forall j, ["eight"; "nine"; "two"; "one"] !! j = Some ans -> j = i.
Proof.
  intros w'.
  apply (correct_index_in_range (vocab "一" "いち" "one") nine_vocabs "jlpt"
           short_world w' "いち (一)").
  vm_compute. reflexivity.
Defined.

(** ** quiz_manager.run_mistake_review, answered to its end *)

Lemma review_loop_complete {T} `{MistakeShape T} (fuel : nat) (all_content : list row)
    (quiz_type : string) (mistakes_list : list T) (q_no cleared : nat)
    (remaining : list T) (w w' : World) (cleared' : nat) (remaining' : list T) :
  review_loop fuel all_content quiz_type mistakes_list q_no cleared remaining w
    = (Ok (cleared', remaining', false), w') ->
  cleared' + length remaining' =
    cleared + length remaining + (length mistakes_list - q_no) /\
  last (stdout w') = Some (OutReviewSummary cleared' (length mistakes_list)).
Proof.
  revert q_no cleared remaining w.
  induction fuel as [|fuel IH]; intros q_no cleared remaining w Hrun; [done|].
  simpl in Hrun.
  destruct (decide (q_no < length mistakes_list)) as [Hlt|Hge].
  2:{ inv_bind Hrun. apply print_inv in E. subst.
      unfold ret in Hrun. injection Hrun as <- <- <-. simpl.
      split; [lia|]. by rewrite last_snoc. }
  destruct (mistakes_list !! q_no) as [mistake|] eqn:Hm; [|done].
  inv_bind Hrun.
  assert (forall user_choice options correct_answer w3,
             (choice_index <- choice_index_of user_choice ;;
              correct_index <- get_correct_answer_index options correct_answer ;;
              if decide (choice_index = Z.of_nat correct_index) then
                review_loop fuel all_content quiz_type mistakes_list
                            (q_no + 1) (cleared + 1) remaining
              else
                review_loop fuel all_content quiz_type mistakes_list
                            (q_no + 1) cleared (remaining ++ [mistake]))%py w3
             = (Ok (cleared', remaining', false), w') ->
             cleared' + length remaining' =
               cleared + length remaining + (length mistakes_list - q_no) /\
             last (stdout w') = Some (OutReviewSummary cleared' (length mistakes_list)))
    as Hcheck.
  { intros user_choice options correct_answer w3 Hc.
    inv_bind Hc. inv_bind Hc. case_decide.
    - destruct (IH _ _ _ _ Hc) as [Hn Hl]. split; [lia|done].
    - destruct (IH _ _ _ _ Hc) as [Hn Hl]. rewrite length_app in Hn. simpl in Hn.
      split; [lia|done]. }
  destruct (decide (quiz_type = "jlpt")) as [Hj|Hj];
    [|by destruct (decide (quiz_type = "character"))].
  unfold ret in E. injection E as <- <-.
  inv_bind Hrun. inv_bind Hrun. inv_bind Hrun.
  destruct (decide (a1 = "Q")) as [HQ|HQ]; [|by eapply Hcheck].
  inv_bind Hrun.
  destruct (decide (a2 = "Y")) as [HY|HY]; [done|].
  destruct (decide (a2 = "N")) as [HN|HN]; [|by eapply Hcheck].
  inv_bind Hrun. by eapply IH.
Qed.

(** X3.  A review that is not quit early accounts for every mistake: the
    number cleared plus the number remaining is the number of mistakes it
    was given, the remaining ones are a sub-list of the shuffled list, and
    the last thing printed is the summary with that cleared count. *)
Theorem review_complete_counts {T} `{MistakeShape T} (all_content : list row)
    (quiz_type : string) (mistakes : list T) (w w' : World)
    (cleared : nat) (remaining shuffled : list T) :
  run_mistake_review all_content quiz_type mistakes w
    = (Ok (cleared, remaining, false, shuffled), w') ->
  cleared + length remaining = length mistakes /\
  shuffled ≡ₚ mistakes /\
  remaining `sublist_of` shuffled /\
  last (stdout w') = Some (OutReviewSummary cleared (length mistakes)).
Proof.
  intros Hrun.
  destruct (run_mistake_review_result _ _ _ _ _ _ _ _ _ Hrun) as (Hperm & Hpost & _).
  pose proof (review_post_sublist _ _ _ Hpost) as Hsub. simpl in Hsub.
  unfold run_mistake_review in Hrun.
  destruct (shuffle_spec mistakes w) as (sh & r & Hsh & Hp).
  rewrite (bind_ok _ _ _ _ _ Hsh) in Hrun.
  inv_bind Hrun. unfold gets in E. injection E as <- <-.
  inv_bind Hrun. unfold ret in Hrun. injection Hrun as Ha Hs Hw. subst.
  destruct (review_loop_complete _ _ _ _ _ _ _ _ _ _ _ E) as [Hn Hl].
  simpl in Hn. rewrite Nat.sub_0_r in Hn. rewrite <- (Permutation_length Hperm).
  done.
Qed.

Lemma review_complete_counts_witness :
  let w' := (run_mistake_review review_pool "jlpt" five_mistakes review_world_full).2 in
  let remaining := review_mistake <$> ["2"; "1"; "3"] in
  let shuffled := review_mistake <$> ["4"; "5"; "2"; "1"; "3"] in
  2 + length remaining = length five_mistakes /\
  shuffled ≡ₚ five_mistakes /\
  remaining `sublist_of` shuffled /\
  last (stdout w') = Some (OutReviewSummary 2 (length five_mistakes)).
Proof.
  intros w' remaining shuffled.
  apply (review_complete_counts review_pool "jlpt" five_mistakes review_world_full w'
           2 remaining shuffled).
  vm_compute. reflexivity.
Defined.

(** ** quiz_manager.run_jlpt_quiz: the question loop *)

Lemma choice_index_of_valid (c : string) (w : World) :
  c ∈ upper <$> ANSWER_CHOICES ->
  exists i, choice_index_of c w = (Ok i, w) /\ (0 <= i)%Z.
Proof.
  intros Hc. vm_compute in Hc.
  repeat (apply elem_of_cons in Hc as [->|Hc];
          [eexists; split; [reflexivity|vm_compute; congruence]|]).
  by apply elem_of_nil in Hc.
Qed.

Lemma getitem_inv (content : row) (k v : string) (w w' : World) :
  getitem content k w = (Ok v, w') -> content !! k = Some v /\ w' = w.
Proof.
  unfold getitem. destruct (content !! k); [|done].
  unfold ret. by intros [= <- <-].
Qed.

Lemma get_correct_answer_index_inv (options : list string) (ans : string)
    (i : nat) (w w' : World) :
  get_correct_answer_index options ans w = (Ok i, w') ->
  list_index ans options = Some i /\ w' = w.
Proof.
  unfold get_correct_answer_index. destruct (list_index ans options); [|done].
  unfold ret. by intros [= <- <-].
Qed.

Lemma list_getitem_inv {A} (l : list A) (i : Z) (a : A) (w w' : World) :
  list_getitem l i w = (Ok a, w') ->
  w' = w /\ a ∈ l /\ ((0 <= i)%Z -> l !! Z.to_nat i = Some a).
Proof.
  unfold list_getitem. case_decide as Hneg; case_decide as Hr; try done.
  - destruct (l !! Z.to_nat _) as [x|] eqn:Hx; [|done].
    unfold ret. intros [= <- <-]. split; [done|].
    split; [by eapply list_elem_of_lookup_2|lia].
  - destruct (l !! Z.to_nat i) as [x|] eqn:Hx; [|done].
    unfold ret. intros [= <- <-]. split; [done|].
    split; [by eapply list_elem_of_lookup_2|done].
Qed.

Lemma answers_elem (pool : list row) (k v : string) (vs : list string) :
  answers pool k = Some vs -> v ∈ vs ->
  exists r : row, r ∈ pool /\ r !! k = Some v.
Proof.
  unfold answers. intros Hm. apply mapM_Some in Hm.
  induction Hm as [|r x pool vs Hr _ IH]; intros Hv.
  - by apply elem_of_nil in Hv.
  - apply elem_of_cons in Hv as [->|Hv].
    + exists r. split; [apply elem_of_cons; by left|done].
    + destruct (IH Hv) as (r' & Hin & Hk). exists r'.
      split; [apply elem_of_cons; by right|done].
Qed.

(** An option other than the correct answer is the answer value of some
    entry of the pool. *)
Lemma build_options_distractor (pool : list row) (ot ans : string) (w w' : World)
    (options : list string) (o : string) :
  build_options pool ot ans w = (Ok options, w') ->
  o ∈ options -> o ≠ ans ->
  exists r : row, r ∈ pool /\ r !! ot = Some o.
Proof.
  intros Hb Ho Hne.
  destruct (build_options_inv _ _ _ _ _ _ Hb) as (vs & sh & Ha & Hsh & Hperm & _).
  rewrite Hperm in Ho. apply elem_of_cons in Ho as [->|Ho]; [done|].
  apply last3_subseteq in Ho. rewrite Hsh in Ho.
  apply list_elem_of_filter in Ho as [_ Ho]. by eapply answers_elem.
Qed.

Lemma jlpt_quiz_loop_result (fuel : nat) (level : string) (quiz_content : list row)
    (q_no score : nat) (mistakes : list MistakeReview) (w w' : World)
    (score' : nat) (mistakes' : list MistakeReview) :
  jlpt_quiz_loop fuel level quiz_content q_no score mistakes w
    = (Ok (Some (score', mistakes')), w') ->
  exists new,
    mistakes' = mistakes ++ new /\
    Forall (recorded_mistake quiz_content) new /\
    score' + length new = score + (length quiz_content - q_no).
Proof.
  revert q_no score mistakes w.
  induction fuel as [|fuel IH]; intros q_no score mistakes w Hrun; [done|].
  simpl in Hrun.
  destruct (decide (q_no < length quiz_content)) as [Hlt|Hge].
  2:{ unfold ret in Hrun. injection Hrun as <- <- <-. exists [].
      rewrite app_nil_r. split; [done|]. split; [done|]. simpl. lia. }
  destruct (quiz_content !! q_no) as [content|] eqn:Hc; [|done].
  inv_bind Hrun. destruct a as [question_prompt options].
  destruct (generate_question_inv _ _ _ _ _ _ _ E) as (ans & Hans & _ & Hb).
  unfold correct_answer_of in Hans. simpl in Hans.
  destruct (build_options_once _ _ _ _ _ _ Hb) as [Honce _].
  destruct (list_index_unique ans options Honce) as (ci & Hci & _ & Huniq).
  inv_bind Hrun. inv_bind Hrun.
  apply get_user_choice_inv in E1 as (Hvalid & _).
  assert (forall w3,
             (choice_index <- choice_index_of a0 ;;
              meaning <- getitem content "Meaning" ;;
              correct_index <- get_correct_answer_index options meaning ;;
              if decide (choice_index = Z.of_nat correct_index) then
                kanji <- getitem content "Kanji" ;;
                _ <- add_mastered_vocab level kanji ;;
                jlpt_quiz_loop fuel level quiz_content (q_no + 1) (score + 1) mistakes
              else
                kanji <- getitem content "Kanji" ;;
                kana <- getitem content "Kana" ;;
                meaning <- getitem content "Meaning" ;;
                chosen <- list_getitem options choice_index ;;
                jlpt_quiz_loop fuel level quiz_content (q_no + 1) score
                  (mistakes ++ [mkMistakeReview kanji kana meaning chosen]))%py w3
             = (Ok (Some (score', mistakes')), w') ->
             exists new,
               mistakes' = mistakes ++ new /\
               Forall (recorded_mistake quiz_content) new /\
               score' + length new = score + (length quiz_content - q_no)) as Hcheck.
  { intros w3 Hrun3.
    destruct (choice_index_of_valid a0 w3 Hvalid) as (choice & Hchoice & Hpos).
    rewrite (bind_ok _ _ _ _ _ Hchoice) in Hrun3.
    inv_bind Hrun3. apply getitem_inv in E1 as [Hmeaning ->].
    assert (a1 = ans) as -> by congruence.
    inv_bind Hrun3. apply get_correct_answer_index_inv in E1 as [Hidx ->].
    assert (a1 = ci) as -> by congruence.
    case_decide as Hright.
    - inv_bind Hrun3. inv_bind Hrun3.
      destruct (IH _ _ _ _ Hrun3) as (new & -> & Hall & Hn).
      exists new. split; [done|]. split; [done|]. lia.
    - inv_bind Hrun3. apply getitem_inv in E1 as [Hkanji ->].
      inv_bind Hrun3. apply getitem_inv in E1 as [Hkana ->].
      inv_bind Hrun3. apply getitem_inv in E1 as [Hm2 ->].
      inv_bind Hrun3. apply list_getitem_inv in E1 as (-> & Hin & Hat).
      destruct (IH _ _ _ _ Hrun3) as (new & -> & Hall & Hn).
      exists (mkMistakeReview a1 a2 a3 a4 :: new).
      split; [by rewrite <- app_assoc|]. split; [|simpl; lia].
      constructor; [|done].
      assert (a3 = ans) as -> by congruence.
      assert (a4 ≠ ans) as Hne.
      { intros ->. apply Hright. specialize (Hat Hpos).
        apply Huniq in Hat. lia. }
      split; [|split; [done|]].
      + exists content. split; [by eapply list_elem_of_lookup_2|done].
      + simpl. by eapply build_options_distractor. }
  destruct (decide (a0 = "Q")) as [HQ|HQ]; [|by eapply Hcheck].
  inv_bind Hrun.
  destruct (decide (a1 = "Y")) as [HY|HY].
  { inv_bind Hrun. done. }
  destruct (decide (a1 = "N")) as [HN|HN]; [|by eapply Hcheck].
  inv_bind Hrun. by eapply IH.
Qed.

(** X4.  When the question loop of a JLPT quiz runs to its end, every one of
    the ten questions was either scored or recorded as a mistake: the score
    and the number of mistakes add up to 10. *)
Theorem jlpt_quiz_score_accounts (all_vocabs quiz_content : list row)
    (w0 w1 w w' : World) (fuel : nat) (level : string) (score : nat)
    (mistakes : list MistakeReview) :
  random_sample all_vocabs 10 w0 = (Ok quiz_content, w1) ->
  jlpt_quiz_loop fuel level quiz_content 0 0 [] w
    = (Ok (Some (score, mistakes)), w') ->
  score + length mistakes = 10 /\ score <= 10 /\ length mistakes <= 10.
Proof.
  intros Hs Hrun.
  destruct (random_sample_spec _ _ _ _ _ Hs) as (Hlen & _ & _).
  destruct (jlpt_quiz_loop_result _ _ _ _ _ _ _ _ _ _ Hrun) as (new & -> & _ & Hn).
  simpl in *. lia.
Qed.

Lemma jlpt_quiz_score_accounts_witness :
  8 + length [mkMistakeReview "十" "じゅう" "ten" "four";
              mkMistakeReview "六" "ろく" "six" "three"] = 10 /\
  8 <= 10 /\
  length [mkMistakeReview "十" "じゅう" "ten" "four";
          mkMistakeReview "六" "ろく" "six" "three"] <= 10.
Proof.
  apply (jlpt_quiz_score_accounts eleven_vocabs vocab_sample
           (quiz_world ten_answers)
           (random_sample eleven_vocabs 10 (quiz_world ten_answers)).2
           (quiz_world ten_answers)
           (jlpt_quiz_loop 11 "N5" vocab_sample 0 0 [] (quiz_world ten_answers)).2
           11 "N5").
  - vm_compute. reflexivity.
  - vm_compute. reflexivity.
Defined.

(** X5.  Every mistake a JLPT quiz has collected when its loop ends carries
    the word, kana and meaning of one vocabulary of the quiz, and as the
    user's answer a meaning of the quiz that is not the correct one. *)
Theorem jlpt_quiz_mistakes_recorded (quiz_content : list row) (w w' : World)
    (fuel : nat) (level : string) (score : nat) (mistakes : list MistakeReview) :
  jlpt_quiz_loop fuel level quiz_content 0 0 [] w
    = (Ok (Some (score, mistakes)), w') ->
  Forall (recorded_mistake quiz_content) mistakes.
Proof.
  intros Hrun.
  by destruct (jlpt_quiz_loop_result _ _ _ _ _ _ _ _ _ _ Hrun) as (new & -> & Hall & _).
Qed.

Lemma jlpt_quiz_mistakes_recorded_witness :
  Forall (recorded_mistake vocab_sample)
    [mkMistakeReview "十" "じゅう" "ten" "four";
     mkMistakeReview "六" "ろく" "six" "three"].
Proof.
  apply (jlpt_quiz_mistakes_recorded vocab_sample (quiz_world ten_answers)
           (jlpt_quiz_loop 11 "N5" vocab_sample 0 0 [] (quiz_world ten_answers)).2
           11 "N5" 8).
  vm_compute. reflexivity.
Defined.

(** ** What the quizzes leave alone *)

#[local] Instance same_files_preorder : PreOrder same_files.
Proof.
  split; [by intros w|].
  intros w1 w2 w3 (?&?&?&?&?) (?&?&?&?&?). unfold same_files.
  repeat split; congruence.
Qed.

#[local] Instance same_mistakes_preorder : PreOrder same_mistakes.
Proof.
  split; [by intros w|].
  intros w1 w2 w3 (?&?&?&?) (?&?&?&?). unfold same_mistakes.
  repeat split; congruence.
Qed.

Lemma same_files_mistakes (w w' : World) : same_files w w' -> same_mistakes w w'.
Proof. intros (?&?&?&?&?). by repeat split. Qed.

Lemma terminal_only_same_files (w w' : World) : terminal_only w w' -> same_files w w'.
Proof. intros (?&?&?&?&?&?). by repeat split. Qed.

Lemma generate_question_same_files (item : row) (pool : list row) (qt : string) :
  preserves same_files (generate_question item pool qt).
Proof.
  intros w. by destruct (generate_question_world item pool qt w) as [r ->].
Qed.

Lemma print_same_files (o : Output) : preserves same_files (print o).
Proof. by intros w. Qed.

Lemma get_user_choice_same_files (valid : list string) :
  preserves same_files (get_user_choice valid).
Proof.
  eapply preserves_weaken; [apply terminal_only_same_files|].
  apply get_user_choice_terminal.
Qed.

Lemma input_same_files : preserves same_files input.
Proof. intros w. unfold input. by destruct (stdin w). Qed.

Lemma sample_pool_same_files {A} (k n : nat) (pool : list A) :
  preserves same_files (sample_pool k n pool).
Proof.
  revert n pool. induction k as [|k IH]; intros n pool; simpl.
  - apply preserves_ret; apply _.
  - apply preserves_bind; [apply _| |].
    + intros w. by destruct (randbelow_spec n w) as (j & r & ->).
    + intros j. destruct (pool !! j); [|apply preserves_raise; apply _].
      destruct (pool !! (n - 1)); [|apply preserves_raise; apply _].
      apply preserves_bind; [apply _|apply IH|].
      intros ?. apply preserves_ret; apply _.
Qed.

Lemma random_sample_same_files {A} (population : list A) (k : nat) :
  preserves same_files (random_sample population k).
Proof.
  unfold random_sample. case_decide; [apply sample_pool_same_files|].
  apply preserves_raise; apply _.
Qed.

Lemma character_quiz_loop_same_files (fuel : nat) (quiz_content : list row)
    (q_no score : nat) :
  preserves same_files (character_quiz_loop fuel quiz_content q_no score).
Proof.
  revert q_no score. induction fuel as [|fuel IH]; intros q_no score; simpl.
  - apply preserves_raise; apply _.
  - repeat (preserves_step || preserves_pure
            || apply generate_question_same_files || apply print_same_files
            || apply get_user_choice_same_files || apply IH).
Qed.

(** X6.  A character quiz writes nothing: whatever the user does and however
    the session ends, the vocabulary files, the character file, the mistake
    table and the progress table are afterwards what they were; a missing
    character file is not created. *)
Theorem character_quiz_writes_nothing (w : World) :
  let w' := (run_character_quiz w).2 in
  jlpt_files w' = jlpt_files w /\
  character_file w' = character_file w /\
  mistake_file w' = mistake_file w /\
  progress_file w' = progress_file w.
Proof.
  assert (preserves same_files run_character_quiz) as Hp.
  { unfold run_character_quiz, load_characters.
    repeat (preserves_step || apply print_same_files || apply input_same_files
            || apply random_sample_same_files
            || apply character_quiz_loop_same_files). }
  destruct (Hp w) as (?&?&?&?&?). done.
Qed.

Lemma add_mastered_vocab_same_mistakes (level kanji : string) :
  preserves same_mistakes (add_mastered_vocab level kanji).
Proof.
  intros w. rewrite add_mastered_vocab_unfold.
  assert (same_mistakes w (load_mastered_vocabs w).2) as Hl.
  { unfold load_mastered_vocabs, bind, gets, lift, create_progress_file, modify, ret.
    by destruct (progress_file w) as [[|? ?]|]. }
  destruct (load_mastered_vocabs w) as [[m|e] wa]; [|done].
  destruct (m !! level) as [s|]; [|done].
  by destruct (decide (kanji ∈ s)).
Qed.

Lemma jlpt_quiz_loop_same_mistakes (fuel : nat) (level : string)
    (quiz_content : list row) (q_no score : nat) (mistakes : list MistakeReview) :
  preserves same_mistakes
    (jlpt_quiz_loop fuel level quiz_content q_no score mistakes).
Proof.
  revert q_no score mistakes.
  induction fuel as [|fuel IH]; intros q_no score mistakes; simpl.
  - apply preserves_raise; apply _.
  - repeat (preserves_step || preserves_pure || apply IH
            || apply add_mastered_vocab_same_mistakes
            || (eapply preserves_weaken; [apply same_files_mistakes|];
                first [ apply generate_question_same_files | apply print_same_files
                      | apply get_user_choice_same_files ])).
Qed.

Lemma jlpt_quiz_loop_quit (fuel : nat) (level : string) (quiz_content : list row)
    (q_no score : nat) (mistakes : list MistakeReview) (w w' : World) :
  jlpt_quiz_loop fuel level quiz_content q_no score mistakes w = (Ok None, w') ->
  last (stdout w') = Some OutTerminated.
Proof.
  revert q_no score mistakes w.
  induction fuel as [|fuel IH]; intros q_no score mistakes w Hrun; [done|].
  simpl in Hrun.
  destruct (decide (q_no < length quiz_content)) as [Hlt|Hge]; [|done].
  destruct (quiz_content !! q_no) as [content|] eqn:Hc; [|done].
  inv_bind Hrun. destruct a as [question_prompt options].
  inv_bind Hrun. inv_bind Hrun.
  assert (forall w3,
             (choice_index <- choice_index_of a0 ;;
              meaning <- getitem content "Meaning" ;;
              correct_index <- get_correct_answer_index options meaning ;;
              if decide (choice_index = Z.of_nat correct_index) then
                kanji <- getitem content "Kanji" ;;
                _ <- add_mastered_vocab level kanji ;;
                jlpt_quiz_loop fuel level quiz_content (q_no + 1) (score + 1) mistakes
              else
                kanji <- getitem content "Kanji" ;;
                kana <- getitem content "Kana" ;;
                meaning <- getitem content "Meaning" ;;
                chosen <- list_getitem options choice_index ;;
                jlpt_quiz_loop fuel level quiz_content (q_no + 1) score
                  (mistakes ++ [mkMistakeReview kanji kana meaning chosen]))%py w3
             = (Ok None, w') ->
             last (stdout w') = Some OutTerminated) as Hcheck.
  { intros w3 Hrun3. inv_bind Hrun3. inv_bind Hrun3. inv_bind Hrun3.
    case_decide.
    - inv_bind Hrun3. inv_bind Hrun3. by eapply IH.
    - inv_bind Hrun3. inv_bind Hrun3. inv_bind Hrun3. inv_bind Hrun3.
      by eapply IH. }
  destruct (decide (a0 = "Q")) as [HQ|HQ]; [|by eapply Hcheck].
  inv_bind Hrun.
  destruct (decide (a1 = "Y")) as [HY|HY].
  { inv_bind Hrun.
    match goal with Hp : print _ _ = _ |- _ => apply print_inv in Hp; subst end.
    unfold ret in Hrun. injection Hrun as <-. simpl. by rewrite last_snoc. }
  destruct (decide (a1 = "N")) as [HN|HN]; [|by eapply Hcheck].
  inv_bind Hrun. by eapply IH.
Qed.

(** X7.  A JLPT quiz that the user quits (with confirmation) returns at
    once, right after printing that it was terminated: the mistake table,
    the clock and the content files are what they were before the quiz, so
    none of the wrong answers given before the quit is recorded. *)
Theorem jlpt_quiz_quit_records_nothing (w w1 w' : World) (level path : string)
    (all_vocabs quiz_content : list row) :
  JLPT_FILES !! level = Some path ->
  jlpt_files w !! path = Some all_vocabs ->
  random_sample all_vocabs 10 w = (Ok quiz_content, w1) ->
  jlpt_quiz_loop (S (length (stdin w1))) level quiz_content 0 0 []
    (print OutTips w1).2 = (Ok None, w') ->
  run_jlpt_quiz level w = (Ok tt, w') /\
  last (stdout w') = Some OutTerminated /\
  mistake_file w' = mistake_file w /\
  clock w' = clock w /\
  jlpt_files w' = jlpt_files w.
Proof.
  intros Hl Hf Hs Hloop.
  split; [|split; [by eapply jlpt_quiz_loop_quit|]].
  - unfold run_jlpt_quiz.
    rewrite (bind_ok _ _ _ _ _ (load_jlpt_vocab_present _ _ _ _ Hl Hf)).
    rewrite (bind_ok _ _ _ _ _ Hs).
    erewrite bind_ok by reflexivity.
    erewrite bind_ok by reflexivity.
    simpl. simpl in Hloop. by rewrite (bind_ok _ _ _ _ _ Hloop).
  - pose proof (random_sample_same_files all_vocabs 10 w) as Hsf.
    rewrite Hs in Hsf. simpl in Hsf. apply same_files_mistakes in Hsf.
    pose proof (jlpt_quiz_loop_same_mistakes (S (length (stdin w1))) level
                  quiz_content 0 0 [] (print OutTips w1).2) as Hlm.
    rewrite Hloop in Hlm. simpl in Hlm.
    destruct Hsf as (?&?&?&?). destruct Hlm as (Hj&?&Hm&Hc). simpl in *.
    repeat split; congruence.
Qed.

Lemma jlpt_quiz_quit_records_nothing_witness :
  let w := quiz_world ["a"; "d"; "q"; "y"] in
  let w' := (run_jlpt_quiz "N5" w).2 in
  run_jlpt_quiz "N5" w = (Ok tt, w') /\
  last (stdout w') = Some OutTerminated /\
  mistake_file w' = mistake_file w /\
  clock w' = clock w /\
  jlpt_files w' = jlpt_files w.
Proof.
  intros w w'.
  apply (jlpt_quiz_quit_records_nothing w (random_sample eleven_vocabs 10 w).2 w'
           "N5" "data/jlpt_n5.csv" eleven_vocabs vocab_sample).
  - reflexivity.
  - reflexivity.
  - vm_compute. reflexivity.
  - vm_compute. reflexivity.
Defined.

(** ** progress_manager: loading and adding *)

Lemma nonblank_nil : nonblank [] = ∅.
Proof. done. Qed.

Lemma nonblank_cons (v : string) (vs : list string) :
  nonblank (v :: vs) =
  (if truthy (strip v) then {[v]} else ∅) ∪ nonblank vs.
Proof.
  unfold nonblank. destruct (truthy (strip v)) eqn:Ht.
  - by rewrite filter_cons_True.
  - rewrite filter_cons_False by (by rewrite Ht). by rewrite (left_id_L ∅ (∪)).
Qed.

Lemma add_vocabs_unknown (level : string) (vocabs : list string)
    (mastery : gmap string (gset string)) :
  mastery !! level = None ->
  add_vocabs level vocabs mastery =
  if decide (nonblank vocabs = ∅) then Ok mastery else Raise KeyError.
Proof.
  intros Hn. induction vocabs as [|v vs IH]; simpl; [done|].
  rewrite nonblank_cons. destruct (truthy (strip v)) eqn:Ht.
  - rewrite Hn. rewrite decide_False; [done|]. set_solver.
  - rewrite IH. rewrite (left_id_L ∅ (∪)). done.
Qed.

Lemma elem_of_row_vocabs (level v : string) (lines : list (list string)) :
  v ∈ row_vocabs level lines <->
  exists vocabs, (level :: vocabs) ∈ lines /\ v ∈ vocabs /\ truthy (strip v) = true.
Proof.
  induction lines as [|line lines IH]; simpl.
  - split; [set_solver|]. intros (vs & Hin & _). by apply elem_of_nil in Hin.
  - destruct line as [|l vocabs].
    + rewrite IH. split; intros (vs & Hin & Hv); exists vs.
      * split; [apply elem_of_cons; by right|done].
      * apply elem_of_cons in Hin as [?|Hin]; [done|]. by split.
    + rewrite elem_of_union, IH. split.
      * intros [Hv|(vs & Hin & Hv)].
        -- case_decide as Hl; [|set_solver]. subst l. exists vocabs.
           split; [apply elem_of_cons; by left|].
           unfold nonblank in Hv. apply elem_of_list_to_set in Hv.
           by apply list_elem_of_filter in Hv as [? ?].
        -- exists vs. split; [apply elem_of_cons; by right|done].
      * intros (vs & Hin & Hv & Ht). apply elem_of_cons in Hin as [Heq|Hin].
        -- injection Heq as <- <-. left. rewrite decide_True by done.
           unfold nonblank. apply elem_of_list_to_set. by apply list_elem_of_filter.
        -- right. by exists vs.
Qed.

Lemma read_progress_lines_spec (lines : list (list string))
    (mastery : gmap string (gset string)) :
  mastery_ok mastery ->
  match read_progress_lines lines mastery with
  | Ok loaded =>
      (forall level s, mastery !! level = Some s ->
                       loaded !! level = Some (s ∪ row_vocabs level lines)) /\
      Forall (fun line => ~ unknown_level_row line) lines
  | Raise e => e = KeyError /\ Exists unknown_level_row lines
  end.
Proof.
  revert mastery. induction lines as [|line lines IH]; intros mastery Hok.
  - simpl. split; [|done]. intros level s Hs. by rewrite (right_id_L ∅ (∪)).
  - destruct line as [|level vocabs].
    + simpl. specialize (IH mastery Hok).
      destruct (read_progress_lines lines mastery) as [loaded|e].
      * destruct IH as [Hl Hall]. split; [done|]. constructor; [|done]. by intros [].
      * destruct IH as [-> Hex]. split; [done|]. by apply Exists_cons_tl.
    + destruct (mastery !! level) as [s0|] eqn:Hs0.
      * rewrite (read_progress_line _ _ _ _ _ Hs0).
        assert (mastery_ok (<[level := s0 ∪ nonblank vocabs]> mastery)) as Hok'.
        { eapply add_vocabs_ok; [exact Hok|]. by apply add_vocabs_spec. }
        specialize (IH _ Hok').
        destruct (read_progress_lines lines _) as [loaded|e].
        -- destruct IH as [Hl Hall]. split.
           ++ intros l s Hs. simpl. destruct (decide (level = l)) as [<-|Hne].
              ** rewrite (Hl level _ (lookup_insert_eq _ _ _)).
                 assert (s = s0) as -> by congruence.
                 by rewrite (assoc_L (∪)).
              ** rewrite (Hl l s) by (by rewrite lookup_insert_ne).
                 by rewrite (left_id_L ∅ (∪)).
           ++ constructor; [|done]. intros [Hunk _]. apply Hunk.
              apply Hok. eauto.
        -- destruct IH as [-> Hex]. split; [done|]. by apply Exists_cons_tl.
      * assert (level ∉ LEVELS) as Hunk.
        { intros Hin. apply Hok in Hin. rewrite Hs0 in Hin. by destruct Hin. }
        assert (read_progress_lines ((level :: vocabs) :: lines) mastery =
                if decide (nonblank vocabs = ∅)
                then read_progress_lines lines mastery else Raise KeyError) as ->.
        { simpl. destruct vocabs as [|v vs]; [done|].
          rewrite (add_vocabs_unknown _ _ _ Hs0). by case_decide. }
        case_decide as Hnb.
        -- specialize (IH mastery Hok).
           destruct (read_progress_lines lines mastery) as [loaded|e].
           ++ destruct IH as [Hl Hall]. split.
              ** intros l s Hs. simpl. rewrite (Hl l s Hs).
                 rewrite decide_False by congruence.
                 by rewrite (left_id_L ∅ (∪)).
              ** constructor; [|done]. by intros [_ ?].
           ++ destruct IH as [-> Hex]. split; [done|]. by apply Exists_cons_tl.
        -- split; [done|]. by apply Exists_cons_hd.
Qed.

(** X8.  [load_mastered_vocabs] on an existing progress file never writes.
    Without a header row it raises [StopIteration].  Otherwise it either
    returns, for each of the five levels, exactly the non-blank fields of
    the rows that begin with that level (rows of one level are merged), or
    it raises [KeyError], which happens exactly when some row has a
    non-blank field under a level that is none of the five. *)
Theorem load_mastered_vocabs_rows (w : World) (rows : list (list string)) :
  progress_file w = Some rows ->
  match rows with
  | [] => load_mastered_vocabs w = (Raise StopIteration, w)
  | _ :: lines =>
      match load_mastered_vocabs w with
      | (Ok mastery, w') =>
          w' = w /\
          (forall level, level ∈ LEVELS ->
                         mastery !! level = Some (row_vocabs level lines)) /\
          (forall level, level ∉ LEVELS -> mastery !! level = None) /\
          Forall (fun line => ~ unknown_level_row line) lines
      | (Raise e, w') =>
          w' = w /\ e = KeyError /\ Exists unknown_level_row lines
      end
  end.
Proof.
  intros Hf. unfold load_mastered_vocabs, bind, gets, lift. rewrite Hf.
  destruct rows as [|header lines]; [done|].
  pose proof (read_progress_lines_spec lines default_mastery default_mastery_ok) as Hs.
  pose proof (read_progress_lines_ok lines default_mastery) as Hok.
  destruct (read_progress_lines lines default_mastery) as [loaded|e].
  - destruct Hs as [Hl Hall]. specialize (Hok loaded default_mastery_ok eq_refl).
    split; [done|]. split; [|split; [|done]].
    + intros level Hin.
      destruct (proj2 (proj1 default_mastery_ok level) Hin) as [s Hs].
      rewrite (Hl level s Hs).
      assert (s = ∅) as ->; [|by rewrite (left_id_L ∅ (∪))].
      apply set_eq. intros v. split; [|set_solver]. intros Hv.
      unfold LEVELS in Hin.
      repeat (apply elem_of_cons in Hin as [->|Hin];
              [vm_compute in Hs; injection Hs as <-; done|]).
      by apply elem_of_nil in Hin.
    + intros level Hnot. destruct (loaded !! level) as [s|] eqn:Hs; [|done].
      exfalso. apply Hnot. apply Hok. eauto.
  - by destruct Hs as [-> Hex].
Qed.

Lemma load_mastered_vocabs_rows_witness :
  let w := set_progress_file
             (Some [PROGRESS_HEADER; ["N5"; "猫"; " "]; ["N4"]; ["N5"; "犬"]]) empty_world in
  match load_mastered_vocabs w with
  | (Ok mastery, w') =>
      w' = w /\
      (forall level, level ∈ LEVELS ->
         mastery !! level =
         Some (row_vocabs level [["N5"; "猫"; " "]; ["N4"]; ["N5"; "犬"]])) /\
      (forall level, level ∉ LEVELS -> mastery !! level = None) /\
      Forall (fun line => ~ unknown_level_row line)
             [["N5"; "猫"; " "]; ["N4"]; ["N5"; "犬"]]
  | (Raise e, w') =>
      w' = w /\ e = KeyError /\
      Exists unknown_level_row [["N5"; "猫"; " "]; ["N4"]; ["N5"; "犬"]]
  end.
Proof.
  intros w.
  apply (load_mastered_vocabs_rows w
           [PROGRESS_HEADER; ["N5"; "猫"; " "]; ["N4"]; ["N5"; "犬"]]).
  reflexivity.
Defined.



(** ** Resetting *)

(** X10.  The two resets of the main menu always succeed, whatever state the
    stores were in (absent, header-less, with unknown levels): both answer
    [true]; afterwards the mistake table exists and is empty, the progress
    table holds the header and one bare row per level, a load of it yields
    five empty sets, the mistake count is 0, and the content files are
    untouched. *)
Theorem reset_restores_defaults (w : World) :
  let w1 := (reset_progress w).2 in
  let w2 := (reset_mistakes w1).2 in
  (reset_progress w).1 = Ok true /\
  (reset_mistakes w1).1 = Ok true /\
  mistake_file w2 = Some [] /\
  progress_file w2 = Some (PROGRESS_HEADER :: ((fun level => [level]) <$> LEVELS)) /\
  get_mistake_count w2 = (Ok 0, w2) /\
  load_mastered_vocabs w2 = (Ok default_mastery, w2) /\
  (forall level, level ∈ LEVELS -> mastered_size level w2 = Some 0) /\
  jlpt_files w2 = jlpt_files w /\ character_file w2 = character_file w /\
  stdout w2 = stdout w.
Proof.
  intros w1 w2. repeat split.
  intros level Hl. unfold mastered_size.
  change (load_mastered_vocabs w2).1 with (Ok default_mastery : result _).
  unfold LEVELS in Hl.
  repeat (apply elem_of_cons in Hl as [->|Hl]; [by vm_compute|]).
  by apply elem_of_nil in Hl.
Qed.

(** ** mistake_tracker.add_mistake keeps the table well-formed *)





(** ** The standalone practice *)

Lemma load_all_jlpt_vocab_outcome (levels : list string) (acc : list row) (w : World) :
  match load_all_jlpt_vocab levels acc w with
  | (Ok all_vocab, w') =>
      w' = w /\
      all_vocab = acc ++ concat (level_rows w <$> levels) /\
      Forall (fun level => ¬ missing_vocab w level) levels
  | (Raise e, w') =>
      e = TypeError /\
      exists before level after,
        levels = before ++ level :: after /\
        Forall (fun level => ¬ missing_vocab w level) before /\
        missing_vocab w level /\
        w' = set_stdout
               (stdout w ++ [OutNotFound ("jlpt_" +:+ lower level +:+ ".csv")]) w
  end.
Proof.
  revert acc. induction levels as [|level rest IH]; intros acc; simpl.
  - unfold ret. by rewrite app_nil_r.
  - destruct (JLPT_FILES !! level) as [path|] eqn:Hp.
    + destruct (jlpt_files w !! path) as [rows|] eqn:Hr.
      * rewrite (bind_ok _ _ _ _ _ (load_jlpt_vocab_present _ _ _ _ Hp Hr)).
        assert (Hnm : ¬ missing_vocab w level).
        { intros (p & Hp' & Hn). congruence. }
        assert (Hrows : level_rows w level = rows).
        { unfold level_rows. by rewrite Hp, Hr. }
        specialize (IH (acc ++ rows)).
        destruct (load_all_jlpt_vocab rest (acc ++ rows) w) as [[all_vocab|e] w'].
        -- destruct IH as (-> & -> & Hall). rewrite Hrows, app_assoc.
           split; [done|]. split; [done|]. by constructor.
        -- destruct IH as (-> & before & l & after & -> & Hb & Hm & ->).
           split; [done|]. exists (level :: before), l, after.
           split; [done|]. split; [by constructor|]. done.
      * rewrite (bind_ok _ _ _ _ _ (load_jlpt_vocab_absent _ _ _ Hp Hr)).
        unfold raise. split; [done|]. exists [], level, rest.
        split; [done|]. split; [constructor|]. split; [by exists path|done].
    + assert (Hl : load_jlpt_vocab level w = (Ok (Some []), w)).
      { unfold load_jlpt_vocab. by rewrite Hp. }
      rewrite (bind_ok _ _ _ _ _ Hl).
      assert (Hnm : ¬ missing_vocab w level).
      { intros (p & Hp' & Hn). congruence. }
      assert (Hrows : level_rows w level = []).
      { unfold level_rows. by rewrite Hp. }
      specialize (IH (acc ++ [])).
      destruct (load_all_jlpt_vocab rest (acc ++ []) w) as [[all_vocab|e] w'].
      * destruct IH as (-> & -> & Hall). rewrite Hrows, app_nil_r.
        split; [done|]. split; [done|]. by constructor.
      * destruct IH as (-> & before & l & after & -> & Hb & Hm & ->).
        split; [done|]. exists (level :: before), l, after.
        split; [done|]. split; [by constructor|]. done.
Qed.

(** X12.  The distractor pool of the standalone practice is the rows of
    all five vocabulary files, N5 first and N1 last, whatever levels the
    stored mistakes came from; loading it changes nothing.  If one of the
    five files is absent the loop raises [TypeError] at the first such
    level, right after the not-found notice for it. *)
Theorem practice_pool_all_levels (w : World) :
  match load_all_jlpt_vocab LEVELS [] w with
  | (Ok all_vocab, w') =>
      w' = w /\
      all_vocab = level_rows w "N5" ++ level_rows w "N4" ++ level_rows w "N3" ++
                  level_rows w "N2" ++ level_rows w "N1" /\
      (forall level, level ∈ LEVELS -> ¬ missing_vocab w level)
  | (Raise e, w') =>
      e = TypeError /\
      exists before level after,
        LEVELS = before ++ level :: after /\
        (forall l, l ∈ before -> ¬ missing_vocab w l) /\
        missing_vocab w level /\
        w' = set_stdout
               (stdout w ++ [OutNotFound ("jlpt_" +:+ lower level +:+ ".csv")]) w
  end.
Proof.
  pose proof (load_all_jlpt_vocab_outcome LEVELS [] w) as Hout.
  destruct (load_all_jlpt_vocab LEVELS [] w) as [[all_vocab|e] w'].
  - destruct Hout as (-> & -> & Hall). split; [done|]. split.
    + simpl. by rewrite app_nil_r.
    + by apply Forall_forall.
  - destruct Hout as (-> & before & level & after & Heq & Hb & Hm & ->).
    split; [done|]. exists before, level, after.
    split; [done|]. split; [by apply Forall_forall|done].
Qed.

(** X13.  A standalone practice with at least one stored mistake needs all
    five vocabulary files: if any is absent the session raises [TypeError]
    before a question is asked or a line is read, having printed only the
    not-found notice, and the stores are as they were. *)
Theorem practice_needs_all_levels (w : World) (m : Mistake) (rows : list Mistake)
    (level : string) :
  mistake_file w = Some (m :: rows) ->
  level ∈ LEVELS ->
  missing_vocab w level ->
  exists first,
    first ∈ LEVELS /\ missing_vocab w first /\
    run_mistake_practice w =
    (Raise TypeError,
     set_stdout (stdout w ++ [OutNotFound ("jlpt_" +:+ lower first +:+ ".csv")]) w).
Proof.
  intros Hf Hl Hm.
  pose proof (load_all_jlpt_vocab_outcome LEVELS [] w) as Hout.
  destruct (load_all_jlpt_vocab LEVELS [] w) as [[all_vocab|e] w'] eqn:Hload.
  - destruct Hout as (_ & _ & Hall). rewrite Forall_forall in Hall.
    by destruct (Hall level Hl).
  - destruct Hout as (-> & before & first & after & Heq & _ & Hfirst & ->).
    exists first. split; [|split; [done|]].
    + rewrite Heq. apply elem_of_app. right. apply elem_of_cons. by left.
    + unfold run_mistake_practice.
      rewrite (bind_ok _ _ _ _ _ (load_mistakes_present _ _ Hf)).
      by rewrite (bind_raise _ _ _ _ _ Hload).
Qed.

Lemma practice_needs_all_levels_witness :
  exists first,
    first ∈ LEVELS /\
    missing_vocab (store_world (Some [mistake_inu]) []) first /\
    run_mistake_practice (store_world (Some [mistake_inu]) []) =
    (Raise TypeError,
     set_stdout (stdout (store_world (Some [mistake_inu]) []) ++
                 [OutNotFound ("jlpt_" +:+ lower first +:+ ".csv")])
                (store_world (Some [mistake_inu]) [])).
Proof.
  apply (practice_needs_all_levels (store_world (Some [mistake_inu]) [])
           mistake_inu [] "N3").
  - reflexivity.
  - unfold LEVELS. do 2 (apply elem_of_cons; right). apply elem_of_cons. by left.
  - exists "data/jlpt_n3.csv". split; reflexivity.
Defined.

(** X14.  A standalone practice that is quit early leaves the stores as
    they were: the mistake table, the progress table, the content files and
    the clock are untouched, and the last thing printed is the notice that
    the review was quit. *)
Theorem practice_quit_keeps_store (w w1 : World) (m : Mistake)
    (rows remaining shuffled : list Mistake) (all_vocab : list row) (cleared : nat) :
  mistake_file w = Some (m :: rows) ->
  load_all_jlpt_vocab LEVELS [] w = (Ok all_vocab, w) ->
  run_mistake_review all_vocab "jlpt" (m :: rows) w
    = (Ok (cleared, remaining, true, shuffled), w1) ->
  let w' := (run_mistake_practice w).2 in
  mistake_file w' = Some (m :: rows) /\
  progress_file w' = progress_file w /\
  jlpt_files w' = jlpt_files w /\
  character_file w' = character_file w /\
  clock w' = clock w /\
  stdout w' = stdout w1 ++ [OutPracticeQuit] /\
  stdin w' = tail (stdin w1).
Proof.
  intros Hf Hload Hrev w'.
  destruct (run_mistake_review_result _ _ _ _ _ _ _ _ _ Hrev)
    as (_ & _ & Hj & Hc & Hmf & Hp & Hk & _).
  assert (Hrun : run_mistake_practice w =
                 ((print OutPracticeQuit ;;; _ <- input ;; ret tt)%py w1)).
  { unfold run_mistake_practice.
    rewrite (bind_ok _ _ _ _ _ (load_mistakes_present _ _ Hf)).
    by rewrite (bind_ok _ _ _ _ _ Hload), (bind_ok _ _ _ _ _ Hrev). }
  unfold w'. rewrite Hrun. unfold bind, print, modify, input. simpl.
  destruct (stdin w1) as [|line rest] eqn:Hs; simpl; rewrite ?Hs, Hmf; done.
Qed.

Lemma practice_quit_keeps_store_witness :
  let w1 := (run_mistake_review nine_vocabs "jlpt" [mistake_inu] practice_quit_world).2 in
  let w' := (run_mistake_practice practice_quit_world).2 in
  mistake_file w' = Some [mistake_inu] /\
  progress_file w' = progress_file practice_quit_world /\
  jlpt_files w' = jlpt_files practice_quit_world /\
  character_file w' = character_file practice_quit_world /\
  clock w' = clock practice_quit_world /\
  stdout w' = stdout w1 ++ [OutPracticeQuit] /\
  stdin w' = tail (stdin w1).
Proof.
  apply (practice_quit_keeps_store practice_quit_world
           (run_mistake_review nine_vocabs "jlpt" [mistake_inu] practice_quit_world).2
           mistake_inu [] [mistake_inu] [mistake_inu] nine_vocabs 0).
  - reflexivity.
  - vm_compute. reflexivity.
  - vm_compute. reflexivity.
Defined.

(** ** mistake_tracker without its file *)



(** ** progress_manager.load_user_progress *)

Lemma collect_progress_outcome (items : list (string * gset string))
    (acc : gmap string (nat * nat)) (w : World) :
  NoDup items.*1 ->
  match collect_progress items acc w with
  | (Ok user_progress, w') =>
      w' = w /\
      Forall (fun item => ¬ missing_vocab w item.1) items /\
      forall level,
        user_progress !! level =
        match (list_to_map items : gmap string (gset string)) !! level with
        | Some s => Some (size s, length (level_rows w level))
        | None => acc !! level
        end
  | (Raise e, w') =>
      e = TypeError /\
      exists item,
        item ∈ items /\ missing_vocab w item.1 /\
        w' = set_stdout
               (stdout w ++ [OutNotFound ("jlpt_" +:+ lower item.1 +:+ ".csv")]) w
  end.
Proof.
  revert acc. induction items as [|[level s] rest IH]; intros acc Hnd; simpl.
  - unfold ret. split; [done|]. split; [constructor|]. intros level.
    by rewrite lookup_empty.
  - apply NoDup_cons in Hnd as [Hnotin Hnd].
    assert (Hstep : forall rows,
               level_rows w level = rows -> ¬ missing_vocab w level ->
               load_jlpt_vocab level w = (Ok (Some rows), w) ->
               match
                 (all_vocab <- load_jlpt_vocab level ;;
                  match all_vocab with
                  | None => raise TypeError
                  | Some all_vocab =>
                      collect_progress rest
                        (<[level := (size s, length all_vocab)]> acc)
                  end)%py w
               with
               | (Ok user_progress, w') =>
                   w' = w /\
                   Forall (fun item => ¬ missing_vocab w item.1) ((level, s) :: rest) /\
                   forall l,
                     user_progress !! l =
                     match (<[level := s]> (list_to_map rest) : gmap string (gset string)) !! l
                     with
                     | Some s => Some (size s, length (level_rows w l))
                     | None => acc !! l
                     end
               | (Raise e, w') =>
                   e = TypeError /\
                   exists item,
                     item ∈ (level, s) :: rest /\ missing_vocab w item.1 /\
                     w' = set_stdout
                            (stdout w ++
                             [OutNotFound ("jlpt_" +:+ lower item.1 +:+ ".csv")]) w
               end).
    { intros rows Hrows Hnm Hl. rewrite (bind_ok _ _ _ _ _ Hl).
      specialize (IH (<[level := (size s, length rows)]> acc) Hnd).
      destruct (collect_progress rest _ w) as [[user_progress|e] w'].
      - destruct IH as (-> & Hall & Hlook). split; [done|].
        split; [by constructor|]. intros l. rewrite Hlook.
        destruct (decide (level = l)) as [<-|Hne].
        + rewrite lookup_insert_eq.
          rewrite (not_elem_of_list_to_map_1 rest level) by done.
          by rewrite lookup_insert_eq, Hrows.
        + by rewrite !lookup_insert_ne by done.
      - destruct IH as (-> & item & Hin & Hm & ->). split; [done|].
        exists item. split; [|done]. apply elem_of_cons. by right. }
    destruct (JLPT_FILES !! level) as [path|] eqn:Hp.
    + destruct (jlpt_files w !! path) as [rows|] eqn:Hr.
      * apply (Hstep rows).
        -- unfold level_rows. by rewrite Hp, Hr.
        -- intros (p & Hp' & Hn). congruence.
        -- by eapply load_jlpt_vocab_present.
      * rewrite (bind_ok _ _ _ _ _ (load_jlpt_vocab_absent _ _ _ Hp Hr)).
        unfold raise. split; [done|]. exists (level, s).
        split; [apply elem_of_cons; by left|]. split; [by exists path|done].
    + apply (Hstep []).
      * unfold level_rows. by rewrite Hp.
      * intros (p & Hp' & Hn). congruence.
      * unfold load_jlpt_vocab. by rewrite Hp.
Qed.

Lemma mastery_items_ok (mastery : gmap string (gset string)) :
  mastery_ok mastery ->
  (mastery_items mastery).*1 = LEVELS /\
  list_to_map (mastery_items mastery) = mastery.
Proof.
  intros [Hkeys _].
  assert (Hsome : forall level, level ∈ LEVELS -> is_Some (mastery !! level)).
  { intros level. apply Hkeys. }
  destruct (Hsome "N5") as [s5 H5]; [unfold LEVELS; repeat constructor|].
  destruct (Hsome "N4") as [s4 H4]; [unfold LEVELS; repeat constructor|].
  destruct (Hsome "N3") as [s3 H3]; [unfold LEVELS; repeat constructor|].
  destruct (Hsome "N2") as [s2 H2]; [unfold LEVELS; repeat constructor|].
  destruct (Hsome "N1") as [s1 H1]; [unfold LEVELS; repeat constructor|].
  unfold mastery_items, LEVELS. simpl. rewrite H5, H4, H3, H2, H1. simpl.
  split; [done|]. apply map_eq. intros level.
  rewrite !lookup_insert, lookup_empty.
  repeat case_decide; subst; try done.
  symmetry. apply eq_None_not_Some. intros Hs%Hkeys.
  unfold LEVELS in Hs.
  repeat (apply elem_of_cons in Hs as [Hs|Hs]; [congruence|]).
  by apply elem_of_nil in Hs.
Qed.

Lemma load_mastered_vocabs_world (w wa : World) (mastery : gmap string (gset string)) :
  load_mastered_vocabs w = (Ok mastery, wa) ->
  mastery_ok mastery /\ exists f, wa = set_progress_file f w.
Proof.
  intros Hload.
  pose proof (load_mastered_vocabs_repeat w) as Hrep. rewrite Hload in Hrep.
  split; [apply Hrep|].
  unfold load_mastered_vocabs, bind, gets in Hload.
  destruct (progress_file w) as [[|header lines]|] eqn:Hf.
  - done.
  - unfold lift in Hload. injection Hload as _ <-.
    exists (progress_file w). by destruct w.
  - unfold create_progress_file, modify, ret in Hload. injection Hload as _ <-.
    by eexists.
Qed.

(** X16.  [load_user_progress] needs the vocabulary file of every level:
    when the progress table loads and all five files are there, the result
    maps each of the five levels (and nothing else) to the size of its
    mastered set and the number of rows of its vocabulary file, and nothing
    is printed; if a file is absent the call raises [TypeError] right after
    the not-found notice for the first such level. *)
Theorem load_user_progress_counts (w wa : World) (mastery : gmap string (gset string)) :
  load_mastered_vocabs w = (Ok mastery, wa) ->
  match load_user_progress w with
  | (Ok user_progress, w') =>
      w' = wa /\
      (forall level, level ∈ LEVELS -> ¬ missing_vocab w level) /\
      (forall level,
          user_progress !! level =
          (fun s => (size s, length (level_rows w level))) <$> mastery !! level) /\
      (forall level, is_Some (user_progress !! level) <-> level ∈ LEVELS)
  | (Raise e, w') =>
      e = TypeError /\
      exists level,
        level ∈ LEVELS /\ missing_vocab w level /\
        w' = set_stdout
               (stdout wa ++ [OutNotFound ("jlpt_" +:+ lower level +:+ ".csv")]) wa
  end.
Proof.
  intros Hload.
  destruct (load_mastered_vocabs_world _ _ _ Hload) as [Hok [f ->]].
  destruct (mastery_items_ok _ Hok) as [Hkeys Hmap].
  unfold load_user_progress. rewrite (bind_ok _ _ _ _ _ Hload).
  pose proof (collect_progress_outcome (mastery_items mastery) ∅
                (set_progress_file f w)) as Hout.
  rewrite Hkeys, Hmap in Hout.
  assert (Hnd : NoDup LEVELS).
  { unfold LEVELS. repeat (apply NoDup_cons; split;
      [intros Hx; repeat (apply elem_of_cons in Hx as [Hx|Hx]; [congruence|]);
       by apply elem_of_nil in Hx|]). apply NoDup_nil_2. }
  specialize (Hout Hnd).
  destruct (collect_progress (mastery_items mastery) ∅ (set_progress_file f w))
    as [[user_progress|e] w'].
  - destruct Hout as (-> & Hall & Hlook). split; [done|].
    assert (Hlook' : forall level,
               user_progress !! level =
               (fun s => (size s, length (level_rows w level))) <$> mastery !! level).
    { intros level. rewrite Hlook. by destruct (mastery !! level). }
    split; [|split; [done|]].
    + intros level Hl. rewrite Forall_forall in Hall.
      assert (is_Some (mastery !! level)) as [s Hs] by by apply Hok.
      apply (Hall (level, s)). rewrite <- Hmap in Hs.
      by apply elem_of_list_to_map_2 in Hs.
    + intros level. rewrite Hlook', <- (proj1 Hok level).
      by rewrite fmap_is_Some.
  - destruct Hout as (-> & [level s] & Hin & Hm & ->). split; [done|].
    exists level. split; [|done].
    rewrite <- Hkeys. apply list_elem_of_fmap. by exists (level, s).
Qed.

Lemma load_user_progress_counts_witness :
  match load_user_progress practice_world with
  | (Ok user_progress, w') =>
      w' = (load_mastered_vocabs practice_world).2 /\
      (forall level, level ∈ LEVELS -> ¬ missing_vocab practice_world level) /\
      (forall level,
          user_progress !! level =
          (fun s => (size s, length (level_rows practice_world level)))
            <$> default_mastery !! level) /\
      (forall level, is_Some (user_progress !! level) <-> level ∈ LEVELS)
  | (Raise e, w') =>
      e = TypeError /\
      exists level,
        level ∈ LEVELS /\ missing_vocab practice_world level /\
        w' = set_stdout
               (stdout (load_mastered_vocabs practice_world).2 ++
                [OutNotFound ("jlpt_" +:+ lower level +:+ ".csv")])
               (load_mastered_vocabs practice_world).2
  end.
Proof.
  apply (load_user_progress_counts practice_world
           (load_mastered_vocabs practice_world).2 default_mastery).
  reflexivity.
Defined.

(** ** A letter beyond the last option *)

Lemma letter_choice_index (c : string) (i : nat) (w : World) :
  list_index c ["A"; "B"; "C"; "D"] = Some i ->
  c ≠ "Q" /\ choice_index_of c w = (Ok (Z.of_nat i), w).
Proof.
  simpl. repeat case_decide; subst; simpl; intros [= <-]; try done.
Qed.

Lemma list_getitem_beyond {A} (l : list A) (i : nat) (w : World) :
  length l <= i -> list_getitem l (Z.of_nat i) w = (Raise IndexError, w).
Proof.
  intros Hi. unfold list_getitem.
  destruct (decide (Z.of_nat i < 0)%Z) as [Hneg|_]; [lia|].
  by rewrite decide_False by lia.
Qed.

Lemma correct_index_below (pool : list row) (ot ans : string) (w w' w2 : World)
    (options : list string) :
  build_options pool ot ans w = (Ok options, w') ->
  exists ci, get_correct_answer_index options ans w2 = (Ok ci, w2) /\
             ci < length options.
Proof.
  intros Hb. destruct (build_options_once _ _ _ _ _ _ Hb) as [Hone _].
  destruct (list_index_unique _ _ Hone) as (ci & Hci & Hl & _).
  exists ci. split.
  - unfold get_correct_answer_index. by rewrite Hci.
  - by eapply lookup_lt_Some.
Qed.

(** X17.  When a JLPT question shows fewer than four options (the sample
    has too few distinct meanings) and the user answers with a letter beyond
    the last option, the quiz raises [IndexError] at
    [options[choice_index]] while recording the mistake; nothing has been
    written by then. *)
Theorem jlpt_quiz_letter_beyond_options (fuel : nat) (level : string)
    (quiz_content : list row) (q_no score : nat) (mistakes : list MistakeReview)
    (w w1 w2 : World) (content : row) (prompt c : string) (options : list string)
    (i : nat) :
  quiz_content !! q_no = Some content ->
  generate_question content quiz_content "jlpt" w = (Ok (prompt, options), w1) ->
  get_user_choice ANSWER_CHOICES
    (set_stdout (stdout w1 ++ [OutQuizQuestion q_no prompt options]) w1) = (Ok c, w2) ->
  list_index c ["A"; "B"; "C"; "D"] = Some i ->
  length options <= i ->
  jlpt_quiz_loop (S fuel) level quiz_content q_no score mistakes w
    = (Raise IndexError, w2) /\
  mistake_file w2 = mistake_file w /\ progress_file w2 = progress_file w.
Proof.
  intros Hlook Hgen Hchoice Hletter Hlen.
  destruct (generate_question_inv _ _ _ _ _ _ _ Hgen) as (ans & Hans & Hfields & Hb).
  unfold correct_answer_of in Hans. rewrite decide_True in Hans by done.
  unfold item_fields in Hfields. rewrite decide_True in Hfields by done.
  apply Forall_cons in Hfields as [[kana Hkana] Hfields].
  apply Forall_cons in Hfields as [[kanji Hkanji] _].
  destruct (correct_index_below _ _ _ _ _ w2 _ Hb) as (ci & Hci & Hlt).
  destruct (letter_choice_index c i w2 Hletter) as [Hq Hidx].
  assert (Hget : forall k v, content !! k = Some v -> getitem content k w2 = (Ok v, w2)).
  { intros k v Hk. unfold getitem. by rewrite Hk. }
  split.
  - cbn [jlpt_quiz_loop].
    rewrite decide_True by (by eapply lookup_lt_Some).
    rewrite Hlook. rewrite (bind_ok _ _ _ _ _ Hgen).
    erewrite bind_ok by reflexivity.
    rewrite (bind_ok _ _ _ _ _ Hchoice).
    rewrite decide_False by done.
    rewrite (bind_ok _ _ _ _ _ Hidx).
    rewrite (bind_ok _ _ _ _ _ (Hget _ _ Hans)).
    rewrite (bind_ok _ _ _ _ _ Hci).
    rewrite decide_False by lia.
    rewrite (bind_ok _ _ _ _ _ (Hget _ _ Hkanji)).
    rewrite (bind_ok _ _ _ _ _ (Hget _ _ Hkana)).
    rewrite (bind_ok _ _ _ _ _ (Hget _ _ Hans)).
    by rewrite (bind_raise _ _ _ _ _ (list_getitem_beyond _ _ _ Hlen)).
  - pose proof (generate_question_same_files content quiz_content "jlpt" w) as Hg.
    rewrite Hgen in Hg. simpl in Hg.
    pose proof (get_user_choice_same_files ANSWER_CHOICES
                  (set_stdout (stdout w1 ++ [OutQuizQuestion q_no prompt options]) w1))
      as Hu.
    rewrite Hchoice in Hu. simpl in Hu.
    destruct Hg as (_ & _ & Hm1 & Hp1 & _), Hu as (_ & _ & Hm2 & Hp2 & _).
    simpl in Hm2, Hp2. split; congruence.
Qed.

Lemma jlpt_quiz_letter_beyond_options_witness :
  let w1 := (generate_question (vocab "上" "うえ" "up") twin_vocabs "jlpt" twin_world).2 in
  let w2 := (get_user_choice ANSWER_CHOICES
               (set_stdout (stdout w1 ++
                  [OutQuizQuestion 0 "うえ (上)" ["down"; "up"]]) w1)).2 in
  jlpt_quiz_loop 1 "N5" twin_vocabs 0 0 [] twin_world = (Raise IndexError, w2) /\
  mistake_file w2 = mistake_file twin_world /\
  progress_file w2 = progress_file twin_world.
Proof.
  apply (jlpt_quiz_letter_beyond_options 0 "N5" twin_vocabs 0 0 [] twin_world
           (generate_question (vocab "上" "うえ" "up") twin_vocabs "jlpt" twin_world).2
           (get_user_choice ANSWER_CHOICES
              (set_stdout
                 (stdout (generate_question (vocab "上" "うえ" "up") twin_vocabs "jlpt"
                            twin_world).2 ++
                  [OutQuizQuestion 0 "うえ (上)" ["down"; "up"]])
                 (generate_question (vocab "上" "うえ" "up") twin_vocabs "jlpt"
                    twin_world).2)).2
           (vocab "上" "うえ" "up") "うえ (上)" "C" ["down"; "up"] 2).
  - reflexivity.
  - vm_compute. reflexivity.
  - vm_compute. reflexivity.
  - reflexivity.
  - simpl. lia.
Defined.

(** X18.  The character quiz never indexes the options with the user's
    letter: in the same situation (fewer than four options, a letter beyond
    the last) the answer just counts as wrong, and the quiz goes on to the
    next question with the score unchanged. *)
Theorem character_quiz_letter_beyond_options (fuel : nat)
    (quiz_content : list row) (q_no score : nat)
    (w w1 w2 : World) (content : row) (prompt c : string) (options : list string)
    (i : nat) :
  quiz_content !! q_no = Some content ->
  generate_question content quiz_content "character" w = (Ok (prompt, options), w1) ->
  get_user_choice ANSWER_CHOICES
    (set_stdout (stdout w1 ++ [OutQuizQuestion q_no prompt options]) w1) = (Ok c, w2) ->
  list_index c ["A"; "B"; "C"; "D"] = Some i ->
  length options <= i ->
  character_quiz_loop (S fuel) quiz_content q_no score w
    = character_quiz_loop fuel quiz_content (q_no + 1) score w2.
Proof.
  intros Hlook Hgen Hchoice Hletter Hlen.
  destruct (generate_question_inv _ _ _ _ _ _ _ Hgen) as (ans & Hans & _ & Hb).
  unfold correct_answer_of in Hans. rewrite decide_False in Hans by done.
  rewrite decide_True in Hans by done.
  destruct (correct_index_below _ _ _ _ _ w2 _ Hb) as (ci & Hci & Hlt).
  destruct (letter_choice_index c i w2 Hletter) as [Hq Hidx].
  assert (Hget : getitem content "Correct Answer" w2 = (Ok ans, w2)).
  { unfold getitem. by rewrite Hans. }
  cbn [character_quiz_loop].
  rewrite decide_True by (by eapply lookup_lt_Some).
  rewrite Hlook. rewrite (bind_ok _ _ _ _ _ Hgen).
  erewrite bind_ok by reflexivity.
  rewrite (bind_ok _ _ _ _ _ Hchoice).
  rewrite decide_False by done.
  rewrite (bind_ok _ _ _ _ _ Hidx).
  rewrite (bind_ok _ _ _ _ _ Hget).
  rewrite (bind_ok _ _ _ _ _ Hci).
  by rewrite decide_False by lia.
Qed.

Lemma character_quiz_letter_beyond_options_witness :
  let w1 := (generate_question (character "あ" "a") twin_characters "character"
               twin_world).2 in
  let w2 := (get_user_choice ANSWER_CHOICES
               (set_stdout (stdout w1 ++ [OutQuizQuestion 0 "あ" ["i"; "a"]]) w1)).2 in
  character_quiz_loop 2 twin_characters 0 0 twin_world
    = character_quiz_loop 1 twin_characters (0 + 1) 0 w2.
Proof.
  apply (character_quiz_letter_beyond_options 1 twin_characters 0 0 twin_world
           (generate_question (character "あ" "a") twin_characters "character"
              twin_world).2
           (get_user_choice ANSWER_CHOICES
              (set_stdout
                 (stdout (generate_question (character "あ" "a") twin_characters
                            "character" twin_world).2 ++
                  [OutQuizQuestion 0 "あ" ["i"; "a"]])
                 (generate_question (character "あ" "a") twin_characters "character"
                    twin_world).2)).2
           (character "あ" "a") "あ" "C" ["i"; "a"] 2).
  - reflexivity.
  - vm_compute. reflexivity.
  - vm_compute. reflexivity.
  - reflexivity.
  - simpl. lia.
Defined.

(** ** The learning pages *)

Lemma per_column_covers (n c : nat) : 0 < c -> n <= c * ((n + c - 1) / c).
Proof.
  intros Hc. pose proof (Nat.div_mod_eq (n + c - 1) c) as Hdm.
  pose proof (Nat.mod_upper_bound (n + c - 1) c) as Hlt. lia.
Qed.

Lemma concat_fmap_bind {A B} (f : A -> list B) (l : list A) :
  concat (f <$> l) = l ≫= f.
Proof. induction l as [|x l IH]; csimpl; by rewrite ?IH. Qed.

Lemma elem_of_line_indices (n c p line x : nat) :
  x ∈ line_indices n c p line <-> x < n /\ exists col, col < c /\ x = line + col * p.
Proof.
  unfold line_indices. rewrite list_elem_of_filter, list_elem_of_fmap.
  split.
  - intros (Hx & col & -> & Hcol). split; [done|]. exists col. split; [|done].
    apply elem_of_seq in Hcol. lia.
  - intros (Hx & col & Hcol & ->). split; [done|]. exists col. split; [done|].
    apply elem_of_seq. lia.
Qed.

Lemma column_indices_complete (n c : nat) :
  0 < c ->
  concat ((line_indices n c ((n + c - 1) / c)) <$> seq 0 ((n + c - 1) / c))
    ≡ₚ seq 0 n.
Proof.
  intros Hc. pose proof (per_column_covers n c Hc) as Hcov.
  set (p := (n + c - 1) / c) in *.
  rewrite concat_fmap_bind. apply NoDup_Permutation.
  - apply NoDup_bind; [| |apply NoDup_seq].
    + intros l1 l2 x Hl1%elem_of_seq Hl2%elem_of_seq
        (_ & c1 & _ & ->)%elem_of_line_indices (_ & c2 & _ & Heq)%elem_of_line_indices.
      assert (Hm : (l1 + c1 * p) mod p = (l2 + c2 * p) mod p) by by rewrite Heq.
      rewrite !Nat.Div0.mod_add in Hm.
      rewrite !Nat.mod_small in Hm by lia. done.
    + intros line Hline%elem_of_seq. unfold line_indices.
      apply NoDup_filter. apply NoDup_fmap_2_strong; [|apply NoDup_seq].
      intros c1 c2 _ _ Heq. nia.
  - apply NoDup_seq.
  - intros x. rewrite list_elem_of_bind, elem_of_seq. split.
    + intros (line & (Hx & _)%elem_of_line_indices & _). lia.
    + intros [_ Hx]. simpl in Hx.
      assert (Hp : p ≠ 0) by nia.
      exists (x mod p). split.
      * apply elem_of_line_indices. split; [done|]. exists (x / p). split.
        -- apply Nat.Div0.div_lt_upper_bound. lia.
        -- pose proof (Nat.div_mod_eq x p). lia.
      * apply elem_of_seq. pose proof (Nat.mod_upper_bound x p Hp). lia.
Qed.

Lemma concat_omap_fmap {A B C} (f : B -> option C) (g : A -> list B) (l : list A) :
  concat ((fun x => omap f (g x)) <$> l) = omap f (concat (g <$> l)).
Proof.
  induction l as [|x l IH]; simpl; [done|]. rewrite omap_app. by f_equal.
Qed.

Lemma omap_numbered {A} (items : list A) (pre : list A) :
  omap (fun index => (fun item => (index + 1, item)) <$> (pre ++ items) !! index)
       (seq (length pre) (length items))
  = imap (fun i item => (length pre + i + 1, item)) items.
Proof.
  revert pre. induction items as [|x items IH]; intros pre; simpl; [done|].
  rewrite lookup_app_r by lia. rewrite Nat.sub_diag. simpl.
  rewrite Nat.add_0_r. f_equal.
  specialize (IH (pre ++ [x])). rewrite length_app in IH.
  rewrite <- (assoc_L (++)) in IH. simpl in IH.
  rewrite Nat.add_1_r in IH. etrans; [exact IH|].
  apply imap_ext. intros i y _. simpl. f_equal. lia.
Qed.

Lemma column_lines_complete {A} (items : list A) (c : nat) :
  0 < c ->
  concat (column_lines items c) ≡ₚ imap (fun i item => (i + 1, item)) items.
Proof.
  intros Hc. unfold column_lines, line_entries.
  rewrite (concat_omap_fmap
             (fun index => (fun item => (index + 1, item)) <$> items !! index)
             (line_indices (length items) c ((length items + c - 1) / c))).
  rewrite (column_indices_complete (length items) c Hc).
  pose proof (omap_numbered items []) as Hn.
  cbn [app length Nat.add] in Hn. by rewrite Hn.
Qed.

(** X19.  The two learning pages show every item exactly once, with its
    1-based position in the file as its number: the entries of all printed
    lines together are a rearrangement of the numbered items.  The
    vocabulary page has half as many lines as items (rounded up), the
    character page a quarter. *)
Theorem learning_pages_show_every_item (vocabulary all_characters : list row) :
  concat (display_vocabulary_lines vocabulary)
    ≡ₚ imap (fun i item => (i + 1, item)) vocabulary /\
  concat (display_characters_lines all_characters)
    ≡ₚ imap (fun i item => (i + 1, item)) all_characters /\
  length (display_vocabulary_lines vocabulary) = (length vocabulary + 1) / 2 /\
  length (display_characters_lines all_characters) = (length all_characters + 3) / 4.
Proof.
  split; [apply column_lines_complete; lia|].
  split; [apply column_lines_complete; lia|].
  unfold display_vocabulary_lines, display_characters_lines, column_lines.
  rewrite !length_fmap, !length_seq.
  split; f_equal; lia.
Qed.
